(** * Brain-tumor image augmentation script: a shallow embedding

    The development follows [training/data_augmente/data_augmente.py]:
    the module-level path computation, [create_dir], and the walker/writer
    [augment_and_save_images].  The script is glue over the Python standard
    library ([os.path], [os.walk], [str.endswith]), Pillow ([Image.open],
    [resize], [convert], [fromarray], [save]), NumPy ([array], [stack],
    [repeat], slicing, [where], [astype]) and the Keras preprocessing layers.
    The first part of the file models the library calls the script makes, each
    next to the library behaviour it stands for; the second part is the script
    itself, statement by statement; the theorems come last. *)

From Stdlib Require Import ZArith Ascii String List Bool Arith Lia.
From Stdlib Require Import DecimalString DecimalNat.
From stdpp Require Import base gmap strings list fin_maps.

Local Open Scope string_scope.
Local Open Scope list_scope.

Set Warnings "-clear-no-such-hyp".

(** ** Python [str] primitives used by the script *)

Module pystr.

(** [s.startswith(pre)] *)
Fixpoint startswith (s pre : string) {struct pre} : bool :=
  match pre, s with
  | EmptyString, _ => true
  | String _ _, EmptyString => false
  | String a pre', String b s' => Ascii.eqb a b && startswith s' pre'
  end.

(** [s.endswith(suf)]: some tail of [s] is [suf], compared byte for byte. *)
Fixpoint endswith (s suf : string) : bool :=
  String.eqb s suf
  || match s with
     | EmptyString => false
     | String _ s' => endswith s' suf
     end.

(** [s.endswith((suf1, suf2, ...))]: true when one of the suffixes matches. *)
Definition endswith_any (s : string) (sufs : list string) : bool :=
  existsb (endswith s) sufs.

(** [c in s] for a one-character [c]. *)
Fixpoint contains (c : ascii) (s : string) : bool :=
  match s with
  | EmptyString => false
  | String a s' => Ascii.eqb a c || contains c s'
  end.

(** [(s[:i], s[i:])] for [i = s.rfind(c) + 1]: the longest prefix ending in
    [c] (empty when [c] does not occur) and what follows it. *)
Fixpoint rcut (c : ascii) (s : string) : string * string :=
  match s with
  | EmptyString => (EmptyString, EmptyString)
  | String a s' =>
      match rcut c s' with
      | (EmptyString, t) =>
          if Ascii.eqb a c then (String a EmptyString, t)
          else (EmptyString, String a t)
      | (h, t) => (String a h, t)
      end
  end.

(** [s.rstrip(c)] for a one-character [c]. *)
Fixpoint rstrip (c : ascii) (s : string) : string :=
  match s with
  | EmptyString => EmptyString
  | String a s' =>
      match rstrip c s' with
      | EmptyString => if Ascii.eqb a c then EmptyString else String a EmptyString
      | r => String a r
      end
  end.

(** [s[:-1]] *)
Fixpoint drop_last (s : string) : string :=
  match s with
  | EmptyString => EmptyString
  | String _ EmptyString => EmptyString
  | String a s' => String a (drop_last s')
  end.

(** [all(ch == c for ch in s)] *)
Fixpoint all_char (c : ascii) (s : string) : bool :=
  match s with
  | EmptyString => true
  | String a s' => Ascii.eqb a c && all_char c s'
  end.

(** [s.lower()] on ASCII. *)
Definition lower_char (a : ascii) : ascii :=
  let n := nat_of_ascii a in
  if Nat.leb 65 n && Nat.leb n 90 then ascii_of_nat (n + 32) else a.

Fixpoint lower (s : string) : string :=
  match s with
  | EmptyString => EmptyString
  | String a s' => String (lower_char a) (lower s')
  end.

(** [str(n)] for a non-negative integer, as the f-string [f"{i}"] prints
    it: the decimal digits, most significant first, ["0"] for zero. *)
Definition str_of_nat (n : nat) : string :=
  NilEmpty.string_of_uint (Nat.to_uint n).

End pystr.

(** ** [os.path] on POSIX ([posixpath.py]) *)

Module os_path.
Import pystr.

Definition sep : ascii := "/"%char.

(** One step of [posixpath.join]: an absolute component replaces what was
    accumulated; otherwise it is appended, with a separator unless the
    accumulated path is empty or already ends with one. *)
Definition join2 (path b : string) : string :=
  if startswith b "/" then b
  else if String.eqb path "" || endswith path "/" then path +:+ b
  else path +:+ "/" +:+ b.

(** [os.path.join(a, *p)] *)
Definition join (a : string) (p : list string) : string :=
  fold_left join2 p a.

(** [os.path.basename(p)]: [p[p.rfind('/')+1:]]. *)
Definition basename (p : string) : string := snd (rcut sep p).

(** [os.path.dirname(p)]: [head = p[:p.rfind('/')+1]], stripped of its
    trailing separators unless it consists of separators only. *)
Definition dirname (p : string) : string :=
  let head := fst (rcut sep p) in
  if negb (String.eqb head "") && negb (all_char sep head)
  then rstrip sep head
  else head.

(** [os.path.splitext(p)[1]]: the extension starts at the last dot of the
    last component, provided some character before that dot (within the
    component) is not itself a dot. *)
Definition splitext_ext (p : string) : string :=
  let b := basename p in
  match rcut "."%char b with
  | (EmptyString, _) => EmptyString
  | (h, t) =>
      if all_char "."%char (drop_last h) then EmptyString
      else String "."%char t
  end.

End os_path.

(** ** Exceptions and results *)

Inductive exn : Type :=
| UnidentifiedImageError   (* [Image.open] on a file no decoder accepts *)
| TypeError                (* [Image.fromarray]: "Cannot handle this data type" *)
| IndexError               (* tuple index out of range *)
| ValueError               (* [Image.save]: "unknown file extension" *)
| OSError.                 (* [Image.save]: "cannot write mode ... as ...";
                              loading a truncated file: "image file is truncated" *)

Inductive result (A : Type) : Type :=
| Ok (a : A)
| Raise (e : exn).
Arguments Ok {A} a.
Arguments Raise {A} e.

(** ** NumPy arrays *)

Module np.

Inductive dtype : Type := bool_ | uint8 | uint16 | int32 | float32.

Definition dtype_eqb (a b : dtype) : bool :=
  match a, b with
  | bool_, bool_ | uint8, uint8 | uint16, uint16
  | int32, int32 | float32, float32 => true
  | _, _ => false
  end.

(** An [ndarray]: its shape, its element type and its buffer in C order
    (last axis fastest).  Entries of a [float32] array are represented by
    the integer they truncate to. *)
Record ndarray : Type := mk_ndarray {
  shape : list nat;
  dtype_of : dtype;
  data : list Z
}.

(** [a[r, c, k]] of a rank-3 array, [a[r, c]] of a rank-2 array. *)
Definition get3 (a : ndarray) (r c k : nat) : Z :=
  nth ((r * nth 1 (shape a) 0 + c) * nth 2 (shape a) 0 + k)%nat (data a) 0%Z.

Definition get2 (a : ndarray) (r c : nat) : Z :=
  nth (r * nth 1 (shape a) 0 + c)%nat (data a) 0%Z.

Definition triple (v : Z) : list Z := [v; v; v].

(** [np.stack((a,)*3, axis=-1)]: a new last axis of length 3 holding three
    copies of each entry. *)
Definition stack3 (a : ndarray) : ndarray :=
  {| shape := shape a ++ [3%nat];
     dtype_of := dtype_of a;
     data := flat_map triple (data a) |}.

(** [np.repeat(a, 3, axis=2)] on a rank-3 array: each entry along the last
    axis is repeated three times in place. *)
Definition repeat3_axis2 (a : ndarray) : ndarray :=
  {| shape := match shape a with
              | [h; w; c] => [h; w; (3 * c)%nat]
              | s => s
              end;
     dtype_of := dtype_of a;
     data := flat_map triple (data a) |}.

(** [n] consecutive groups of [c] entries. *)
Fixpoint chunks_of (n c : nat) (l : list Z) : list (list Z) :=
  match n with
  | O => []
  | S n' => firstn c l :: chunks_of n' c (skipn c l)
  end.

(** [a[:, :, :3]] on a rank-3 array: the first three entries of each
    group along the last axis. *)
Definition first3_axis2 (a : ndarray) : ndarray :=
  match shape a with
  | [h; w; c] =>
      {| shape := [h; w; Nat.min c 3];
         dtype_of := dtype_of a;
         data := flat_map (firstn 3) (chunks_of (h * w) c (data a)) |}
  | _ => a
  end.

(** [a.astype("uint8")]: every entry reduced to 8 bits. *)
Definition astype_uint8 (a : ndarray) : ndarray :=
  {| shape := shape a;
     dtype_of := uint8;
     data := map (fun v => (v mod 256)%Z) (data a) |}.

(** [np.where(a < t, 0, a)] *)
Definition where_lt (t : Z) (a : ndarray) : ndarray :=
  {| shape := shape a;
     dtype_of := dtype_of a;
     data := map (fun v => if (v <? t)%Z then 0%Z else v) (data a) |}.

(** [tf.expand_dims(a, 0)] and [tf.squeeze(a)], on the same representation. *)
Definition expand_dims0 (a : ndarray) : ndarray :=
  {| shape := 1%nat :: shape a; dtype_of := dtype_of a; data := data a |}.

Definition squeeze (a : ndarray) : ndarray :=
  {| shape := List.filter (fun d => negb (Nat.eqb d 1)) (shape a);
     dtype_of := dtype_of a;
     data := data a |}.

End np.

(** ** Pillow images *)

Module PIL.
Import np.

(** The modes [Image.open] yields for the JPEG and PNG decoders (and ["F"],
    ["CMYK"] for completeness of [fromarray] and of other decoders). *)
Inductive Mode : Type :=
| M_1 | M_L | M_P | M_I | M_I16 | M_F | M_LA | M_RGB | M_RGBA | M_CMYK.

Definition mode_eqb (a b : Mode) : bool :=
  match a, b with
  | M_1, M_1 | M_L, M_L | M_P, M_P | M_I, M_I | M_I16, M_I16 | M_F, M_F
  | M_LA, M_LA | M_RGB, M_RGB | M_RGBA, M_RGBA | M_CMYK, M_CMYK => true
  | _, _ => false
  end.

(** [len(ImageMode.getmode(m).bands)] *)
Definition bands (m : Mode) : nat :=
  match m with
  | M_1 | M_L | M_P | M_I | M_I16 | M_F => 1
  | M_LA => 2
  | M_RGB => 3
  | M_RGBA | M_CMYK => 4
  end.

(** [ImageMode.getmode(m).typestr] as a NumPy element type. *)
Definition typestr (m : Mode) : dtype :=
  match m with
  | M_1 => bool_
  | M_I => int32
  | M_I16 => uint16
  | M_F => float32
  | _ => uint8
  end.

(** An image in memory: mode, size and the pixel buffer, row by row with the
    bands of one pixel next to each other. *)
Record Image : Type := mk_Image {
  mode : Mode;
  width : nat;
  height : nat;
  pixels : list Z
}.

Definition wf_image (im : Image) : Prop :=
  length (pixels im) = (height im * width im * bands (mode im))%nat.

Section Resize.
(** The resampling filter: the pixel buffer of the image scaled to the
    requested width and height. *)
Variable resample : Image -> nat -> nat -> list Z.

(** [im.resize((w, h))]: a copy when the size does not change, the
    resampled image in the same mode otherwise. *)
Definition resize (im : Image) (w h : nat) : Image :=
  if Nat.eqb (width im) w && Nat.eqb (height im) h then im
  else {| mode := mode im; width := w; height := h;
          pixels := resample im w h |}.
End Resize.

(** [im.convert('RGB')] on an RGBA image: the alpha band is discarded. *)
Definition convert_RGB (im : Image) : Image :=
  {| mode := M_RGB; width := width im; height := height im;
     pixels := flat_map (firstn 3)
                 (chunks_of (height im * width im) (bands (mode im)) (pixels im)) |}.

(** [np.array(im)]: shape [(height, width)] for a one-band mode and
    [(height, width, bands)] otherwise, over the pixel buffer. *)
Definition array (im : Image) : ndarray :=
  {| shape := if Nat.eqb (bands (mode im)) 1
              then [height im; width im]
              else [height im; width im; bands (mode im)];
     dtype_of := typestr (mode im);
     data := pixels im |}.

(** The mode [Image.fromarray] picks for the trailing shape and the element
    type ([_fromarray_typemap]). *)
Definition fromarray_mode (trailing : list nat) (t : dtype) : option Mode :=
  match trailing, t with
  | [], bool_ => Some M_1
  | [], uint8 => Some M_L
  | [], uint16 => Some M_I16
  | [], int32 => Some M_I
  | [], float32 => Some M_F
  | [2%nat], uint8 => Some M_LA
  | [3%nat], uint8 => Some M_RGB
  | [4%nat], uint8 => Some M_RGBA
  | _, _ => None
  end.

(** [Image.fromarray(a)] *)
Definition fromarray (a : ndarray) : result Image :=
  match fromarray_mode (skipn 2 (shape a)) (dtype_of a) with
  | None => Raise TypeError
  | Some m =>
      match shape a with
      | [] => Raise IndexError
      | [n] => Ok {| mode := m; width := 1; height := n; pixels := data a |}
      | h :: w :: _ => Ok {| mode := m; width := w; height := h; pixels := data a |}
      end
  end.

Inductive Format : Type := JPEG | PNG.

(** [Image.registered_extensions()] restricted to the two encoders the
    script can reach. *)
Definition EXTENSION (ext : string) : option Format :=
  if String.eqb ext ".jpg" || String.eqb ext ".jpeg"
     || String.eqb ext ".jpe" || String.eqb ext ".jfif" then Some JPEG
  else if String.eqb ext ".png" || String.eqb ext ".apng" then Some PNG
  else None.

(** The modes each encoder writes ([RAWMODE] of the JPEG plugin, [_OUTMODES]
    of the PNG plugin). *)
Definition can_write (f : Format) (m : Mode) : bool :=
  match f, m with
  | JPEG, (M_1 | M_L | M_RGB | M_CMYK) => true
  | JPEG, _ => false
  | PNG, (M_CMYK | M_F) => false
  | PNG, _ => true
  end.

End PIL.

(** ** The file system the script runs against *)

(** What a file holds for Pillow: something no decoder accepts, for which
    [Image.open] raises; a header a decoder accepts over pixel data that stop
    short, which [Image.open] returns for and which raises when the pixels
    are loaded; or a picture. *)
Inductive File : Type :=
| Undecodable
| Truncated
| Picture (im : PIL.Image).

(** The source tree as [os.walk] lists it: the files of a directory in
    listing order, then its sub-directories.  The walk enumerates this value;
    the theorems on the run say on which paths the run writes, and so when the
    listing cannot be affected by it. *)
#[warnings="-register-all"]
Inductive Tree : Type :=
| Dir (files : list (string * File)) (subdirs : list (string * Tree)).

(** [os.walk(top)], top-down: the triple of the directory itself, then the
    walks of its sub-directories in listing order.  File names come with the
    content stored under them. *)
Fixpoint walk (top : string) (t : Tree)
  : list (string * list string * list (string * File)) :=
  match t with
  | Dir fs ds =>
      (top, map fst ds, fs)
        :: flat_map (fun d => walk (os_path.join top [fst d]) (snd d)) ds
  end.

(** The file-system calls of a run. *)
Inductive event : Type :=
| EvOpen (path : string)
| EvMkdir (path : string)
| EvSave (path : string) (im : PIL.Image).

(** What a run changes: the regular files of the disk by path, each with the
    image last saved to it (those that were there and those the run saves),
    the directories that exist, the number of draws made from the
    augmentation layers' random generator, and the trace of file-system calls
    in the order they happen. *)
Record World : Type := mk_World {
  saved : gmap string PIL.Image;
  dirs : gset string;
  draws : nat;
  trace : list event
}.

(** Computations that read and update the world and may raise; the world
    reached when an exception is raised is kept. *)
Definition M (A : Type) : Type := World -> World * result A.

Definition ret {A} (a : A) : M A := fun w => (w, Ok a).

Definition bind {A B} (m : M A) (k : A -> M B) : M B :=
  fun w =>
    match m w with
    | (w', Ok a) => k a w'
    | (w', Raise e) => (w', Raise e)
    end.

Definition raise {A} (e : exn) : M A := fun w => (w, Raise e).

Declare Scope py_scope.
Delimit Scope py_scope with py.
Notation "x <- m ;; k" := (bind m (fun x => k))
  (at level 100, m at next level, right associativity) : py_scope.
Notation "m ;;; k" := (bind m (fun _ => k))
  (at level 100, right associativity) : py_scope.
Local Open Scope py_scope.

(** [for x in xs: body(x)] *)
Fixpoint for_each {A} (xs : list A) (body : A -> M unit) : M unit :=
  match xs with
  | [] => ret tt
  | x :: xs' => body x ;;; for_each xs' body
  end.

(** [range(n)] *)
Definition range (n : nat) : list nat := seq 0 n.

(** Appends a call to the trace. *)
Definition log (e : event) : M unit :=
  fun w => ({| saved := saved w; dirs := dirs w; draws := draws w;
               trace := trace w ++ [e] |}, Ok tt).

(** [os.path.exists(p)]: a directory or a file is at [p].  Paths are
    compared as strings: the world is taken to hold every path under the one
    spelling the script forms by joining names ([feasible] below says for
    which calls that is enough). *)
Definition os_path_exists (p : string) : M bool :=
  fun w => (w, Ok (bool_decide (p ∈ dirs w) || bool_decide (is_Some (saved w !! p)))).

(** [os.makedirs(p)], taken to succeed and to create [p] alone.  The
    operating system does just that when [p] is absent and is an entry of an
    existing directory, which [feasible] below states call by call; otherwise
    it creates the missing ancestors as well, or raises ([p] empty or below a
    regular file), which this definition does not follow. *)
Definition os_makedirs (p : string) : M unit :=
  fun w => ({| saved := saved w; dirs := {[p]} ∪ dirs w; draws := draws w;
               trace := trace w ++ [EvMkdir p] |}, Ok tt).

(** [Image.open(path)] followed by the loading of the pixels, where
    [content] is what the file holds.  Pillow decodes lazily: for a truncated
    file [Image.open] returns and the [OSError] comes from [resize] on line
    64, the next call the script makes, with nothing done in between; it is
    raised here. *)
Definition Image_open (path : string) (content : File) : M PIL.Image :=
  log (EvOpen path) ;;;
  match content with
  | Picture im => ret im
  | Undecodable => raise UnidentifiedImageError
  | Truncated => raise OSError
  end.

(** [Image.fromarray(a)] *)
Definition Image_fromarray (a : np.ndarray) : M PIL.Image :=
  match PIL.fromarray a with
  | Ok im => ret im
  | Raise e => raise e
  end.

(** [im.save(path)]: the format comes from the lower-cased extension of the
    path; an unknown extension or a mode the encoder does not write raises and
    leaves no file.  Otherwise the write is taken to succeed, as it does when
    [path] is an entry of an existing directory and no directory itself
    ([feasible] below); [saved] records the image handed to [save], not what
    a decoder reads back from the file. *)
Definition Image_save (im : PIL.Image) (path : string) : M unit :=
  match PIL.EXTENSION (pystr.lower (os_path.splitext_ext path)) with
  | None => raise ValueError
  | Some f =>
      if PIL.can_write f (PIL.mode im)
      then fun w => ({| saved := <[path := im]> (saved w); dirs := dirs w;
                        draws := draws w;
                        trace := trace w ++ [EvSave path im] |}, Ok tt)
      else raise OSError
  end.

(** ** The script *)

(** Configuration (lines 21-22).  The augmentation factor is a count, a
    [nat] here. *)
Definition IMAGE_SIZE : nat := 256.
Definition AUGMENTATION_FACTOR : nat := 2.

(** Directory paths, from [script_file = os.path.abspath(__file__)]. *)
Definition current_dir (script_file : string) : string :=
  os_path.dirname script_file.
Definition parent_dir (script_file : string) : string :=
  os_path.dirname (current_dir script_file).
Definition data_dir (script_file : string) : string :=
  os_path.join (parent_dir script_file) ["data"; "base_data"].
Definition output_dir (script_file : string) : string :=
  os_path.join (os_path.dirname (data_dir script_file)) ["data_augmente_data"].

(** Lines 38-46. *)
Definition create_dir (dir_path : string) : M unit :=
  e <- os_path_exists dir_path ;;
  if negb e then os_makedirs dir_path else ret tt.

Section Script.

(** Pillow's resampling filter (bicubic by default, nearest for modes "1"
    and "P"). *)
Variable resample : PIL.Image -> nat -> nat -> list Z.

(** The [tf.keras.Sequential] of [RandomFlip], [RandomRotation],
    [RandomZoom] and [RandomContrast], called with [training=True]: the
    output for a batch, given how many draws were made before. *)
Variable data_augmentation : nat -> np.ndarray -> np.ndarray.

(** Lines 64-78: resize, drop alpha, convert to an array, coerce the
    channels. *)
Definition normalize (img : PIL.Image) : np.ndarray :=
  let img := PIL.resize resample img IMAGE_SIZE IMAGE_SIZE in
  let img := if PIL.mode_eqb (PIL.mode img) PIL.M_RGBA
             then PIL.convert_RGB img else img in
  let img_array := PIL.array img in
  if Nat.eqb (length (np.shape img_array)) 2 then np.stack3 img_array
  else if Nat.eqb (nth 2 (np.shape img_array) 0) 1 then np.repeat3_axis2 img_array
  else if Nat.eqb (nth 2 (np.shape img_array) 0) 4 then np.first3_axis2 img_array
  else img_array.

(** Lines 88-92 on the array: one pass through the augmentation layers for
    the [n]-th draw, back to 8 bits, dark values suppressed. *)
Definition augmented (n : nat) (img_array : np.ndarray) : np.ndarray :=
  let augmented_img := data_augmentation n (np.expand_dims0 img_array) in
  let augmented_img := np.astype_uint8 (np.squeeze augmented_img) in
  np.where_lt 5 augmented_img.

(** The same as a step of the run: it consumes one draw. *)
Definition augment (img_array : np.ndarray) : M np.ndarray :=
  fun w =>
    ({| saved := saved w; dirs := dirs w; draws := S (draws w);
        trace := trace w |}, Ok (augmented (draws w) img_array)).

(** [f"aug_{i}_{file}"] *)
Definition aug_name (i : nat) (file : string) : string :=
  "aug_" +:+ pystr.str_of_nat i +:+ "_" +:+ file.

(** The body of the inner loop, lines 61-97. *)
Definition process_file (output_dir : string) (augmentation_factor : nat)
    (subdir : string) (entry : string * File) : M unit :=
  let file := fst entry in
  if pystr.endswith_any file [".jpg"; ".jpeg"; ".png"] then
    let image_path := os_path.join subdir [file] in
    img <- Image_open image_path (snd entry) ;;
    let img_array := normalize img in
    let label_dir := os_path.join output_dir [os_path.basename subdir] in
    create_dir label_dir ;;;
    original <- Image_fromarray img_array ;;
    Image_save original (os_path.join label_dir [file]) ;;;
    for_each (range augmentation_factor) (fun i =>
      augmented_img <- augment img_array ;;
      augmented_img_pil <- Image_fromarray augmented_img ;;
      Image_save augmented_img_pil (os_path.join label_dir [aug_name i file]))
  else ret tt.

(** Lines 48-97; [dataset] is what [os.walk(dataset_dir)] finds. *)
Definition augment_and_save_images (dataset : Tree)
    (dataset_dir output_dir : string) (augmentation_factor : nat) : M unit :=
  create_dir output_dir ;;;
  for_each (walk dataset_dir dataset) (fun '(subdir, _, files) =>
    for_each files (process_file output_dir augmentation_factor subdir)).

(** Line 100: the call the script makes when it is run. *)
Definition main (script_file : string) (dataset : Tree) : M unit :=
  augment_and_save_images dataset (data_dir script_file)
    (output_dir script_file) AUGMENTATION_FACTOR.

(** *** The saves of one file, as a list

    What lines 84-97 attempt for one picture: the original under its own
    name, then one augmented copy per index, each from the next draw. *)

Fixpoint aug_plan (label_dir file : string) (img_array : np.ndarray)
    (n i d : nat) : list (string * np.ndarray) :=
  match n with
  | O => []
  | S n' =>
      (os_path.join label_dir [aug_name i file], augmented d img_array)
        :: aug_plan label_dir file img_array n' (S i) (S d)
  end.

Definition planned_saves (label_dir file : string) (img_array : np.ndarray)
    (augmentation_factor d : nat) : list (string * np.ndarray) :=
  (os_path.join label_dir [file], img_array)
    :: aug_plan label_dir file img_array augmentation_factor 0 d.

End Script.

(** [Image.fromarray(a).save(path)]: the image that reaches the disk, or the
    exception. *)
Definition save_result (path : string) (a : np.ndarray) : result PIL.Image :=
  match PIL.fromarray a with
  | Raise e => Raise e
  | Ok im =>
      match PIL.EXTENSION (pystr.lower (os_path.splitext_ext path)) with
      | None => Raise ValueError
      | Some f => if PIL.can_write f (PIL.mode im) then Ok im else Raise OSError
      end
  end.

(** The saves made for a list of attempts, up to the first that raises. *)
Fixpoint run_saves (plan : list (string * np.ndarray))
  : list event * result unit :=
  match plan with
  | [] => ([], Ok tt)
  | (path, a) :: plan' =>
      match save_result path a with
      | Raise e => ([], Raise e)
      | Ok im => (EvSave path im :: fst (run_saves plan'), snd (run_saves plan'))
      end
  end.

(** ** Vocabulary for the statements *)

(** The prefix [os.path.join] puts in front of a relative component. *)
Definition slashed (p : string) : string :=
  if String.eqb p "" || pystr.endswith p "/" then p else p +:+ "/".

(** [p] lies strictly below the directory [d]. *)
Definition under (d p : string) : Prop :=
  exists rest, rest <> "" /\ p = slashed d +:+ rest.

(** The number of channels [normalize] leaves: three, except for a
    two-band image, which keeps its two. *)
Definition channels_after (m : PIL.Mode) : nat :=
  match m with
  | PIL.M_LA => 2
  | _ => 3
  end.

(** A pixel value outside the open interval (0, 5). *)
Definition not_dark (v : Z) : Prop := (v = 0 \/ 5 <= v)%Z.

(** The paths a trace saves to, opens and creates, in order. *)
Definition saved_paths (evs : list event) : list string :=
  flat_map (fun e => match e with EvSave p _ => [p] | _ => [] end) evs.

Definition opened_paths (evs : list event) : list string :=
  flat_map (fun e => match e with EvOpen p => [p] | _ => [] end) evs.

Definition made_dirs (evs : list event) : list string :=
  flat_map (fun e => match e with EvMkdir p => [p] | _ => [] end) evs.

(** The effect of a trace on the saved images: each save replaces what the
    path held. *)
Definition apply_event (m : gmap string PIL.Image) (e : event)
  : gmap string PIL.Image :=
  match e with
  | EvSave p im => <[p := im]> m
  | _ => m
  end.

Definition replay (evs : list event) (m : gmap string PIL.Image)
  : gmap string PIL.Image :=
  fold_left apply_event evs m.

(** [w'] is [w] after the calls [evs]. *)
Definition advances (w w' : World) (evs : list event) : Prop :=
  trace w' = trace w ++ evs
  /\ saved w' = replay evs (saved w)
  /\ dirs w' = list_to_set (made_dirs evs) ∪ dirs w.

(** [body] runs over [xs] from [w] to [w'] without raising. *)
Inductive chain {A} (body : A -> M unit) : list A -> World -> World -> Prop :=
| chain_nil w : chain body [] w w
| chain_cons x xs w w1 w2 :
    body x w = (w1, Ok tt) -> chain body xs w1 w2 -> chain body (x :: xs) w w2.

(** The pairs [(subdir, entry)] of a walk, in the order of the two loops. *)
Definition flat_files (items : list (string * list string * list (string * File)))
  : list (string * (string * File)) :=
  flat_map (fun '(subdir, _, files) => map (pair subdir) files) items.

(** The file filter of line 61. *)
Definition is_image_name (file : string) : bool :=
  pystr.endswith_any file [".jpg"; ".jpeg"; ".png"].

(** Names as a directory listing has them: not empty, no separator. *)
Definition name_ok (n : string) : bool :=
  negb (String.eqb n "") && negb (pystr.contains os_path.sep n).

(** Every name in the tree is a listing name. *)
Fixpoint tree_ok (t : Tree) : bool :=
  match t with
  | Dir fs ds =>
      forallb (fun f => name_ok (fst f)) fs
      && forallb (fun d => name_ok (fst d) && tree_ok (snd d)) ds
  end.

(** The paths of the files of a walk that pass the filter, in walk order. *)
Definition source_images (flat : list (string * (string * File))) : list string :=
  flat_map (fun sf =>
    if is_image_name (fst (snd sf))
    then [os_path.join (fst sf) [fst (snd sf)]] else []) flat.

(** The same files by their path relative to the top of the tree. *)
Fixpoint rel_images (t : Tree) : list string :=
  match t with
  | Dir fs ds =>
      flat_map (fun f => if is_image_name (fst f) then [fst f] else []) fs
      ++ flat_map (fun d => map (fun r => fst d +:+ "/" +:+ r) (rel_images (snd d))) ds
  end.

(** No name occurs twice. *)
Fixpoint distinct (l : list string) : bool :=
  match l with
  | [] => true
  | x :: l' => negb (existsb (String.eqb x) l') && distinct l'
  end.

(** In every directory of the tree the file names are distinct and the
    directory names are distinct. *)
Fixpoint tree_distinct (t : Tree) : bool :=
  match t with
  | Dir fs ds =>
      distinct (map fst fs) && distinct (map fst ds)
      && forallb (fun d => tree_distinct (snd d)) ds
  end.

(** [at_path t names t']: following the directory names [names] from the
    top of [t] leads to the directory [t']. *)
Inductive at_path : Tree -> list string -> Tree -> Prop :=
| at_here t : at_path t [] t
| at_sub fs ds n sub names t' :
    In (n, sub) ds -> at_path sub names t' ->
    at_path (Dir fs ds) (n :: names) t'.

(** Neither directory is the other or lies inside it. *)
Definition separate (a b : string) : bool :=
  negb (pystr.startswith (slashed a) (slashed b))
  && negb (pystr.startswith (slashed b) (slashed a)).

Section FileEvents.
Variable resample : PIL.Image -> nat -> nat -> list Z.
Variable data_augmentation : nat -> np.ndarray -> np.ndarray.

(** The calls [process_file] makes for one directory entry, when [d] draws
    were made before, and how it ends. *)
Definition file_events (output_dir : string) (augmentation_factor : nat)
    (subdir : string) (entry : string * File) (d : nat)
    (evs : list event) (r : result unit) : Prop :=
  let file := fst entry in
  let label_dir := os_path.join output_dir [os_path.basename subdir] in
  if is_image_name file then
    match snd entry with
    | Undecodable =>
        evs = [EvOpen (os_path.join subdir [file])]
        /\ r = Raise UnidentifiedImageError
    | Truncated =>
        evs = [EvOpen (os_path.join subdir [file])]
        /\ r = Raise OSError
    | Picture img =>
        let plan := planned_saves data_augmentation label_dir file
                      (normalize resample img) augmentation_factor d in
        exists mk, (mk = [] \/ mk = [EvMkdir label_dir])
          /\ evs = EvOpen (os_path.join subdir [file]) :: mk ++ fst (run_saves plan)
          /\ r = snd (run_saves plan)
    end
  else evs = [] /\ r = Ok tt.

End FileEvents.

(** ** Sample inputs *)

Module Sample.
Import np PIL.

(** The pixel of [im] at row [r], column [c] (zeros outside the buffer). *)
Definition pixel_at (im : Image) (r c : nat) : list Z :=
  let b := bands (mode im) in
  firstn b (skipn ((r * width im + c) * b) (pixels im) ++ repeat 0%Z b).

(** Nearest-neighbour resampling. *)
Definition nearest (im : Image) (w h : nat) : list Z :=
  flat_map (fun r =>
    flat_map (fun c => pixel_at im (r * height im / h) (c * width im / w))
      (seq 0 w))
    (seq 0 h).

(** A stand-in for the augmentation layers: a contrast change that depends
    on the draw and keeps the shape. *)
Definition contrast (n : nat) (a : ndarray) : ndarray :=
  {| shape := shape a;
     dtype_of := float32;
     data := map (fun v => (v * Z.of_nat (8 + n mod 5) / 10)%Z) (data a) |}.

Definition gray : Image :=
  {| mode := M_L; width := 2; height := 2; pixels := [0; 3; 120; 255]%Z |}.

Definition gray_alpha : Image :=
  {| mode := M_LA; width := 1; height := 1; pixels := [200; 255]%Z |}.

Definition rgb : Image :=
  {| mode := M_RGB; width := 1; height := 2;
     pixels := [10; 20; 30; 40; 50; 60]%Z |}.

Definition rgba : Image :=
  {| mode := M_RGBA; width := 2; height := 1;
     pixels := [1; 2; 3; 255; 4; 5; 6; 128]%Z |}.

(** An image that is already 256x256 RGB. *)
Definition rgb256 : Image :=
  {| mode := M_RGB; width := 256; height := 256;
     pixels := repeat 7%Z (256 * 256 * 3) |}.

(** A source tree with files at three depths, two directories called
    [glioma], an upper-case extension and a file no decoder accepts. *)
Definition tree : Tree :=
  Dir [("top.png", Picture gray); ("notes.txt", Undecodable)]
      [("glioma", Dir [("img1.jpg", Picture gray); ("IMG2.JPG", Picture rgb)]
                      [("raw", Dir [("scan.jpeg", Picture rgba)] [])]);
       ("batch2", Dir [] [("glioma", Dir [("img1.jpg", Picture rgb)] [])])].

(** The same tree with a corrupt image in the middle of the walk. *)
Definition broken_tree : Tree :=
  Dir [("top.png", Picture gray)]
      [("glioma", Dir [("bad.png", Undecodable); ("img1.jpg", Picture gray)] [])].

Definition script_file : string :=
  "/home/user/tumor/training/data_augmente/data_augmente.py".

Definition empty_world : World :=
  {| saved := ∅; dirs := ∅; draws := 0; trace := [] |}.

End Sample.

(** ** The disk as the operating system sees it *)

(** [os.path.exists(p)] as a function of the world. *)
Definition path_exists (p : string) (w : World) : bool :=
  bool_decide (p ∈ dirs w) || bool_decide (is_Some (saved w !! p)).

(** A name as a directory holds it: a listing name other than [.] and
    [..]. *)
Definition entry_name (n : string) : bool :=
  name_ok n && negb (String.eqb n ".") && negb (String.eqb n "..").

(** [p] is an entry of one of the directories [D]. *)
Definition child_of (D : gset string) (p : string) : Prop :=
  exists d n, p = os_path.join d [n] /\ entry_name n = true /\ d ∈ D.

(** [feasible D F evs]: on a disk whose directories are [D] and whose regular
    files are [F], the operating system carries out every call of [evs] in
    turn the way the model has it.  [os.makedirs(p)] creates [p] and nothing
    else, without an exception, when [p] is an entry of an existing directory
    and neither a file nor a directory is at [p]; a save creates or replaces
    the file [p] when [p] is an entry of an existing directory and is not a
    directory itself.  Reading a source file changes nothing. *)
Fixpoint feasible (D F : gset string) (evs : list event) : Prop :=
  match evs with
  | [] => True
  | EvOpen _ :: evs' => feasible D F evs'
  | EvMkdir p :: evs' =>
      child_of D p /\ (p ∉ D) /\ (p ∉ F) /\ feasible ({[p]} ∪ D) F evs'
  | EvSave p _ :: evs' =>
      child_of D p /\ (p ∉ D) /\ feasible D ({[p]} ∪ F) evs'
  end.

(** The disk holds each path once, under the spelling the script forms by
    joining names: every directory and every file other than the root [/] is
    an entry of a directory of the disk, and no path is both a directory and
    a file. *)
Definition tidy_paths (D F : gset string) : Prop :=
  (forall p, p ∈ D \/ p ∈ F -> p = "/" \/ child_of D p)
  /\ (forall p, p ∈ D -> p ∉ F).

Definition tidy (w : World) : Prop := tidy_paths (dirs w) (dom (saved w)).

(** [p] is a directory, or can be made one by a single [mkdir]: no regular
    file is at [p], and [p] or its parent is a directory. *)
Definition creatable (w : World) (p : string) : Prop :=
  saved w !! p = None /\ (p ∈ dirs w \/ child_of (dirs w) p).

(** Nothing is in the way of the files [targets] in the directory
    [label_dir]: the directory is there or can be made, and none of the
    targets is a directory. *)
Definition usable (w : World) (label_dir : string) (targets : list string)
  : Prop :=
  creatable w label_dir /\ forall p, In p targets -> p ∉ dirs w.

(** The images a trace saves, in order. *)
Definition saved_images (evs : list event) : list PIL.Image :=
  flat_map (fun e => match e with EvSave _ im => [im] | _ => [] end) evs.

(** The paths lines 84 and 97 save to for one entry of the walk: none when
    the filter rejects the name. *)
Definition expected_saves (output_dir : string) (augmentation_factor : nat)
    (sf : string * (string * File)) : list string :=
  let label_dir := os_path.join output_dir [os_path.basename (fst sf)] in
  let file := fst (snd sf) in
  if is_image_name file
  then os_path.join label_dir [file]
         :: map (fun i => os_path.join label_dir [aug_name i file])
                (range augmentation_factor)
  else [].

(** An entry of the walk whose names the run can use: when the filter
    accepts the file, its directory has a proper last component (which the
    root lacks when [dataset_dir] ends in a separator or in a dot) and the
    file name is a listing name. *)
Definition labelled (sf : string * (string * File)) : bool :=
  if is_image_name (fst (snd sf))
  then entry_name (os_path.basename (fst sf)) && name_ok (fst (snd sf))
  else true.

(** The disk is ready for a run over the entries [flat]: it is tidy, the
    output directory is there or can be made by one [mkdir], and for every
    accepted entry no regular file is where its label directory has to be and
    no directory where one of its files is to be written. *)
Definition ready (w : World) (output_dir : string) (augmentation_factor : nat)
    (flat : list (string * (string * File))) : Prop :=
  tidy w
  /\ creatable w output_dir
  /\ forall sf, In sf flat -> is_image_name (fst (snd sf)) = true ->
       saved w !! os_path.join output_dir [os_path.basename (fst sf)] = None
       /\ forall p, In p (expected_saves output_dir augmentation_factor sf) ->
            p ∉ dirs w.

(** The same once the output directory is there. *)
Definition unblocked (w : World) (output_dir : string) (augmentation_factor : nat)
    (flat : list (string * (string * File))) : Prop :=
  output_dir ∈ dirs w
  /\ forall sf, In sf flat -> is_image_name (fst (snd sf)) = true ->
       saved w !! os_path.join output_dir [os_path.basename (fst sf)] = None
       /\ forall p, In p (expected_saves output_dir augmentation_factor sf) ->
            p ∉ dirs w.

(** A mode whose bands are 8-bit. *)
Definition eight_bit (m : PIL.Mode) : bool :=
  np.dtype_eqb (PIL.typestr m) np.uint8.

(** An entry the run gets through: a name the filter rejects, or a listing
    name with an extension [os.path.splitext] finds, over a decodable picture
    with 8-bit bands, a two-band picture only under a PNG name. *)
Definition processable (entry : string * File) : bool :=
  let file := fst entry in
  if is_image_name file then
    name_ok file
    && negb (String.eqb (os_path.splitext_ext file) "")
    && match snd entry with
       | Undecodable | Truncated => false
       | Picture img =>
           eight_bit (PIL.mode img)
           && (negb (PIL.mode_eqb (PIL.mode img) PIL.M_LA)
               || pystr.endswith file ".png")
       end
  else true.

Module MoreSamples.
Import np PIL.

(** A CMYK picture, as a JPEG can hold. *)
Definition cmyk : Image :=
  {| mode := M_CMYK; width := 1; height := 1; pixels := [10; 20; 30; 40]%Z |}.

(** A 1-bit mask, as a PNG can hold. *)
Definition bilevel : Image :=
  {| mode := M_1; width := 2; height := 1; pixels := [1; 0]%Z |}.

(** A tree in which no name passes the filter. *)
Definition no_images : Tree :=
  Dir [("notes.txt", Undecodable); ("IMG.JPG", Picture Sample.rgb)]
      [("glioma", Dir [("readme.md", Undecodable)] [])].

(** A disk on which the output directory exists and is empty. *)
Definition out_world : World :=
  {| saved := ∅; dirs := {["/"; "/out"]}; draws := 0; trace := [] |}.

(** A disk that holds the output of an earlier run. *)
Definition used_disk : World :=
  {| saved := {["/out/glioma/old.png" := Sample.rgb]};
     dirs := {["/"; "/out"; "/out/glioma"]};
     draws := 7;
     trace := [] |}.

(** A world in which the output of an earlier run is present. *)
Definition used_world : World :=
  {| saved := {["/out/glioma/old.png" := Sample.rgb]};
     dirs := {["/out"; "/out/glioma"]};
     draws := 7;
     trace := [] |}.

End MoreSamples.

(** * Properties *)

#[local] Arguments String.append !s1 s2 / : simpl nomatch.

(** ** The library models on small inputs *)

Example dirname_examples :
  os_path.dirname "/a/b/c.py" = "/a/b" /\ os_path.dirname "/a" = "/"
  /\ os_path.dirname "a/b//c" = "a/b" /\ os_path.dirname "c.py" = "".
Proof. repeat split. Qed.

Example basename_examples :
  os_path.basename "/data/base_data" = "base_data"
  /\ os_path.basename "/data/base_data/" = "" /\ os_path.basename "x" = "x".
Proof. repeat split. Qed.

Example join_examples :
  os_path.join "/a" ["data"; "base_data"] = "/a/data/base_data"
  /\ os_path.join "/a/" ["b"] = "/a/b" /\ os_path.join "" ["b"] = "b"
  /\ os_path.join "/a" ["/b"] = "/b".
Proof. repeat split. Qed.

Example splitext_examples :
  os_path.splitext_ext "/out/glioma/img1.jpg" = ".jpg"
  /\ os_path.splitext_ext "/out/gli.oma/img1" = ""
  /\ os_path.splitext_ext "/out/glioma/.png" = ""
  /\ os_path.splitext_ext "/out/glioma/aug_0_.png" = ".png".
Proof. repeat split. Qed.

Example endswith_examples :
  is_image_name "img1.jpg" = true /\ is_image_name "img1.jpeg" = true
  /\ is_image_name "a.b.png" = true /\ is_image_name "IMG2.JPG" = false
  /\ is_image_name "img.Png" = false /\ is_image_name "png" = false
  /\ is_image_name "notes.txt" = false.
Proof. repeat split. Qed.

Example aug_name_examples :
  aug_name 0 "img1.jpg" = "aug_0_img1.jpg"
  /\ aug_name 12 "img1.jpg" = "aug_12_img1.jpg".
Proof. repeat split. Qed.

Example walk_example :
  map (fun sf => os_path.join (fst sf) [fst (snd sf)])
      (flat_files (walk "/d" Sample.tree))
  = ["/d/top.png"; "/d/notes.txt"; "/d/glioma/img1.jpg"; "/d/glioma/IMG2.JPG";
     "/d/glioma/raw/scan.jpeg"; "/d/batch2/glioma/img1.jpg"].
Proof. reflexivity. Qed.

Example fromarray_examples :
  PIL.fromarray (np.mk_ndarray [1; 1; 3]%nat np.uint8 [1; 2; 3]%Z)
  = Ok (PIL.mk_Image PIL.M_RGB 1 1 [1; 2; 3]%Z)
  /\ PIL.fromarray (np.mk_ndarray [1; 1; 2]%nat np.uint8 [1; 2]%Z)
    = Ok (PIL.mk_Image PIL.M_LA 1 1 [1; 2]%Z)
  /\ PIL.fromarray (np.mk_ndarray [1; 1; 3]%nat np.bool_ [1; 1; 0]%Z)
    = Raise TypeError
  /\ PIL.fromarray (np.mk_ndarray [1; 1; 3]%nat np.int32 [1; 1; 0]%Z)
    = Raise TypeError.
Proof. repeat split. Qed.

Example where_example :
  np.data (np.where_lt 5 (np.mk_ndarray [6]%nat np.uint8 [0; 1; 4; 5; 6; 255]%Z))
  = [0; 0; 0; 5; 6; 255]%Z.
Proof. reflexivity. Qed.

(** ** Strings *)

Module pystr_facts.
Import pystr.

Lemma append_nil_r (s : string) : s +:+ "" = s.
Proof. induction s as [|a s IH]; simpl; [reflexivity | now rewrite IH]. Qed.

Lemma append_assoc (a b c : string) : (a +:+ b) +:+ c = a +:+ (b +:+ c).
Proof. induction a as [|x a IH]; simpl; [reflexivity | now rewrite IH]. Qed.

Lemma length_append (a b : string) :
  String.length (a +:+ b) = (String.length a + String.length b)%nat.
Proof. induction a as [|x a IH]; simpl; [reflexivity | now rewrite IH]. Qed.

(** Two decompositions of one string with suffixes of the same length agree. *)
Lemma append_inj_suffix (a b c d : string) :
  a +:+ c = b +:+ d -> String.length c = String.length d -> a = b /\ c = d.
Proof.
  revert b; induction a as [|x a IH]; intros [|y b] H L; simpl in H.
  - now split.
  - apply (f_equal String.length) in H; simpl in H.
    rewrite length_append in H; lia.
  - apply (f_equal String.length) in H; simpl in H.
    rewrite length_append in H; lia.
  - injection H as -> H. destruct (IH _ H L) as [-> ->]. now split.
Qed.

Lemma append_inj_r (a b c : string) : a +:+ c = b +:+ c -> a = b.
Proof. intros H. now destruct (append_inj_suffix a b c c H eq_refl). Qed.

Lemma append_inj_l (a c d : string) : a +:+ c = a +:+ d -> c = d.
Proof. induction a as [|x a IH]; simpl; intros H; [easy|]. injection H; auto. Qed.

Lemma endswith_unfold (s suf : string) :
  endswith s suf =
  String.eqb s suf
  || match s with
     | EmptyString => false
     | String _ s' => endswith s' suf
     end.
Proof. destruct s; reflexivity. Qed.

Lemma endswith_spec (s suf : string) :
  endswith s suf = true <-> exists stem, s = stem +:+ suf.
Proof.
  induction s as [|a s IH]; rewrite endswith_unfold.
  - rewrite orb_false_r, String.eqb_eq. split.
    + intros <-. now exists "".
    + intros [[|x stem] H]; simpl in H; [easy | discriminate].
  - rewrite orb_true_iff, String.eqb_eq, IH. split.
    + intros [<- | [stem ->]]; [now exists "" | now exists (String a stem)].
    + intros [[|x stem] H]; simpl in H; [now left|].
      injection H as -> ->. right. now exists stem.
Qed.

Lemma endswith_any_spec (s : string) (sufs : list string) :
  endswith_any s sufs = true <-> exists suf stem, In suf sufs /\ s = stem +:+ suf.
Proof.
  unfold endswith_any. rewrite existsb_exists. split.
  - intros (suf & Hin & H). apply endswith_spec in H as [stem ->]. eauto.
  - intros (suf & stem & Hin & ->). exists suf. split; [easy|].
    apply endswith_spec. eauto.
Qed.

Lemma endswith_false_append (s suf suf' : string) :
  String.length suf = String.length suf' -> suf <> suf' ->
  endswith (s +:+ suf') suf = false.
Proof.
  intros L N. apply not_true_is_false. intros H.
  apply endswith_spec in H as [stem H].
  apply append_inj_suffix in H as [_ H]; [congruence | easy].
Qed.

Lemma startswith_spec (s pre : string) :
  startswith s pre = true <-> exists rest, s = pre +:+ rest.
Proof.
  revert s; induction pre as [|a pre IH]; intros s; simpl.
  - split; [intros _; now exists s | easy].
  - destruct s as [|b s].
    + split; [easy | intros [r H]; discriminate].
    + rewrite andb_true_iff, Ascii.eqb_eq, IH. split.
      * intros [-> [r ->]]. now exists r.
      * intros [r H]. injection H as -> ->. split; [easy | now exists r].
Qed.

Lemma startswith_append (pre rest : string) : startswith (pre +:+ rest) pre = true.
Proof. apply startswith_spec. now exists rest. Qed.

Lemma contains_append (c : ascii) (a b : string) :
  contains c (a +:+ b) = contains c a || contains c b.
Proof.
  induction a as [|x a IH]; simpl; [reflexivity|].
  now rewrite IH, orb_assoc.
Qed.

Lemma startswith_sep_contains (c : ascii) (s : string) :
  contains c s = false -> startswith s (String c "") = false.
Proof.
  destruct s as [|a s]; simpl; [easy|].
  rewrite orb_false_iff. intros [H _]. rewrite Ascii.eqb_sym, H. reflexivity.
Qed.

Lemma rcut_append_id (c : ascii) (s : string) :
  fst (rcut c s) +:+ snd (rcut c s) = s.
Proof.
  induction s as [|a s IH]; simpl; [reflexivity|].
  destruct (rcut c s) as [[|h0 h] t]; simpl in *.
  - destruct (Ascii.eqb a c); simpl; now rewrite IH.
  - now rewrite IH.
Qed.

Lemma rcut_snd_clean (c : ascii) (s : string) :
  contains c (snd (rcut c s)) = false.
Proof.
  induction s as [|a s IH]; simpl; [reflexivity|].
  destruct (rcut c s) as [[|h0 h] t]; simpl in *; [|easy].
  destruct (Ascii.eqb a c) eqn:E; simpl; [easy|]. now rewrite E.
Qed.

Lemma rcut_fst_ends (c : ascii) (s : string) :
  fst (rcut c s) = "" \/ exists h, fst (rcut c s) = h +:+ String c "".
Proof.
  induction s as [|a s IH]; simpl; [now left|].
  destruct (rcut c s) as [[|h0 h] t]; simpl in *.
  - destruct (Ascii.eqb a c) eqn:E; simpl; [|now left].
    apply Ascii.eqb_eq in E as ->. right. now exists "".
  - right. destruct IH as [IH | [h' IH]]; [discriminate|].
    exists (String a h'). simpl. now rewrite IH.
Qed.

Lemma rcut_clean (c : ascii) (s : string) :
  contains c s = false -> rcut c s = ("", s).
Proof.
  induction s as [|a s IH]; simpl; [reflexivity|].
  rewrite orb_false_iff. intros [E H]. rewrite (IH H), E. reflexivity.
Qed.

Lemma rcut_append (c : ascii) (a n : string) :
  contains c n = false ->
  rcut c (a +:+ String c n) = (a +:+ String c "", n).
Proof.
  intros H. induction a as [|x a IH]; simpl.
  - rewrite (rcut_clean _ _ H), Ascii.eqb_refl. reflexivity.
  - rewrite IH. destruct a; reflexivity.
Qed.

Lemma all_char_append (c : ascii) (a b : string) :
  all_char c (a +:+ b) = all_char c a && all_char c b.
Proof.
  induction a as [|x a IH]; simpl; [reflexivity|].
  now rewrite IH, andb_assoc.
Qed.

(** A non-empty string that does not end with [c] is not made of [c] only. *)
Lemma all_char_endswith (c : ascii) (s : string) :
  s <> "" -> endswith s (String c "") = false -> all_char c s = false.
Proof.
  induction s as [|a s IH]; [easy|]. intros _. simpl.
  rewrite orb_false_iff. intros [E H].
  destruct s as [|b s].
  - simpl in *. destruct (Ascii.eqb a c); [discriminate | reflexivity].
  - rewrite IH; [apply andb_false_r | easy | easy].
Qed.

Lemma rstrip_append_sep (c : ascii) (s : string) :
  s <> "" -> endswith s (String c "") = false -> rstrip c (s +:+ String c "") = s.
Proof.
  induction s as [|a s IH]; [easy|]. intros _. simpl.
  rewrite orb_false_iff. intros [E H].
  destruct s as [|b s].
  - simpl in *. rewrite Ascii.eqb_refl.
    destruct (Ascii.eqb a c); [discriminate | reflexivity].
  - rewrite IH; [reflexivity | easy | easy].
Qed.

Lemma endswith_append_clean (c : ascii) (a n : string) :
  n <> "" -> contains c n = false -> endswith (a +:+ n) (String c "") = false.
Proof.
  revert a. induction n as [|x n IH]; intros a N H; [easy|].
  simpl in H. apply orb_false_iff in H as [Hx Hn].
  destruct n as [|y n].
  - apply not_true_is_false. intros E.
    apply endswith_spec in E as [stem E].
    apply append_inj_suffix in E as [_ E]; [|easy].
    injection E as ->. now rewrite Ascii.eqb_refl in Hx.
  - replace (a +:+ String x (String y n))
      with ((a +:+ String x "") +:+ String y n)
      by now rewrite append_assoc.
    now apply IH.
Qed.

End pystr_facts.

(** ** Paths *)

Module os_path_facts.
Import pystr pystr_facts os_path.

Lemma slashed_shape (p : string) :
  slashed p = "" \/ exists q, slashed p = q +:+ "/".
Proof.
  unfold slashed. destruct (String.eqb_spec p "") as [->|N]; simpl; [now left|].
  destruct (endswith p "/") eqn:E; [|right; now exists p].
  apply endswith_spec in E. now right.
Qed.

Lemma join2_relative (p b : string) :
  startswith b "/" = false -> join2 p b = slashed p +:+ b.
Proof.
  intros H. unfold join2, slashed. rewrite H.
  destruct (String.eqb p "" || endswith p "/"); [reflexivity|].
  now rewrite append_assoc.
Qed.

Lemma join_name (p n : string) :
  contains sep n = false -> join p [n] = slashed p +:+ n.
Proof.
  intros H. unfold join; simpl. apply join2_relative.
  now apply startswith_sep_contains.
Qed.

Lemma rcut_slashed (p n : string) :
  contains sep n = false -> rcut sep (slashed p +:+ n) = (slashed p, n).
Proof.
  intros H. destruct (slashed_shape p) as [-> | [q ->]].
  - now apply rcut_clean.
  - rewrite append_assoc. now apply rcut_append.
Qed.

Lemma basename_join (p n : string) :
  contains sep n = false -> basename (join p [n]) = n.
Proof.
  intros H. rewrite join_name by easy. unfold basename.
  now rewrite rcut_slashed.
Qed.

Lemma slashed_clean (p : string) :
  p <> "" -> endswith p "/" = false -> slashed p = p +:+ "/".
Proof.
  intros N E. unfold slashed. rewrite E.
  destruct (String.eqb_spec p ""); [easy | reflexivity].
Qed.

(** [dirname] of [P/n]: [P], or the root when [P] is empty. *)
Lemma dirname_child (P n : string) :
  endswith P "/" = false -> contains sep n = false ->
  dirname (P +:+ "/" +:+ n) = if String.eqb P "" then "/" else P.
Proof.
  intros E H. unfold dirname.
  change (P +:+ "/" +:+ n) with (P +:+ String sep n).
  rewrite rcut_append by easy. simpl fst.
  destruct (String.eqb_spec P "") as [->|N]; [reflexivity|].
  change (String sep "") with "/".
  assert (A : all_char sep (P +:+ "/") = false).
  { rewrite all_char_append. now rewrite (all_char_endswith sep P N E). }
  rewrite A.
  destruct (String.eqb_spec (P +:+ "/") "") as [Z|_].
  - destruct P; discriminate.
  - simpl. now apply rstrip_append_sep.
Qed.

End os_path_facts.

Section Resolver.
Import pystr pystr_facts os_path os_path_facts.

Lemma endswith_child (P n : string) :
  n <> "" -> contains sep n = false -> endswith (P +:+ "/" +:+ n) "/" = false.
Proof.
  intros N H. rewrite <- append_assoc. now apply endswith_append_clean.
Qed.

(** The directories of lines 25-28 for a script stored as [P/d/f]. *)
Lemma current_dir_spelled (P d f : string) :
  endswith P "/" = false -> d <> "" ->
  contains sep d = false -> contains sep f = false ->
  current_dir (P +:+ "/" +:+ d +:+ "/" +:+ f) = P +:+ "/" +:+ d.
Proof.
  intros E N Hd Hf. unfold current_dir.
  replace (P +:+ "/" +:+ d +:+ "/" +:+ f) with ((P +:+ "/" +:+ d) +:+ "/" +:+ f)
    by now rewrite !append_assoc.
  rewrite dirname_child; [| now apply endswith_child | easy].
  destruct (String.eqb_spec (P +:+ "/" +:+ d) "") as [Z|_]; [|reflexivity].
  destruct P; discriminate.
Qed.

Lemma parent_dir_spelled (P d f : string) :
  endswith P "/" = false -> d <> "" ->
  contains sep d = false -> contains sep f = false ->
  parent_dir (P +:+ "/" +:+ d +:+ "/" +:+ f)
  = if String.eqb P "" then "/" else P.
Proof.
  intros E N Hd Hf. unfold parent_dir.
  rewrite current_dir_spelled by assumption. now apply dirname_child.
Qed.

Lemma data_dir_spelled (P d f : string) :
  endswith P "/" = false -> d <> "" ->
  contains sep d = false -> contains sep f = false ->
  data_dir (P +:+ "/" +:+ d +:+ "/" +:+ f) = P +:+ "/data/base_data".
Proof.
  intros E N Hd Hf. unfold data_dir.
  rewrite parent_dir_spelled by assumption.
  destruct (String.eqb_spec P "") as [->|NP]; [reflexivity|].
  unfold join; simpl. rewrite !join2_relative by reflexivity.
  rewrite (slashed_clean P NP E).
  rewrite (slashed_clean ((P +:+ "/") +:+ "data")).
  - now rewrite !append_assoc.
  - destruct P; discriminate.
  - rewrite append_assoc. now apply (endswith_child P "data").
Qed.

Lemma output_dir_spelled (P d f : string) :
  endswith P "/" = false -> d <> "" ->
  contains sep d = false -> contains sep f = false ->
  output_dir (P +:+ "/" +:+ d +:+ "/" +:+ f) = P +:+ "/data/data_augmente_data".
Proof.
  intros E N Hd Hf. unfold output_dir.
  rewrite data_dir_spelled by assumption.
  change (P +:+ "/data/base_data") with (P +:+ "/" +:+ "data" +:+ "/" +:+ "base_data").
  replace (P +:+ "/" +:+ "data" +:+ "/" +:+ "base_data")
    with ((P +:+ "/" +:+ "data") +:+ "/" +:+ "base_data")
    by now rewrite !append_assoc.
  rewrite dirname_child; [| now apply endswith_child | reflexivity].
  destruct (String.eqb_spec (P +:+ "/" +:+ "data") "") as [Z|NZ].
  { destruct P; discriminate. }
  rewrite join_name by reflexivity.
  rewrite slashed_clean; [| easy | now apply endswith_child].
  now rewrite !append_assoc.
Qed.

(** C4, as the code has it: for a script stored as [P/d/f], the input
    directory is [P/data/base_data] and the output directory is its sibling
    [P/data/data_augmente_data], inside [P/data] and not directly in [P]. *)
Theorem resolver_paths (P d f : string) :
  endswith P "/" = false -> d <> "" ->
  contains sep d = false -> contains sep f = false ->
  let script_file := P +:+ "/" +:+ d +:+ "/" +:+ f in
  parent_dir script_file = (if String.eqb P "" then "/" else P)
  /\ data_dir script_file = join (parent_dir script_file) ["data"; "base_data"]
  /\ data_dir script_file = P +:+ "/data/base_data"
  /\ output_dir script_file
     = join (dirname (data_dir script_file)) ["data_augmente_data"]
  /\ output_dir script_file = P +:+ "/data/data_augmente_data"
  /\ dirname (output_dir script_file) = dirname (data_dir script_file).
Proof.
  intros E N Hd Hf script_file. subst script_file.
  split; [now apply parent_dir_spelled|].
  split; [reflexivity|].
  split; [now apply data_dir_spelled|].
  split; [reflexivity|].
  split; [now apply output_dir_spelled|].
  rewrite output_dir_spelled, data_dir_spelled by assumption.
  assert (D : forall n, n <> "" -> contains sep n = false ->
            dirname (P +:+ "/data/" +:+ n) = P +:+ "/data").
  { intros n Nn Cn.
    replace (P +:+ "/data/" +:+ n) with ((P +:+ "/" +:+ "data") +:+ "/" +:+ n)
      by now rewrite !append_assoc.
    rewrite dirname_child; [| now apply endswith_child | exact Cn].
    destruct (String.eqb_spec (P +:+ "/" +:+ "data") "") as [Z|_]; [|reflexivity].
    destruct P; discriminate. }
  change (P +:+ "/data/data_augmente_data")
    with (P +:+ "/data/" +:+ "data_augmente_data").
  change (P +:+ "/data/base_data") with (P +:+ "/data/" +:+ "base_data").
  rewrite !D by (try discriminate; reflexivity). reflexivity.
Qed.

(** The theorem applies to the location the script has in the repository. *)
Lemma resolver_paths_witness :
  data_dir "/home/user/tumor/training/data_augmente/data_augmente.py"
    = "/home/user/tumor/training/data/base_data"
  /\ output_dir "/home/user/tumor/training/data_augmente/data_augmente.py"
    = "/home/user/tumor/training/data/data_augmente_data".
Proof.
  pose proof (resolver_paths "/home/user/tumor/training" "data_augmente"
                "data_augmente.py" eq_refl ltac:(discriminate) eq_refl eq_refl)
    as (_ & _ & H1 & _ & H2 & _).
  split; [exact H1 | exact H2].
Defined.

(** C4, as the claim words it, fails: no directory [repo] has the input
    under [repo/data/base_data] and the output under
    [repo/data_augmente_data]. *)
Lemma resolver_not_repo_root :
  ~ exists repo,
      data_dir "/home/user/tumor/training/data_augmente/data_augmente.py"
        = join repo ["data"; "base_data"]
      /\ output_dir "/home/user/tumor/training/data_augmente/data_augmente.py"
        = join repo ["data_augmente_data"].
Proof.
  intros (repo & H1 & H2).
  change (data_dir _) with "/home/user/tumor/training/data/base_data" in H1.
  change (output_dir _)
    with ("/home/user/tumor/training/data/" +:+ "data_augmente_data") in H2.
  unfold join in H2; simpl in H2. unfold join2 in H2; simpl in H2.
  destruct (String.eqb repo "" || endswith repo "/").
  - apply (append_inj_r "/home/user/tumor/training/data/" repo
             "data_augmente_data") in H2.
    subst repo. vm_compute in H1. discriminate.
  - apply (append_inj_r "/home/user/tumor/training/data" repo
             "/data_augmente_data") in H2.
    subst repo. vm_compute in H1. discriminate.
Qed.

End Resolver.

(** ** The run as a trace of calls *)

#[local] Arguments os_path.join : simpl never.
#[local] Arguments IMAGE_SIZE : simpl never.

Lemma replay_app (e1 e2 : list event) (m : gmap string PIL.Image) :
  replay (e1 ++ e2) m = replay e2 (replay e1 m).
Proof. unfold replay. apply fold_left_app. Qed.

Lemma made_dirs_app (e1 e2 : list event) :
  made_dirs (e1 ++ e2) = made_dirs e1 ++ made_dirs e2.
Proof. unfold made_dirs. apply flat_map_app. Qed.

Lemma saved_paths_app (e1 e2 : list event) :
  saved_paths (e1 ++ e2) = saved_paths e1 ++ saved_paths e2.
Proof. unfold saved_paths. apply flat_map_app. Qed.

Lemma opened_paths_app (e1 e2 : list event) :
  opened_paths (e1 ++ e2) = opened_paths e1 ++ opened_paths e2.
Proof. unfold opened_paths. apply flat_map_app. Qed.

Lemma advances_refl (w : World) : advances w w [].
Proof.
  unfold advances. rewrite app_nil_r. simpl. repeat split.
  set_solver.
Qed.

Lemma advances_trans (w1 w2 w3 : World) (e1 e2 : list event) :
  advances w1 w2 e1 -> advances w2 w3 e2 -> advances w1 w3 (e1 ++ e2).
Proof.
  intros (T1 & S1 & D1) (T2 & S2 & D2). unfold advances.
  rewrite T2, T1, S2, S1, D2, D1, replay_app, made_dirs_app, app_assoc.
  repeat split. rewrite list_to_set_app_L. set_solver.
Qed.

Lemma create_dir_advances (p : string) (w : World) :
  exists w' mk, create_dir p w = (w', Ok tt)
    /\ (mk = [] \/ mk = [EvMkdir p])
    /\ advances w w' mk /\ draws w' = draws w.
Proof.
  unfold create_dir, bind, os_path_exists.
  destruct (bool_decide (p ∈ dirs w) || bool_decide (is_Some (saved w !! p))); simpl.
  - exists w, []. split; [reflexivity|]. split; [now left|].
    split; [apply advances_refl | reflexivity].
  - eexists _, [EvMkdir p]. split; [reflexivity|]. split; [now right|].
    split; [|reflexivity]. unfold advances; simpl. repeat split. set_solver.
Qed.

Lemma Image_save_result (im0 : PIL.Image) (a : np.ndarray) (p : string) (w : World) :
  PIL.fromarray a = Ok im0 ->
  exists w', Image_save im0 p w
             = (w', match save_result p a with Ok _ => Ok tt | Raise e => Raise e end)
    /\ advances w w' (match save_result p a with
                      | Ok im => [EvSave p im]
                      | Raise _ => []
                      end)
    /\ draws w' = draws w.
Proof.
  intros F. unfold Image_save, save_result. rewrite F.
  destruct (PIL.EXTENSION _) as [f|].
  - destruct (PIL.can_write f (PIL.mode im0)).
    + eexists. split; [reflexivity|]. split; [|reflexivity].
      unfold advances; simpl. repeat split. set_solver.
    + exists w. split; [reflexivity|]. split; [apply advances_refl | reflexivity].
  - exists w. split; [reflexivity|]. split; [apply advances_refl | reflexivity].
Qed.

Section RunFacts.
Variable resample : PIL.Image -> nat -> nat -> list Z.
Variable data_augmentation : nat -> np.ndarray -> np.ndarray.

Abbreviation process_file := (process_file resample data_augmentation).
Abbreviation aug_plan := (aug_plan data_augmentation).
Abbreviation planned_saves := (planned_saves data_augmentation).
Abbreviation file_events := (file_events resample data_augmentation).

(** One attempt: [fromarray] then [save]. *)
Lemma attempt_advances (a : np.ndarray) (p : string) (w : World) :
  exists w',
    (im <- Image_fromarray a ;; Image_save im p) w
    = (w', match save_result p a with Ok _ => Ok tt | Raise e => Raise e end)
    /\ advances w w' (match save_result p a with
                      | Ok im => [EvSave p im]
                      | Raise _ => []
                      end)
    /\ draws w' = draws w.
Proof.
  unfold bind, Image_fromarray.
  destruct (PIL.fromarray a) as [im0|e] eqn:F.
  - unfold ret. apply Image_save_result. exact F.
  - exists w. unfold raise, save_result. rewrite F.
    split; [reflexivity|]. split; [apply advances_refl | reflexivity].
Qed.

(** The loop of lines 87-97. *)
Lemma aug_loop_advances (label_dir file : string) (img_array : np.ndarray)
    (n i : nat) (w : World) :
  exists w',
    for_each (seq i n) (fun i =>
      augmented_img <- augment data_augmentation img_array ;;
      augmented_img_pil <- Image_fromarray augmented_img ;;
      Image_save augmented_img_pil
        (os_path.join label_dir [aug_name i file])) w
    = (w', snd (run_saves (aug_plan label_dir file img_array n i (draws w))))
    /\ advances w w'
         (fst (run_saves (aug_plan label_dir file img_array n i (draws w)))).
Proof.
  revert i w. induction n as [|n IH]; intros i w.
  - exists w. split; [reflexivity | apply advances_refl].
  - simpl seq. simpl for_each. simpl aug_plan. simpl run_saves.
    unfold bind at 1. unfold bind at 1. unfold augment at 1.
    set (w0 := {| saved := saved w; dirs := dirs w; draws := S (draws w);
                  trace := trace w |}).
    destruct (attempt_advances (augmented data_augmentation (draws w) img_array)
                (os_path.join label_dir [aug_name i file]) w0)
      as (w1 & E1 & A1 & D1).
    rewrite E1.
    assert (A0 : forall evs, advances w0 w1 evs -> advances w w1 evs)
      by (intros evs H; exact H).
    destruct (save_result _ _) as [im|e].
    + destruct (IH (S i) w1) as (w2 & E2 & A2).
      rewrite D1 in E2, A2. simpl in E2, A2.
      exists w2. split; [exact E2|].
      apply (advances_trans w w1 w2 [EvSave _ im]); [now apply A0 | exact A2].
    + exists w1. split; [reflexivity | now apply A0].
Qed.

(** What [process_file] does to the world, for any directory entry. *)
Lemma process_file_advances (output_dir : string) (augmentation_factor : nat)
    (subdir : string) (entry : string * File) (w : World) :
  exists w' evs r,
    process_file output_dir augmentation_factor subdir entry w = (w', r)
    /\ advances w w' evs
    /\ file_events output_dir augmentation_factor subdir entry (draws w) evs r.
Proof.
  unfold process_file, file_events, is_image_name.
  destruct (pystr.endswith_any (fst entry) _).
  2:{ exists w, [], (Ok tt). split; [reflexivity|].
      split; [apply advances_refl | now split]. }
  unfold bind at 1. unfold Image_open, bind at 1, log.
  set (w0 := {| saved := saved w; dirs := dirs w; draws := draws w;
                trace := trace w ++ [EvOpen (os_path.join subdir [fst entry])] |}).
  assert (A0 : advances w w0 [EvOpen (os_path.join subdir [fst entry])]).
  { unfold advances; simpl. repeat split. set_solver. }
  destruct (snd entry) as [| |img].
  { exists w0, [EvOpen (os_path.join subdir [fst entry])], (Raise UnidentifiedImageError).
    split; [reflexivity|]. split; [exact A0 | now split]. }
  { exists w0, [EvOpen (os_path.join subdir [fst entry])], (Raise OSError).
    split; [reflexivity|]. split; [exact A0 | now split]. }
  unfold ret at 1. unfold bind at 1.
  set (label_dir := os_path.join output_dir [os_path.basename subdir]).
  destruct (create_dir_advances label_dir w0) as (w1 & mk & E1 & Hmk & A1 & D1).
  rewrite E1.
  set (arr := normalize resample img).
  unfold planned_saves. simpl run_saves.
  assert (A01 : advances w w1 (EvOpen (os_path.join subdir [fst entry]) :: mk))
    by apply (advances_trans w w0 w1 [EvOpen _] mk A0 A1).
  assert (Dw : draws w1 = draws w) by (rewrite D1; reflexivity).
  unfold bind at 1. unfold Image_fromarray.
  destruct (PIL.fromarray arr) as [im0|e] eqn:F.
  - unfold ret at 1. unfold bind at 1.
    destruct (Image_save_result im0 arr (os_path.join label_dir [fst entry]) w1 F)
      as (w2 & E2 & A2 & D2).
    rewrite E2.
    destruct (save_result (os_path.join label_dir [fst entry]) arr) as [im|e].
    + destruct (aug_loop_advances label_dir (fst entry) arr
                  augmentation_factor 0 w2) as (w3 & E3 & A3).
      rewrite D2, Dw in E3, A3.
      exists w3. eexists. eexists. split; [exact E3|]. split.
      * apply (advances_trans w w2 w3 _ _
                 (advances_trans w w1 w2 _ _ A01 A2) A3).
      * exists mk. split; [exact Hmk|]. split; [|reflexivity].
        simpl. now rewrite <- !app_assoc.
    + exists w2. eexists. eexists. split; [reflexivity|]. split.
      * apply (advances_trans w w1 w2 _ _ A01 A2).
      * exists mk. split; [exact Hmk|]. split; [|reflexivity].
        simpl. reflexivity.
  - exists w1. eexists. eexists. split; [reflexivity|]. split.
    + exact A01.
    + exists mk. split; [exact Hmk|].
      unfold save_result. rewrite F. simpl. rewrite app_nil_r. now split.
Qed.

End RunFacts.

(** ** Loops *)

Lemma for_each_cases {A} (body : A -> M unit) (xs : list A) (w : World) :
  (exists w', for_each xs body w = (w', Ok tt) /\ chain body xs w w')
  \/ (exists pre x post w1 w2 e,
        xs = pre ++ x :: post /\ chain body pre w w1
        /\ body x w1 = (w2, Raise e)
        /\ for_each xs body w = (w2, Raise e)).
Proof.
  revert w. induction xs as [|x xs IH]; intros w.
  - left. exists w. split; [reflexivity | constructor].
  - simpl. unfold bind. destruct (body x w) as [w1 [[]|e]] eqn:E.
    + destruct (IH w1) as [(w' & R & C) | (pre & y & post & wa & wb & e & -> & C & B & R)].
      * left. exists w'. split; [exact R | econstructor; eauto].
      * right. exists (x :: pre), y, post, wa, wb, e.
        split; [reflexivity|]. split; [econstructor; eauto|]. now split.
    + right. exists [], x, xs, w, w1, e.
      split; [reflexivity|]. split; [constructor|]. now split.
Qed.

Lemma for_each_app {A} (body : A -> M unit) (xs ys : list A) (w : World) :
  for_each (xs ++ ys) body w = (for_each xs body ;;; for_each ys body) w.
Proof.
  revert w. induction xs as [|x xs IH]; intros w; simpl.
  - reflexivity.
  - unfold bind. destruct (body x w) as [w1 [[]|e]]; [|reflexivity].
    rewrite IH. reflexivity.
Qed.

Lemma for_each_map {A B} (g : A -> B) (body : B -> M unit) (xs : list A) (w : World) :
  for_each (map g xs) body w = for_each xs (fun x => body (g x)) w.
Proof.
  revert w. induction xs as [|x xs IH]; intros w; simpl; [reflexivity|].
  unfold bind. destruct (body (g x) w) as [w1 [[]|e]]; [apply IH | reflexivity].
Qed.

(** The two nested loops of lines 59-60 are one loop over the files of the
    walk. *)
Lemma for_each_flat (f : string -> string * File -> M unit)
    (items : list (string * list string * list (string * File))) (w : World) :
  for_each items (fun '(subdir, _, files) => for_each files (f subdir)) w
  = for_each (flat_files items) (fun sf => f (fst sf) (snd sf)) w.
Proof.
  revert w. induction items as [|[[subdir ds] files] items IH]; intros w.
  - reflexivity.
  - simpl. rewrite for_each_app. unfold bind.
    rewrite for_each_map. simpl.
    change (for_each files (fun x => f subdir x) w)
      with (for_each files (f subdir) w).
    destruct (for_each files (f subdir) w) as [w1 [[]|e]];
      [apply IH | reflexivity].
Qed.

Lemma chain_app {A} (body : A -> M unit) (xs ys : list A) (w w1 w2 : World) :
  chain body xs w w1 -> chain body ys w1 w2 -> chain body (xs ++ ys) w w2.
Proof.
  induction 1 as [|x xs w wa wb B C IH]; intros H; simpl; [exact H|].
  econstructor; eauto.
Qed.

Lemma chain_for_each {A} (body : A -> M unit) (xs : list A) (w w' : World) :
  chain body xs w w' -> for_each xs body w = (w', Ok tt).
Proof.
  induction 1 as [|x xs w wa wb B C IH]; simpl; [reflexivity|].
  unfold bind. now rewrite B.
Qed.

(** A loop that does not raise advances the world by the concatenation of
    what its iterations do. *)
Lemma chain_advances {A} (body : A -> M unit)
    (Q : A -> list event -> result unit -> Prop) :
  (forall x w, exists w' evs r,
      body x w = (w', r) /\ advances w w' evs /\ Q x evs r) ->
  forall xs w w', chain body xs w w' ->
  exists evss, advances w w' (concat evss)
    /\ Forall2 (fun x evs => Q x evs (Ok tt)) xs evss.
Proof.
  intros H xs w w'. induction 1 as [|x xs w wa wb B C IH].
  - exists []. split; [apply advances_refl | constructor].
  - destruct (H x w) as (w1 & evs & r & E & Ad & HQ).
    rewrite B in E. injection E as <- <-.
    destruct IH as (evss & Ad' & F).
    exists (evs :: evss). split.
    + simpl. eapply advances_trans; eauto.
    + now constructor.
Qed.

(** ** Normalization (lines 64-78) *)

Section NormalizeFacts.
Import np PIL.
Variable resample : Image -> nat -> nat -> list Z.

Lemma resize_mode (im : Image) (w h : nat) : mode (resize resample im w h) = mode im.
Proof. unfold resize. now destruct (_ && _). Qed.

Lemma resize_width (im : Image) (w h : nat) : width (resize resample im w h) = w.
Proof.
  unfold resize. destruct (Nat.eqb (width im) w && Nat.eqb (height im) h) eqn:E;
    [|reflexivity].
  apply andb_true_iff in E as [E _]. now apply Nat.eqb_eq in E.
Qed.

Lemma resize_height (im : Image) (w h : nat) : height (resize resample im w h) = h.
Proof.
  unfold resize. destruct (Nat.eqb (width im) w && Nat.eqb (height im) h) eqn:E;
    [|reflexivity].
  apply andb_true_iff in E as [_ E]. now apply Nat.eqb_eq in E.
Qed.

(** [resize] to the size the image already has returns the image. *)
Lemma resize_same (im : Image) : resize resample im (width im) (height im) = im.
Proof. unfold resize. now rewrite !Nat.eqb_refl. Qed.

Lemma normalize_shape (img : Image) :
  shape (normalize resample img)
  = [IMAGE_SIZE; IMAGE_SIZE; channels_after (mode img)].
Proof.
  unfold normalize.
  pose proof (resize_mode img IMAGE_SIZE IMAGE_SIZE) as Hm.
  pose proof (resize_width img IMAGE_SIZE IMAGE_SIZE) as Hw.
  pose proof (resize_height img IMAGE_SIZE IMAGE_SIZE) as Hh.
  destruct (resize resample img IMAGE_SIZE IMAGE_SIZE) as [m w h px].
  simpl in Hm, Hw, Hh. subst m w h.
  destruct (mode img); reflexivity.
Qed.

Lemma normalize_dtype (img : Image) :
  dtype_of (normalize resample img) = typestr (mode img).
Proof.
  unfold normalize.
  pose proof (resize_mode img IMAGE_SIZE IMAGE_SIZE) as Hm.
  destruct (resize resample img IMAGE_SIZE IMAGE_SIZE) as [m w h px].
  simpl in Hm. subst m.
  destruct (mode img); reflexivity.
Qed.

End NormalizeFacts.

(** ** Arrays *)

Module np_facts.
Import np.

Lemma nth_flat_map_triple (l : list Z) (i k : nat) (d : Z) :
  (k < 3)%nat -> nth (i * 3 + k) (flat_map triple l) d = nth i l d.
Proof.
  intros Hk. revert i. induction l as [|v l IH]; intros i.
  - simpl. now destruct (i * 3 + k)%nat, i.
  - destruct i as [|i].
    + simpl. destruct k as [|[|[|k]]]; [reflexivity.. | lia].
    + replace (S i * 3 + k)%nat with (3 + (i * 3 + k))%nat by lia.
      simpl. apply IH.
Qed.

Lemma nth_first3_chunks (n : nat) (l : list Z) (i k : nat) (d : Z) :
  (i < n)%nat -> (k < 3)%nat -> (n * 4 <= length l)%nat ->
  nth (i * 3 + k) (flat_map (firstn 3) (chunks_of n 4 l)) d = nth (i * 4 + k) l d.
Proof.
  revert l i. induction n as [|n IH]; intros l i Hi Hk Hl; [lia|].
  destruct l as [|a [|b [|c [|e l]]]]; simpl in Hl; try lia.
  destruct i as [|i].
  - simpl. destruct k as [|[|[|k]]]; [reflexivity.. | lia].
  - replace (S i * 3 + k)%nat with (3 + (i * 3 + k))%nat by lia.
    replace (S i * 4 + k)%nat with (4 + (i * 4 + k))%nat by lia.
    simpl. apply IH; lia.
Qed.

Lemma where_lt_not_dark (a : ndarray) : Forall not_dark (data (where_lt 5 a)).
Proof.
  unfold where_lt; simpl. apply List.Forall_forall. intros v Hv.
  apply in_map_iff in Hv as (u & <- & _).
  unfold not_dark. destruct (Z.ltb_spec u 5); [now left | now right].
Qed.

Lemma where_lt_nth (a : ndarray) (i : nat) :
  nth i (data (where_lt 5 a)) 0%Z
  = if (nth i (data a) 0 <? 5)%Z then 0%Z else nth i (data a) 0%Z.
Proof.
  unfold where_lt; simpl.
  exact (map_nth (fun v : Z => if (v <? 5)%Z then 0%Z else v) (data a) 0%Z i).
Qed.

End np_facts.

Module PIL_facts.
Import np PIL.

Lemma fromarray_pixels (a : ndarray) (im : Image) :
  fromarray a = Ok im -> pixels im = data a.
Proof.
  unfold fromarray. destruct (fromarray_mode _ _); [|discriminate].
  destruct (shape a) as [|h [|w s]]; [discriminate | |];
    intros H; injection H as <-; reflexivity.
Qed.

Lemma fromarray_array (a : ndarray) (im : Image) :
  fromarray a = Ok im -> (2 <= length (shape a))%nat -> array im = a.
Proof.
  unfold fromarray. destruct a as [s t d]; simpl.
  destruct s as [|h [|w s]]; simpl; [lia | lia |]. intros H _.
  destruct s as [|c [|c' s]]; simpl in H.
  - destruct t; injection H as <-; reflexivity.
  - destruct c as [|[|[|[|[|c]]]]]; try discriminate;
      destruct t; try discriminate; injection H as <-; reflexivity.
  - destruct c as [|[|[|[|[|c]]]]]; destruct t; discriminate.
Qed.

Lemma save_result_fromarray (p : string) (a : ndarray) (im : Image) :
  save_result p a = Ok im -> fromarray a = Ok im.
Proof.
  unfold save_result. destruct (fromarray a) as [im0|]; [|discriminate].
  destruct (EXTENSION _); [|discriminate].
  destruct (can_write _ _); [|discriminate]. congruence.
Qed.

End PIL_facts.

(** ** The saves of one file *)

Lemma run_saves_In (plan : list (string * np.ndarray)) (e : event) :
  In e (fst (run_saves plan)) ->
  exists p a im, e = EvSave p im /\ In (p, a) plan /\ save_result p a = Ok im.
Proof.
  induction plan as [|[p a] plan IH]; simpl; [easy|].
  destruct (save_result p a) as [im|] eqn:E; simpl; [|easy].
  intros [<- | H].
  - exists p, a, im. auto.
  - destruct (IH H) as (p' & a' & im' & -> & Hin & R). exists p', a', im'. auto.
Qed.

Lemma run_saves_paths (plan : list (string * np.ndarray)) :
  exists rest,
    map fst plan = saved_paths (fst (run_saves plan)) ++ rest
    /\ (snd (run_saves plan) = Ok tt -> rest = []).
Proof.
  induction plan as [|[p a] plan IH]; simpl.
  - exists []. now split.
  - destruct (save_result p a) as [im|e]; simpl.
    + destruct IH as (rest & -> & H). exists rest. now split.
    + exists (p :: map fst plan). now split.
Qed.

Lemma run_saves_ok (plan : list (string * np.ndarray)) :
  (forall p a, In (p, a) plan -> exists im, save_result p a = Ok im) ->
  snd (run_saves plan) = Ok tt.
Proof.
  induction plan as [|[p a] plan IH]; intros H; simpl; [reflexivity|].
  destruct (H p a (or_introl eq_refl)) as [im ->]. simpl.
  apply IH. intros q b Hin. apply H. now right.
Qed.

Lemma run_saves_no_dirs (plan : list (string * np.ndarray)) :
  made_dirs (fst (run_saves plan)) = [] /\ opened_paths (fst (run_saves plan)) = [].
Proof.
  induction plan as [|[p a] plan IH]; simpl; [easy|].
  now destruct (save_result p a).
Qed.

Section PlanFacts.
Variable data_augmentation : nat -> np.ndarray -> np.ndarray.

Lemma aug_plan_In (label_dir file : string) (arr : np.ndarray)
    (n i d : nat) (p : string) (a : np.ndarray) :
  In (p, a) (aug_plan data_augmentation label_dir file arr n i d) ->
  exists k, (k < n)%nat
    /\ p = os_path.join label_dir [aug_name (i + k) file]
    /\ a = augmented data_augmentation (d + k) arr.
Proof.
  revert i d. induction n as [|n IH]; intros i d; simpl; [easy|].
  intros [H | H].
  - injection H as <- <-. exists 0%nat. rewrite !Nat.add_0_r.
    split; [lia | now split].
  - destruct (IH _ _ H) as (k & Hk & -> & ->). exists (S k).
    rewrite !Nat.add_succ_r. split; [lia | now split].
Qed.

Lemma aug_plan_paths (label_dir file : string) (arr : np.ndarray) (n i d : nat) :
  map fst (aug_plan data_augmentation label_dir file arr n i d)
  = map (fun j => os_path.join label_dir [aug_name j file]) (seq i n).
Proof.
  revert i d. induction n as [|n IH]; intros i d; simpl; [reflexivity|].
  now rewrite IH.
Qed.

End PlanFacts.

(** ** Claims about single images *)

Section ImageClaims.
Import np PIL np_facts PIL_facts.
Variable resample : Image -> nat -> nat -> list Z.
Variable data_augmentation : nat -> ndarray -> ndarray.

(** C3: in every augmented copy [process_file] saves, no pixel lies strictly
    between 0 and 5: the copy is the 8-bit output of the augmentation layers
    with every value below 5 replaced by 0 and every other value kept. *)
Theorem augmented_copies_not_dark (output_dir : string)
    (augmentation_factor : nat) (subdir file : string) (img : Image) (w : World) :
  exists w' r evs,
    process_file resample data_augmentation output_dir augmentation_factor
      subdir (file, Picture img) w = (w', r)
    /\ advances w w' evs
    /\ forall p im,
         In (EvSave p im) evs ->
         p <> os_path.join (os_path.join output_dir [os_path.basename subdir]) [file] ->
         Forall not_dark (pixels im)
         /\ exists n,
              let cast := astype_uint8 (squeeze (data_augmentation n
                            (expand_dims0 (normalize resample img)))) in
              dtype_of cast = uint8
              /\ length (pixels im) = length (data cast)
              /\ forall i, nth i (pixels im) 0%Z
                           = if (nth i (data cast) 0 <? 5)%Z then 0%Z
                             else nth i (data cast) 0%Z.
Proof.
  destruct (process_file_advances resample data_augmentation output_dir
              augmentation_factor subdir (file, Picture img) w)
    as (w' & evs & r & E & A & FE).
  exists w', r, evs. split; [exact E|]. split; [exact A|].
  intros p im Hin Hp. unfold file_events in FE. cbn [fst snd] in FE.
  destruct (is_image_name file).
  2:{ destruct FE as [-> _]. destruct Hin. }
  destruct FE as (mk & Hmk & -> & _).
  destruct Hin as [Hin | Hin]; [discriminate|].
  apply in_app_or in Hin as [Hin | Hin].
  { destruct Hmk as [-> | ->]; [destruct Hin|].
    destruct Hin as [Hin | []]. discriminate. }
  apply run_saves_In in Hin as (p' & a & im' & Heq & Hplan & R).
  injection Heq as <- <-.
  destruct Hplan as [Hplan | Hplan].
  { injection Hplan as Hp' _. now symmetry in Hp'. }
  apply aug_plan_In in Hplan as (k & _ & _ & ->).
  apply save_result_fromarray, fromarray_pixels in R. rewrite R.
  split; [apply where_lt_not_dark|].
  exists (draws w + k)%nat. cbv zeta. split; [reflexivity|]. split.
  - unfold augmented, where_lt; simpl. now rewrite !length_map.
  - intros i. unfold augmented. apply where_lt_nth.
Qed.

(** C5 at a gray+alpha picture: the resize keeps the mode, [convert] is not
    called, and none of the branches of lines 73-78 applies to a last axis of
    length 2, so the array is that of the resized picture with its two
    channels, which [Image.fromarray] reads as an "LA" image.  This is the
    defect of C1, seen on the array. *)
Theorem two_band_input_not_coerced (img : Image) :
  mode img = M_LA ->
  normalize resample img = array (resize resample img IMAGE_SIZE IMAGE_SIZE)
  /\ shape (normalize resample img) = [IMAGE_SIZE; IMAGE_SIZE; 2%nat]
  /\ dtype_of (normalize resample img) = uint8
  /\ fromarray_mode (skipn 2 (shape (normalize resample img)))
       (dtype_of (normalize resample img)) = Some M_LA.
Proof.
  intros HM. unfold normalize.
  pose proof (resize_mode resample img IMAGE_SIZE IMAGE_SIZE) as Hm.
  pose proof (resize_width resample img IMAGE_SIZE IMAGE_SIZE) as Hw.
  pose proof (resize_height resample img IMAGE_SIZE IMAGE_SIZE) as Hh.
  destruct (resize resample img IMAGE_SIZE IMAGE_SIZE) as [m wd ht px].
  cbn [mode width height] in Hm, Hw, Hh. subst m wd ht. rewrite HM.
  split; [reflexivity|]. split; [reflexivity|]. split; reflexivity.
Qed.

(** What does hold for C5: a one-band image comes out with three channels
    equal to its gray channel; an RGBA image comes out as its first three
    channels, without alpha.  "Its" channels are those of the image resized
    to 256x256, which for an image of that size is the image itself. *)
Lemma channel_coercion (img : Image) :
  wf_image img ->
  (forall im w h, length (resample im w h) = (h * w * bands (mode im))%nat) ->
  let resized := array (resize resample img IMAGE_SIZE IMAGE_SIZE) in
  (bands (mode img) = 1%nat ->
     shape (normalize resample img) = [IMAGE_SIZE; IMAGE_SIZE; 3%nat]
     /\ forall r c k, (k < 3)%nat ->
          get3 (normalize resample img) r c k = get2 resized r c)
  /\ (mode img = M_RGBA ->
     shape (normalize resample img) = [IMAGE_SIZE; IMAGE_SIZE; 3%nat]
     /\ shape resized = [IMAGE_SIZE; IMAGE_SIZE; 4%nat]
     /\ forall r c k, (r < IMAGE_SIZE)%nat -> (c < IMAGE_SIZE)%nat -> (k < 3)%nat ->
          get3 (normalize resample img) r c k = get3 resized r c k)
  /\ (width img = IMAGE_SIZE -> height img = IMAGE_SIZE -> resized = array img).
Proof.
  intros Hwf Hres resized.
  assert (Hsame : width img = IMAGE_SIZE -> height img = IMAGE_SIZE ->
                  resized = array img).
  { intros Hw Hh. subst resized. rewrite <- Hw at 1. rewrite <- Hh at 1.
    now rewrite resize_same. }
  cut ((bands (mode img) = 1%nat ->
        shape (normalize resample img) = [IMAGE_SIZE; IMAGE_SIZE; 3%nat]
        /\ forall r c k, (k < 3)%nat ->
             get3 (normalize resample img) r c k = get2 resized r c)
       /\ (mode img = M_RGBA ->
        shape (normalize resample img) = [IMAGE_SIZE; IMAGE_SIZE; 3%nat]
        /\ shape resized = [IMAGE_SIZE; IMAGE_SIZE; 4%nat]
        /\ forall r c k, (r < IMAGE_SIZE)%nat -> (c < IMAGE_SIZE)%nat ->
             (k < 3)%nat ->
             get3 (normalize resample img) r c k = get3 resized r c k)).
  { intros [H1 H2]. split; [exact H1|]. split; [exact H2 | exact Hsame]. }
  clear Hsame.
  pose proof (resize_mode resample img IMAGE_SIZE IMAGE_SIZE) as Hm.
  pose proof (resize_width resample img IMAGE_SIZE IMAGE_SIZE) as Hw.
  pose proof (resize_height resample img IMAGE_SIZE IMAGE_SIZE) as Hh.
  assert (Hlen : wf_image (resize resample img IMAGE_SIZE IMAGE_SIZE)).
  { unfold resize. destruct (_ && _); [exact Hwf|]. unfold wf_image.
    cbn [mode width height pixels]. apply Hres. }
  unfold wf_image in Hlen. rewrite Hm, Hw, Hh in Hlen.
  subst resized. unfold normalize.
  destruct (resize resample img IMAGE_SIZE IMAGE_SIZE) as [m wd ht px].
  cbn [mode width height pixels] in Hm, Hw, Hh, Hlen. subst m wd ht.
  split.
  - intros Hb. split.
    + destruct (mode img); try discriminate; reflexivity.
    + intros r c k Hk.
      transitivity (nth ((r * IMAGE_SIZE + c) * 3 + k) (flat_map triple px) 0%Z).
      { destruct (mode img); try discriminate; reflexivity. }
      rewrite nth_flat_map_triple by exact Hk.
      unfold get2, array. cbn [mode width height pixels shape data].
      rewrite Hb. reflexivity.
  - intros HM. rewrite HM in *. split; [reflexivity|]. split; [reflexivity|].
    intros r c k Hr Hc Hk.
    transitivity (nth ((r * IMAGE_SIZE + c) * 3 + k)
                    (flat_map (firstn 3)
                       (chunks_of (IMAGE_SIZE * IMAGE_SIZE) 4 px)) 0%Z);
      [reflexivity|].
    transitivity (nth ((r * IMAGE_SIZE + c) * 4 + k) px 0%Z); [|reflexivity].
    apply nth_first3_chunks; [| exact Hk |].
    + nia.
    + rewrite Hlen. cbn [bands]. lia.
Qed.

(** C6: on an image that is already 256x256 RGB, normalization changes
    nothing: the array is the image's own, and turning it back into an image
    gives the image itself, so a second normalization gives the same array. *)
Theorem normalize_idempotent (img : Image) :
  mode img = M_RGB -> width img = IMAGE_SIZE -> height img = IMAGE_SIZE ->
  normalize resample img = array img
  /\ shape (normalize resample img) = [IMAGE_SIZE; IMAGE_SIZE; 3%nat]
  /\ dtype_of (normalize resample img) = uint8
  /\ fromarray (normalize resample img) = Ok img.
Proof.
  intros Hm Hw Hh.
  destruct img as [m wd ht px]. cbn [mode width height] in Hm, Hw, Hh.
  subst m wd ht.
  assert (E : normalize resample (mk_Image M_RGB IMAGE_SIZE IMAGE_SIZE px)
              = array (mk_Image M_RGB IMAGE_SIZE IMAGE_SIZE px)).
  { unfold normalize, resize. cbn [mode width height].
    rewrite Nat.eqb_refl. reflexivity. }
  rewrite E. repeat split.
Qed.

End ImageClaims.

(** ** Names and output paths *)

Section PathFacts.
Import pystr pystr_facts os_path os_path_facts.

Lemma name_ok_spec (n : string) :
  name_ok n = true <-> n <> "" /\ contains sep n = false.
Proof.
  unfold name_ok. rewrite andb_true_iff, !negb_true_iff, String.eqb_neq.
  reflexivity.
Qed.

Lemma slashed_idem (p : string) : slashed (slashed p) = slashed p.
Proof.
  destruct (slashed_shape p) as [E | [q E]]; rewrite E; [reflexivity|].
  unfold slashed.
  replace (endswith (q +:+ "/") "/") with true
    by (symmetry; apply endswith_spec; now exists q).
  now rewrite orb_true_r.
Qed.

Lemma slashed_join_name (p n : string) :
  name_ok n = true -> slashed (join p [n]) = slashed p +:+ n +:+ "/".
Proof.
  intros H. apply name_ok_spec in H as [N C].
  rewrite join_name by exact C.
  rewrite slashed_clean; [now rewrite append_assoc | |].
  - destruct (slashed p); [exact N | discriminate].
  - now apply endswith_append_clean.
Qed.

Lemma digits_clean (d : Decimal.uint) :
  contains sep (NilEmpty.string_of_uint d) = false.
Proof. induction d; simpl; auto. Qed.

Lemma str_of_nat_inj (i j : nat) : str_of_nat i = str_of_nat j -> i = j.
Proof.
  unfold str_of_nat. intros H.
  apply (f_equal NilEmpty.uint_of_string) in H.
  rewrite !NilEmpty.usu in H. injection H as H.
  apply (f_equal Nat.of_uint) in H.
  now rewrite !DecimalNat.Unsigned.of_to in H.
Qed.

Lemma aug_name_clean (i : nat) (file : string) :
  contains sep file = false -> contains sep (aug_name i file) = false.
Proof.
  intros H. unfold aug_name, str_of_nat.
  rewrite !contains_append, digits_clean, H. reflexivity.
Qed.

Lemma aug_name_ok (i : nat) (file : string) :
  name_ok file = true -> name_ok (aug_name i file) = true.
Proof.
  intros H. apply name_ok_spec in H as [_ C]. apply name_ok_spec.
  split; [discriminate | now apply aug_name_clean].
Qed.

Lemma aug_name_inj (i j : nat) (file : string) :
  aug_name i file = aug_name j file -> i = j.
Proof.
  unfold aug_name. intros H. apply append_inj_l in H.
  rewrite <- !append_assoc in H. apply append_inj_r in H.
  apply append_inj_r in H. now apply str_of_nat_inj.
Qed.

Lemma aug_name_length (i : nat) (file : string) :
  (String.length file < String.length (aug_name i file))%nat.
Proof. unfold aug_name. rewrite !length_append. simpl. lia. Qed.

(** Two prefixes of one string: one is a prefix of the other. *)
Lemma prefix_comparable (a b x y : string) :
  a +:+ x = b +:+ y ->
  startswith a b = true \/ startswith b a = true.
Proof.
  revert b. induction a as [|c a IH]; intros [|d b] H; simpl in *; auto.
  injection H as -> H. rewrite Ascii.eqb_refl. simpl. now apply IH.
Qed.

(** The directory a file of [subdir] is written to, spelled out. *)
Lemma label_dir_slashed (output_dir subdir : string) :
  slashed (join output_dir [basename subdir])
  = slashed output_dir
      +:+ (if String.eqb (basename subdir) "" then ""
           else basename subdir +:+ "/").
Proof.
  destruct (String.eqb_spec (basename subdir) "") as [E|N].
  - rewrite E, join_name by reflexivity.
    rewrite !append_nil_r. apply slashed_idem.
  - apply slashed_join_name. apply name_ok_spec. split; [exact N|].
    apply rcut_snd_clean.
Qed.

Lemma label_dir_form (output_dir subdir : string) :
  join output_dir [basename subdir] = slashed output_dir +:+ basename subdir.
Proof. apply join_name. apply rcut_snd_clean. Qed.

(** Whatever is saved for a file lies below the output directory. *)
Lemma saved_under_output (output_dir subdir n : string) :
  name_ok n = true ->
  under output_dir (join (join output_dir [basename subdir]) [n]).
Proof.
  intros H. apply name_ok_spec in H as [N C].
  rewrite join_name by exact C. rewrite label_dir_slashed.
  unfold under. eexists. split; [|apply append_assoc].
  destruct (String.eqb (basename subdir) ""); [exact N|].
  destruct (basename subdir); discriminate.
Qed.

End PathFacts.

(** ** When the saves of a file succeed *)

Section SaveFacts.
Import pystr pystr_facts os_path os_path_facts np PIL.

Lemma drop_last_append (s : string) (c : ascii) :
  drop_last (s +:+ String c "") = s.
Proof.
  induction s as [|a s IH]; [reflexivity|].
  simpl. rewrite IH. now destruct s.
Qed.

(** Pillow finds the encoder from the suffix the filter accepted, provided
    the name has something other than dots before it. *)
Lemma save_format (label_dir stem suf : string) :
  In suf [".jpg"; ".jpeg"; ".png"] ->
  contains sep (stem +:+ suf) = false ->
  all_char "."%char stem = false ->
  EXTENSION (lower (splitext_ext (join label_dir [stem +:+ suf])))
  = Some (if String.eqb suf ".png" then PNG else JPEG).
Proof.
  intros Hs Hc Hd. rewrite join_name by exact Hc.
  unfold splitext_ext, basename. rewrite rcut_slashed by exact Hc.
  cbn [snd].
  assert (R : forall e, contains "."%char e = false ->
            match rcut "."%char (stem +:+ String "."%char e) with
            | (EmptyString, _) => EmptyString
            | (h, t) => if all_char "."%char (drop_last h) then EmptyString
                        else String "."%char t
            end = String "."%char e).
  { intros e He. rewrite rcut_append by exact He.
    destruct (stem +:+ String "."%char "") as [|h0 h] eqn:Eh.
    - destruct stem; discriminate.
    - rewrite <- Eh, drop_last_append, Hd. reflexivity. }
  destruct Hs as [<- | [<- | [<- | []]]].
  - change (stem +:+ ".jpg") with (stem +:+ String "."%char "jpg").
    now rewrite R.
  - change (stem +:+ ".jpeg") with (stem +:+ String "."%char "jpeg").
    now rewrite R.
  - change (stem +:+ ".png") with (stem +:+ String "."%char "png").
    now rewrite R.
Qed.

Lemma aug_name_stem (i : nat) (stem suf : string) :
  aug_name i (stem +:+ suf)
  = ("aug_" +:+ str_of_nat i +:+ "_" +:+ stem) +:+ suf.
Proof. unfold aug_name. now rewrite !append_assoc. Qed.

Lemma fromarray_channels (a : ndarray) (h w c : nat) :
  shape a = [h; w; c] -> dtype_of a = uint8 -> (c = 2 \/ c = 3)%nat ->
  fromarray a = Ok {| mode := if Nat.eqb c 2 then M_LA else M_RGB;
                      width := w; height := h; pixels := data a |}.
Proof.
  intros S T C. unfold fromarray. rewrite S, T.
  destruct C as [-> | ->]; reflexivity.
Qed.

Lemma save_result_channels (p : string) (a : ndarray) (h w c : nat) (f : Format) :
  shape a = [h; w; c] -> dtype_of a = uint8 -> (c = 2 \/ c = 3)%nat ->
  EXTENSION (lower (splitext_ext p)) = Some f ->
  (c = 2%nat -> f = PNG) ->
  save_result p a = Ok {| mode := if Nat.eqb c 2 then M_LA else M_RGB;
                          width := w; height := h; pixels := data a |}.
Proof.
  intros S T C E L. unfold save_result.
  rewrite (fromarray_channels a h w c S T C), E. cbn [mode].
  destruct C as [-> | ->].
  - now rewrite (L eq_refl).
  - now destruct f.
Qed.

Variable resample : Image -> nat -> nat -> list Z.
Variable data_augmentation : nat -> ndarray -> ndarray.

Lemma augmented_dtype (n : nat) (a : ndarray) :
  dtype_of (augmented data_augmentation n a) = uint8.
Proof. reflexivity. Qed.

Lemma augmented_shape (n : nat) (a : ndarray) (c : nat) :
  (forall n a, shape (data_augmentation n a) = shape a) ->
  shape a = [IMAGE_SIZE; IMAGE_SIZE; c] -> (c = 2 \/ c = 3)%nat ->
  shape (augmented data_augmentation n a) = [IMAGE_SIZE; IMAGE_SIZE; c].
Proof.
  intros H S C. unfold augmented, where_lt, astype_uint8, squeeze.
  cbn [shape]. rewrite H. unfold expand_dims0. cbn [shape]. rewrite S.
  destruct C as [-> | ->]; reflexivity.
Qed.

(** Every attempt planned for a picture succeeds when the picture has 8-bit
    bands, a two-band picture goes to a PNG file, the name has a proper stem
    and the augmentation layers keep the shape. *)
Lemma planned_saves_succeed (label_dir stem suf : string) (img : Image)
    (augmentation_factor d : nat) (p : string) (a : ndarray) :
  In suf [".jpg"; ".jpeg"; ".png"] ->
  contains sep (stem +:+ suf) = false ->
  all_char "."%char stem = false ->
  typestr (mode img) = uint8 ->
  (mode img = M_LA -> suf = ".png") ->
  (forall n a, shape (data_augmentation n a) = shape a) ->
  In (p, a) (planned_saves data_augmentation label_dir (stem +:+ suf)
               (normalize resample img) augmentation_factor d) ->
  save_result p a
  = Ok {| mode := if Nat.eqb (channels_after (mode img)) 2 then M_LA else M_RGB;
          width := IMAGE_SIZE; height := IMAGE_SIZE; pixels := data a |}.
Proof.
  intros Hs Hc Hd Ht Hla Hshape Hin.
  assert (C : (channels_after (mode img) = 2 \/ channels_after (mode img) = 3)%nat)
    by (destruct (mode img); auto).
  assert (L : channels_after (mode img) = 2%nat ->
              (if String.eqb suf ".png" then PNG else JPEG) = PNG).
  { intros E. rewrite Hla; [reflexivity|]. now destruct (mode img). }
  destruct Hin as [Hin | Hin].
  - injection Hin as <- <-.
    apply (save_result_channels _ _ IMAGE_SIZE IMAGE_SIZE
             (channels_after (mode img))
             (if String.eqb suf ".png" then PNG else JPEG)).
    + apply normalize_shape.
    + rewrite normalize_dtype. exact Ht.
    + exact C.
    + now apply save_format.
    + exact L.
  - apply aug_plan_In in Hin as (k & _ & -> & ->).
    apply (save_result_channels _ _ IMAGE_SIZE IMAGE_SIZE
             (channels_after (mode img))
             (if String.eqb suf ".png" then PNG else JPEG)).
    + apply augmented_shape; [exact Hshape | apply normalize_shape | exact C].
    + apply augmented_dtype.
    + exact C.
    + rewrite aug_name_stem.
      apply save_format; [exact Hs | | reflexivity].
      rewrite <- aug_name_stem. now apply aug_name_clean.
    + exact L.
Qed.

End SaveFacts.

(** ** Claims about one directory entry *)

Lemma NoDup_map_inj {A B} (f : A -> B) (l : list A) :
  (forall x y, In x l -> In y l -> f x = f y -> x = y) ->
  List.NoDup l -> List.NoDup (map f l).
Proof.
  intros Hinj. induction 1 as [|x l Hx Hl IH]; simpl; constructor.
  - intros Hin. apply in_map_iff in Hin as (y & E & Hy).
    apply Hinj in E; [| now right | now left]. now subst.
  - apply IH. intros a b Ha Hb. apply Hinj; now right.
Qed.

Section FileClaims.
Import pystr pystr_facts os_path os_path_facts np PIL PIL_facts.
Variable resample : Image -> nat -> nat -> list Z.
Variable data_augmentation : nat -> ndarray -> ndarray.

Lemma is_image_name_spec (file : string) :
  is_image_name file = true
  <-> exists stem, file = stem +:+ ".jpg" \/ file = stem +:+ ".jpeg"
                   \/ file = stem +:+ ".png".
Proof.
  unfold is_image_name. rewrite endswith_any_spec. split.
  - intros (suf & stem & Hin & ->). exists stem.
    destruct Hin as [<- | [<- | [<- | []]]]; auto.
  - intros (stem & [-> | [-> | ->]]); eexists _, stem; (split; [|reflexivity]);
      simpl; auto.
Qed.

Lemma endswith_last (s t : string) (c d : ascii) :
  c <> d -> endswith (s +:+ String c "") (t +:+ String d "") = false.
Proof.
  intros N. apply not_true_is_false. intros H.
  apply endswith_spec in H as [stem H]. rewrite <- append_assoc in H.
  apply append_inj_suffix in H as [_ H]; [|reflexivity]. congruence.
Qed.

Lemma upper_case_not_image (stem : string) :
  is_image_name (stem +:+ ".JPG") = false
  /\ is_image_name (stem +:+ ".JPEG") = false
  /\ is_image_name (stem +:+ ".PNG") = false.
Proof.
  unfold is_image_name, endswith_any. cbn [existsb].
  replace (stem +:+ ".JPG") with ((stem +:+ ".JP") +:+ "G")
    by now rewrite append_assoc.
  replace (stem +:+ ".JPEG") with ((stem +:+ ".JPE") +:+ "G")
    by now rewrite append_assoc.
  replace (stem +:+ ".PNG") with ((stem +:+ ".PN") +:+ "G")
    by now rewrite append_assoc.
  repeat split;
    rewrite (endswith_last _ ".jp" "G" "g"), (endswith_last _ ".jpe" "G" "g"),
      (endswith_last _ ".pn" "G" "g"); try reflexivity; discriminate.
Qed.

(** C9: the filter accepts exactly the names that end in ".jpg", ".jpeg" or
    ".png", in lower case; an accepted file is opened; any other file,
    among them the upper-case spellings, leaves the world as it was. *)
Theorem filter_is_case_sensitive (output_dir : string)
    (augmentation_factor : nat) (subdir file : string) (content : File)
    (w : World) :
  (is_image_name file = true
   <-> exists stem, file = stem +:+ ".jpg" \/ file = stem +:+ ".jpeg"
                    \/ file = stem +:+ ".png")
  /\ (is_image_name file = true ->
      exists w' r evs,
        process_file resample data_augmentation output_dir augmentation_factor
          subdir (file, content) w = (w', r)
        /\ advances w w' (EvOpen (join subdir [file]) :: evs))
  /\ (is_image_name file = false ->
      process_file resample data_augmentation output_dir augmentation_factor
        subdir (file, content) w = (w, Ok tt))
  /\ (forall stem,
        is_image_name (stem +:+ ".JPG") = false
        /\ is_image_name (stem +:+ ".JPEG") = false
        /\ is_image_name (stem +:+ ".PNG") = false).
Proof.
  split; [apply is_image_name_spec|]. split; [|split].
  - intros H.
    destruct (process_file_advances resample data_augmentation output_dir
                augmentation_factor subdir (file, content) w)
      as (w' & evs & r & E & A & FE).
    unfold file_events in FE. cbn [fst snd] in FE. rewrite H in FE.
    destruct content as [| |img].
    + destruct FE as [-> _]. exists w', r, []. now split.
    + destruct FE as [-> _]. exists w', r, []. now split.
    + destruct FE as (mk & _ & -> & _). exists w', r. eexists.
      split; [exact E | exact A].
  - intros H. unfold process_file. cbn [fst].
    unfold is_image_name in H. now rewrite H.
  - apply upper_case_not_image.
Qed.

(** An undecodable file under an accepted name: the file is opened and
    [Image.open] raises. *)
Lemma process_file_undecodable (output_dir : string) (augmentation_factor : nat)
    (subdir file : string) (w : World) :
  is_image_name file = true ->
  exists w',
    process_file resample data_augmentation output_dir augmentation_factor
      subdir (file, Undecodable) w = (w', Raise UnidentifiedImageError)
    /\ advances w w' [EvOpen (join subdir [file])].
Proof.
  intros H.
  destruct (process_file_advances resample data_augmentation output_dir
              augmentation_factor subdir (file, Undecodable) w)
    as (w' & evs & r & E & A & FE).
  unfold file_events in FE. cbn [fst snd] in FE. rewrite H in FE.
  destruct FE as [-> ->]. now exists w'.
Qed.

(** A truncated file under an accepted name: the file is opened and the
    loading of its pixels raises. *)
Lemma process_file_truncated (output_dir : string) (augmentation_factor : nat)
    (subdir file : string) (w : World) :
  is_image_name file = true ->
  exists w',
    process_file resample data_augmentation output_dir augmentation_factor
      subdir (file, Truncated) w = (w', Raise OSError)
    /\ advances w w' [EvOpen (join subdir [file])].
Proof.
  intros H.
  destruct (process_file_advances resample data_augmentation output_dir
              augmentation_factor subdir (file, Truncated) w)
    as (w' & evs & r & E & A & FE).
  unfold file_events in FE. cbn [fst snd] in FE. rewrite H in FE.
  destruct FE as [-> ->]. now exists w'.
Qed.

(** A picture with 8-bit bands under an accepted name is processed without
    an exception. *)
Lemma process_file_returns (output_dir : string) (augmentation_factor : nat)
    (subdir stem suf : string) (img : Image) (w : World) :
  In suf [".jpg"; ".jpeg"; ".png"] ->
  name_ok (stem +:+ suf) = true ->
  all_char "."%char stem = false ->
  typestr (mode img) = uint8 ->
  (mode img = M_LA -> suf = ".png") ->
  (forall n a, shape (data_augmentation n a) = shape a) ->
  exists w',
    process_file resample data_augmentation output_dir augmentation_factor
      subdir (stem +:+ suf, Picture img) w = (w', Ok tt).
Proof.
  intros Hs Hn Hd Ht Hla Hshape.
  apply name_ok_spec in Hn as [_ Hc].
  assert (Him : is_image_name (stem +:+ suf) = true).
  { apply is_image_name_spec. exists stem.
    destruct Hs as [<- | [<- | [<- | []]]]; auto. }
  destruct (process_file_advances resample data_augmentation output_dir
              augmentation_factor subdir (stem +:+ suf, Picture img) w)
    as (w' & evs & r & E & A & FE).
  unfold file_events in FE. cbn [fst snd] in FE. rewrite Him in FE.
  destruct FE as (mk & _ & _ & Hr).
  exists w'. rewrite E, Hr. f_equal.
  apply run_saves_ok. intros p a Hin. eexists.
  apply (planned_saves_succeed resample data_augmentation
           (join output_dir [basename subdir]) stem suf
           img augmentation_factor (draws w) p a); assumption.
Qed.

(** A picture whose bands are not 8-bit (modes "1", "I", "I;16", "F"):
    the three-channel array has no Pillow mode, [Image.fromarray] raises and
    nothing is saved for the file. *)
Lemma process_file_type_error (output_dir : string) (augmentation_factor : nat)
    (subdir file : string) (img : Image) (w : World) :
  is_image_name file = true ->
  typestr (mode img) <> uint8 ->
  exists w' evs,
    process_file resample data_augmentation output_dir augmentation_factor
      subdir (file, Picture img) w = (w', Raise TypeError)
    /\ advances w w' evs /\ saved_paths evs = [].
Proof.
  intros Him Ht.
  destruct (process_file_advances resample data_augmentation output_dir
              augmentation_factor subdir (file, Picture img) w)
    as (w' & evs & r & E & A & FE).
  unfold file_events in FE. cbn [fst snd] in FE. rewrite Him in FE.
  destruct FE as (mk & Hmk & Hevs & Hr).
  assert (S : save_result (join (join output_dir [basename subdir]) [file])
                (normalize resample img) = Raise TypeError).
  { unfold save_result, fromarray.
    rewrite normalize_shape, normalize_dtype. cbn [skipn].
    destruct (mode img); try (now elim Ht); reflexivity. }
  unfold planned_saves in Hevs, Hr. cbn [run_saves] in Hevs, Hr.
  rewrite S in Hevs, Hr. cbn [fst snd] in Hevs, Hr. subst r evs.
  exists w'. eexists. split; [exact E|]. split; [exact A|].
  rewrite app_nil_r. destruct Hmk as [-> | ->]; reflexivity.
Qed.

(** A two-band picture under a JPEG name: the encoder refuses the mode and
    nothing is saved for the file. *)
Lemma process_file_jpeg_error (output_dir : string) (augmentation_factor : nat)
    (subdir stem suf : string) (img : Image) (w : World) :
  In suf [".jpg"; ".jpeg"] ->
  name_ok (stem +:+ suf) = true ->
  all_char "."%char stem = false ->
  mode img = M_LA ->
  exists w' evs,
    process_file resample data_augmentation output_dir augmentation_factor
      subdir (stem +:+ suf, Picture img) w = (w', Raise OSError)
    /\ advances w w' evs /\ saved_paths evs = [].
Proof.
  intros Hs Hn Hd Hm. apply name_ok_spec in Hn as [_ Hc].
  assert (Hs' : In suf [".jpg"; ".jpeg"; ".png"])
    by (destruct Hs as [<- | [<- | []]]; simpl; auto).
  assert (Him : is_image_name (stem +:+ suf) = true).
  { apply is_image_name_spec. exists stem.
    destruct Hs as [<- | [<- | []]]; auto. }
  destruct (process_file_advances resample data_augmentation output_dir
              augmentation_factor subdir (stem +:+ suf, Picture img) w)
    as (w' & evs & r & E & A & FE).
  unfold file_events in FE. cbn [fst snd] in FE. rewrite Him in FE.
  destruct FE as (mk & Hmk & Hevs & Hr).
  assert (S : save_result (join (join output_dir [basename subdir]) [stem +:+ suf])
                (normalize resample img) = Raise OSError).
  { unfold save_result.
    rewrite (fromarray_channels _ IMAGE_SIZE IMAGE_SIZE 2).
    - rewrite (save_format _ stem suf Hs' Hc Hd). cbn [mode Nat.eqb].
      destruct Hs as [<- | [<- | []]]; reflexivity.
    - rewrite normalize_shape, Hm. reflexivity.
    - rewrite normalize_dtype, Hm. reflexivity.
    - now left. }
  unfold planned_saves in Hevs, Hr. cbn [run_saves] in Hevs, Hr.
  rewrite S in Hevs, Hr. cbn [fst snd] in Hevs, Hr. subst r evs.
  exists w'. eexists. split; [exact E|]. split; [exact A|].
  rewrite app_nil_r. destruct Hmk as [-> | ->]; reflexivity.
Qed.

(** C1 at a gray+alpha PNG: the file saved under the original name is a
    256x256 image with two channels, not three. *)
Theorem gray_alpha_keeps_two_channels (output_dir : string)
    (augmentation_factor : nat) (subdir : string) (w : World) :
  exists w' r evs im,
    process_file resample data_augmentation output_dir augmentation_factor
      subdir ("scan.png", Picture Sample.gray_alpha) w = (w', r)
    /\ advances w w' evs
    /\ In (EvSave (join (join output_dir [basename subdir]) ["scan.png"]) im) evs
    /\ shape (array im) = [IMAGE_SIZE; IMAGE_SIZE; 2%nat]
    /\ bands (mode im) = 2%nat.
Proof.
  destruct (process_file_advances resample data_augmentation output_dir
              augmentation_factor subdir ("scan.png", Picture Sample.gray_alpha) w)
    as (w' & evs & r & E & A & FE).
  unfold file_events in FE. cbn [fst snd] in FE.
  change (is_image_name "scan.png") with true in FE. cbv iota in FE.
  destruct FE as (mk & _ & Hevs & _).
  set (label_dir := join output_dir [basename subdir]) in *.
  assert (S : save_result (join label_dir ["scan.png"])
                (normalize resample Sample.gray_alpha)
              = Ok {| mode := M_LA; width := IMAGE_SIZE; height := IMAGE_SIZE;
                      pixels := data (normalize resample Sample.gray_alpha) |}).
  { apply (save_result_channels _ _ IMAGE_SIZE IMAGE_SIZE 2 PNG).
    - apply (normalize_shape resample Sample.gray_alpha).
    - apply normalize_dtype.
    - now left.
    - apply (save_format label_dir "scan" ".png"); simpl; auto.
    - reflexivity. }
  unfold planned_saves in Hevs. cbn [run_saves] in Hevs. rewrite S in Hevs.
  cbn [fst] in Hevs.
  exists w', r, evs,
    {| mode := M_LA; width := IMAGE_SIZE; height := IMAGE_SIZE;
       pixels := data (normalize resample Sample.gray_alpha) |}.
  split; [exact E|]. split; [exact A|].
  split; [|split; reflexivity].
  rewrite Hevs. right. apply in_or_app. right. left. reflexivity.
Qed.

(** What does hold for C1: when the picture is not a two-band one and the
    augmentation layers keep the shape, every image saved for it is an
    8-bit RGB image of 256x256 pixels. *)
Lemma saved_images_are_rgb (output_dir : string) (augmentation_factor : nat)
    (subdir file : string) (img : Image) (w : World) :
  mode img <> M_LA ->
  (forall n a, shape (data_augmentation n a) = shape a) ->
  exists w' r evs,
    process_file resample data_augmentation output_dir augmentation_factor
      subdir (file, Picture img) w = (w', r)
    /\ advances w w' evs
    /\ forall p im, In (EvSave p im) evs ->
         mode im = M_RGB /\ width im = IMAGE_SIZE /\ height im = IMAGE_SIZE
         /\ shape (array im) = [IMAGE_SIZE; IMAGE_SIZE; 3%nat]
         /\ dtype_of (array im) = uint8.
Proof.
  intros Hm Hshape.
  destruct (process_file_advances resample data_augmentation output_dir
              augmentation_factor subdir (file, Picture img) w)
    as (w' & evs & r & E & A & FE).
  exists w', r, evs. split; [exact E|]. split; [exact A|].
  intros p im Hin. unfold file_events in FE. cbn [fst snd] in FE.
  destruct (is_image_name file).
  2:{ destruct FE as [-> _]. destruct Hin. }
  destruct FE as (mk & Hmk & -> & _).
  destruct Hin as [Hin | Hin]; [discriminate|].
  apply in_app_or in Hin as [Hin | Hin].
  { destruct Hmk as [-> | ->]; [destruct Hin|].
    destruct Hin as [Hin | []]. discriminate. }
  apply run_saves_In in Hin as (p' & a & im' & Heq & Hplan & R).
  injection Heq as <- <-.
  apply save_result_fromarray in R.
  assert (C3 : channels_after (mode img) = 3%nat) by (now destruct (mode img)).
  assert (S : shape a = [IMAGE_SIZE; IMAGE_SIZE; 3%nat]).
  { destruct Hplan as [Hplan | Hplan].
    - injection Hplan as _ <-. rewrite normalize_shape. now rewrite C3.
    - apply aug_plan_In in Hplan as (k & _ & _ & ->).
      apply augmented_shape; [exact Hshape | | now right].
      rewrite normalize_shape. now rewrite C3. }
  unfold fromarray in R. rewrite S in R. cbn [skipn] in R.
  destruct (dtype_of a); try discriminate.
  injection R as <-. repeat split.
Qed.

End FileClaims.

(** ** Trees and walks *)

Lemma Tree_nested_ind (P : Tree -> Prop) :
  (forall fs ds, List.Forall (fun d => P (snd d)) ds -> P (Dir fs ds)) ->
  forall t, P t.
Proof.
  intros H. fix IH 1. intros [fs ds]. apply H.
  induction ds as [|d ds IHds]; constructor; [apply IH | exact IHds].
Qed.

Section WalkFacts.
Import pystr pystr_facts os_path os_path_facts.

Lemma flat_files_app (a b : list (string * list string * list (string * File))) :
  flat_files (a ++ b) = flat_files a ++ flat_files b.
Proof. unfold flat_files. apply flat_map_app. Qed.

Lemma walk_unfold (top : string) (fs : list (string * File))
    (ds : list (string * Tree)) :
  flat_files (walk top (Dir fs ds))
  = map (pair top) fs
      ++ flat_map (fun d => flat_files (walk (join top [fst d]) (snd d))) ds.
Proof.
  cbn [walk]. unfold flat_files at 1. cbn [flat_map]. f_equal.
  induction ds as [|d ds IH]; [reflexivity|].
  cbn [flat_map]. rewrite flat_map_app. fold (flat_files (walk (join top [fst d]) (snd d))).
  now rewrite IH.
Qed.

(** Every file name of a walk over a well-named tree is a listing name. *)
Lemma walk_names_ok (t : Tree) :
  forall top, tree_ok t = true ->
  List.Forall (fun sf => name_ok (fst (snd sf)) = true) (flat_files (walk top t)).
Proof.
  induction t as [fs ds IH] using Tree_nested_ind. intros top H.
  cbn [tree_ok] in H. apply andb_true_iff in H as [Hf Hd].
  rewrite walk_unfold. apply List.Forall_app. split.
  - rewrite forallb_forall in Hf. apply List.Forall_forall.
    intros sf Hin. apply in_map_iff in Hin as (f & <- & Hin). now apply Hf.
  - induction ds as [|d ds IHds]; [constructor|].
    cbn [flat_map]. cbn [forallb] in Hd.
    apply andb_true_iff in Hd as [Hd1 Hd2].
    apply andb_true_iff in Hd1 as [_ Hd1].
    inversion IH as [|? ? IH1 IH2]; subst.
    apply List.Forall_app. split; [now apply IH1 | now apply IHds].
Qed.

(** The directory reached through [names] is visited, under the path that
    joins the names to the top. *)
Lemma walk_reaches (t : Tree) (names : list string) (fs : list (string * File))
    (ds : list (string * Tree)) :
  at_path t names (Dir fs ds) ->
  forall top, In (join top names, map fst ds, fs) (walk top t).
Proof.
  remember (Dir fs ds) as t' eqn:Et.
  induction 1 as [t | fs' ds' n sub names t' Hin Hat IH]; intros top.
  - subst t. left. reflexivity.
  - cbn [walk]. right. apply in_flat_map. exists (n, sub). split; [exact Hin|].
    cbn [fst snd]. exact (IH Et (join top [n])).
Qed.

Lemma flat_files_In (items : list (string * list string * list (string * File)))
    (subdir : string) (dn : list string) (files : list (string * File))
    (entry : string * File) :
  In (subdir, dn, files) items -> In entry files ->
  In (subdir, entry) (flat_files items).
Proof.
  intros Hi He. unfold flat_files. apply in_flat_map.
  exists (subdir, dn, files). split; [exact Hi|].
  now apply in_map.
Qed.

(** The label of a directory below the top is its own name. *)
Lemma basename_nested (top : string) (names : list string) (n : string) :
  name_ok n = true -> basename (join top (names ++ [n])) = n.
Proof.
  intros H. apply name_ok_spec in H as [_ C].
  unfold join. rewrite fold_left_app. cbn [fold_left].
  change (join2 ?p n) with (join p [n]). now apply basename_join.
Qed.

End WalkFacts.

Section ImagePaths.
Import pystr pystr_facts os_path os_path_facts.

Lemma source_images_app (a b : list (string * (string * File))) :
  source_images (a ++ b) = source_images a ++ source_images b.
Proof. unfold source_images. apply flat_map_app. Qed.

Lemma distinct_NoDup (l : list string) : distinct l = true -> List.NoDup l.
Proof.
  induction l as [|x l IH]; intros H; [constructor|].
  cbn [distinct] in H. apply andb_true_iff in H as [Hx Hl].
  constructor; [|now apply IH].
  intros Hin. apply negb_true_iff in Hx.
  assert (E : existsb (String.eqb x) l = true).
  { apply existsb_exists. exists x. split; [exact Hin | apply String.eqb_refl]. }
  congruence.
Qed.

(** The image paths of a walk are the relative image paths of the tree,
    each behind the top directory. *)
Lemma walk_images (t : Tree) :
  forall top, tree_ok t = true ->
  source_images (flat_files (walk top t))
  = map (fun r => slashed top +:+ r) (rel_images t).
Proof.
  induction t as [fs ds IH] using Tree_nested_ind. intros top H.
  cbn [tree_ok] in H. apply andb_true_iff in H as [Hf Hd].
  rewrite walk_unfold, source_images_app. cbn [rel_images].
  rewrite map_app. f_equal.
  - clear IH Hd. induction fs as [|f fs IHf]; [reflexivity|].
    cbn [forallb] in Hf. apply andb_true_iff in Hf as [Hf1 Hf2].
    apply name_ok_spec in Hf1 as [_ C].
    cbn [map source_images flat_map fst snd].
    fold (source_images (map (pair top) fs)). rewrite (IHf Hf2).
    destruct (is_image_name (fst f)); cbn [app map]; [|reflexivity].
    now rewrite join_name by exact C.
  - induction ds as [|d ds IHds]; [reflexivity|].
    cbn [forallb] in Hd. apply andb_true_iff in Hd as [Hd1 Hd2].
    apply andb_true_iff in Hd1 as [Hn Ht].
    inversion IH as [|? ? IH1 IH2]; subst.
    cbn [flat_map]. rewrite source_images_app, map_app.
    rewrite (IHds IH2 Hd2). f_equal.
    rewrite (IH1 _ Ht), map_map. apply map_ext. intros r.
    rewrite slashed_join_name by exact Hn. now rewrite !append_assoc.
Qed.

Lemma contains_slash_path (d r : string) : contains sep (d +:+ "/" +:+ r) = true.
Proof.
  rewrite contains_append. change ("/" +:+ r) with (String sep r).
  cbn [contains]. rewrite Ascii.eqb_refl. apply orb_true_r.
Qed.

(** Clean names in front of a separator are determined by the whole. *)
Lemma clean_prefix_inj (d d' r r' : string) :
  contains sep d = false -> contains sep d' = false ->
  d +:+ "/" +:+ r = d' +:+ "/" +:+ r' -> d = d'.
Proof.
  revert d'. induction d as [|a d IH]; intros [|a' d'] C C' E; simpl in *.
  - reflexivity.
  - injection E as <- _. now rewrite Ascii.eqb_refl in C'.
  - injection E as -> _. now rewrite Ascii.eqb_refl in C.
  - injection E as -> E. apply orb_false_iff in C as [_ C].
    apply orb_false_iff in C' as [_ C']. f_equal. now apply IH.
Qed.

Lemma NoDup_app_intro {A} (l l' : list A) :
  List.NoDup l -> List.NoDup l' -> (forall x, In x l -> In x l' -> False) ->
  List.NoDup (l ++ l').
Proof.
  induction 1 as [|x l Hx Hl IH]; intros Hl' Hd; [exact Hl'|].
  simpl. constructor.
  - intros Hin. apply in_app_or in Hin as [Hin | Hin]; [easy|].
    apply (Hd x); [now left | exact Hin].
  - apply IH; [exact Hl'|]. intros y Hy. apply Hd. now right.
Qed.

Lemma image_names_NoDup (fs : list (string * File)) :
  List.NoDup (map fst fs) ->
  List.NoDup (flat_map (fun f => if is_image_name (fst f) then [fst f] else []) fs).
Proof.
  induction fs as [|f fs IH]; intros H; [constructor|].
  cbn [map] in H. inversion H as [|? ? Hx Hl]; subst.
  cbn [flat_map]. destruct (is_image_name (fst f)); cbn [app]; [|now apply IH].
  constructor; [|now apply IH].
  intros Hin. apply Hx. apply in_flat_map in Hin as (g & Hg & Hin).
  destruct (is_image_name (fst g)); [|destruct Hin].
  destruct Hin as [<- | []]. now apply in_map.
Qed.

Lemma rel_images_NoDup (t : Tree) :
  tree_ok t = true -> tree_distinct t = true -> List.NoDup (rel_images t).
Proof.
  induction t as [fs ds IH] using Tree_nested_ind. intros Hok Hdis.
  cbn [tree_ok] in Hok. apply andb_true_iff in Hok as [Hf Hd].
  cbn [tree_distinct] in Hdis. apply andb_true_iff in Hdis as [Hdis Hsub].
  apply andb_true_iff in Hdis as [Hfs Hds].
  cbn [rel_images]. apply NoDup_app_intro.
  - apply image_names_NoDup. now apply distinct_NoDup.
  - clear Hf Hfs. apply distinct_NoDup in Hds.
    induction ds as [|d ds IHds]; [constructor|].
    cbn [forallb] in Hd, Hsub. cbn [map] in Hds.
    apply andb_true_iff in Hd as [Hd1 Hd2].
    apply andb_true_iff in Hd1 as [Hn Ht].
    apply andb_true_iff in Hsub as [Hs1 Hs2].
    inversion IH as [|? ? IH1 IH2]; subst.
    inversion Hds as [|? ? Hx Hl]; subst.
    cbn [flat_map]. apply NoDup_app_intro.
    + apply NoDup_map_inj; [|now apply IH1].
      intros x y _ _ E. apply append_inj_l in E. now apply append_inj_l in E.
    + now apply IHds.
    + intros x Hin1 Hin2. apply in_map_iff in Hin1 as (r & <- & _).
      apply in_flat_map in Hin2 as (d' & Hd' & Hin2).
      apply in_map_iff in Hin2 as (r' & E & _).
      apply Hx. rewrite forallb_forall in Hd2.
      specialize (Hd2 d' Hd'). apply andb_true_iff in Hd2 as [Hn' _].
      apply name_ok_spec in Hn as [_ C]. apply name_ok_spec in Hn' as [_ C'].
      apply clean_prefix_inj in E; [|exact C'|exact C].
      rewrite <- E. now apply in_map.
  - intros x Hin1 Hin2.
    apply in_flat_map in Hin1 as (f & Hf' & Hin1).
    destruct (is_image_name (fst f)); [|destruct Hin1].
    destruct Hin1 as [<- | []].
    rewrite forallb_forall in Hf. specialize (Hf f Hf').
    apply name_ok_spec in Hf as [_ C].
    apply in_flat_map in Hin2 as (d & _ & Hin2).
    apply in_map_iff in Hin2 as (r & E & _).
    rewrite <- E, contains_slash_path in C. discriminate.
Qed.

Lemma rel_images_nonempty (t : Tree) :
  tree_ok t = true -> List.Forall (fun r => r <> "") (rel_images t).
Proof.
  destruct t as [fs ds]. intros Hok.
  cbn [tree_ok] in Hok. apply andb_true_iff in Hok as [Hf _].
  cbn [rel_images]. apply List.Forall_app. split.
  - apply List.Forall_forall. intros x Hin.
    apply in_flat_map in Hin as (f & Hf' & Hin).
    destruct (is_image_name (fst f)); [|destruct Hin].
    destruct Hin as [<- | []].
    rewrite forallb_forall in Hf. specialize (Hf f Hf').
    now apply name_ok_spec in Hf as [N _].
  - apply List.Forall_forall. intros x Hin.
    apply in_flat_map in Hin as (d & _ & Hin).
    apply in_map_iff in Hin as (r & <- & _).
    intros E. apply (f_equal String.length) in E.
    rewrite !length_append in E. simpl in E. lia.
Qed.

(** Under distinct names, no image path occurs twice in a walk, and all of
    them lie below the top directory. *)
Lemma source_images_NoDup (t : Tree) (top : string) :
  tree_ok t = true -> tree_distinct t = true ->
  List.NoDup (source_images (flat_files (walk top t))).
Proof.
  intros Hok Hdis. rewrite walk_images by exact Hok.
  apply NoDup_map_inj; [|now apply rel_images_NoDup].
  intros x y _ _ E. now apply append_inj_l in E.
Qed.

Lemma source_images_under (t : Tree) (top p : string) :
  tree_ok t = true -> In p (source_images (flat_files (walk top t))) ->
  under top p.
Proof.
  intros Hok Hin. rewrite walk_images in Hin by exact Hok.
  apply in_map_iff in Hin as (r & <- & Hr).
  exists r. split; [|reflexivity].
  pose proof (rel_images_nonempty t Hok) as F.
  rewrite List.Forall_forall in F. now apply F.
Qed.

End ImagePaths.

(** ** The whole run *)

Lemma replay_other (evs : list event) (m : gmap string PIL.Image) (p : string) :
  ~ In p (saved_paths evs) -> replay evs m !! p = m !! p.
Proof.
  revert m. induction evs as [|e evs IH]; intros m H; [reflexivity|].
  unfold replay in *. cbn [fold_left].
  rewrite IH.
  - destruct e as [q | q | q im]; cbn [apply_event]; try reflexivity.
    apply lookup_insert_ne. intros ->. apply H. now left.
  - intros Hin. apply H. destruct e; cbn [saved_paths flat_map app];
      try exact Hin. now right.
Qed.

Lemma replay_last (e1 e2 : list event) (p : string) (im : PIL.Image)
    (m : gmap string PIL.Image) :
  ~ In p (saved_paths e2) ->
  replay (e1 ++ EvSave p im :: e2) m !! p = Some im.
Proof.
  intros H. rewrite replay_app.
  change (EvSave p im :: e2) with ([EvSave p im] ++ e2).
  rewrite replay_app, replay_other by exact H.
  unfold replay. cbn [fold_left apply_event]. apply lookup_insert_eq.
Qed.

Lemma replay_keeps (evs : list event) (m : gmap string PIL.Image) (p : string) :
  is_Some (m !! p) -> is_Some (replay evs m !! p).
Proof.
  revert m. induction evs as [|e evs IH]; intros m H; [exact H|].
  unfold replay in *. cbn [fold_left]. apply IH.
  destruct e as [q | q | q im]; cbn [apply_event]; try exact H.
  destruct (decide (q = p)) as [-> | N].
  - rewrite lookup_insert_eq. eauto.
  - now rewrite lookup_insert_ne.
Qed.

Section RunSummary.
Variable resample : PIL.Image -> nat -> nat -> list Z.
Variable data_augmentation : nat -> np.ndarray -> np.ndarray.
Variable dataset : Tree.
Variables dataset_dir output_dir : string.
Variable augmentation_factor : nat.

Abbreviation step :=
  (fun sf : string * (string * File) =>
     process_file resample data_augmentation output_dir augmentation_factor
       (fst sf) (snd sf)).
Abbreviation flat := (flat_files (walk dataset_dir dataset)).
Abbreviation done_as x evs r :=
  (exists d, file_events resample data_augmentation output_dir
               augmentation_factor (fst x) (snd x) d evs r).

Lemma run_unfold (w : World) :
  augment_and_save_images resample data_augmentation dataset dataset_dir
    output_dir augmentation_factor w
  = (create_dir output_dir ;;; for_each flat step) w.
Proof.
  unfold augment_and_save_images, bind.
  destruct (create_dir output_dir w) as [w0 [[]|e]]; [|reflexivity].
  apply (for_each_flat
           (process_file resample data_augmentation output_dir augmentation_factor)).
Qed.

Lemma step_advances (x : string * (string * File)) (w : World) :
  exists w' evs r, step x w = (w', r) /\ advances w w' evs /\ done_as x evs r.
Proof.
  destruct (process_file_advances resample data_augmentation output_dir
              augmentation_factor (fst x) (snd x) w)
    as (w' & evs & r & E & A & FE).
  exists w', evs, r. split; [exact E|]. split; [exact A|]. now exists (draws w).
Qed.

(** The run as a whole: the output directory is created if need be, then the
    files are processed in walk order until one raises. *)
Lemma run_summary (w : World) :
  exists w' r mk done evss last,
    augment_and_save_images resample data_augmentation dataset dataset_dir
      output_dir augmentation_factor w = (w', r)
    /\ advances w w' (mk ++ concat evss ++ last)
    /\ (mk = [] \/ mk = [EvMkdir output_dir])
    /\ Forall2 (fun x evs => done_as x evs (Ok tt)) done evss
    /\ ((r = Ok tt /\ done = flat /\ last = [])
        \/ (exists x post e,
              flat = done ++ x :: post /\ r = Raise e
              /\ done_as x last (Raise e))).
Proof.
  rewrite run_unfold. unfold bind.
  destruct (create_dir_advances output_dir w) as (w0 & mk & E0 & Hmk & A0 & _).
  rewrite E0.
  destruct (for_each_cases step flat w0)
    as [(w' & R & C) | (pre & x & post & w1 & w2 & e & Hflat & C & B & R)].
  - destruct (chain_advances step (fun x evs r => done_as x evs r)
                step_advances _ _ _ C) as (evss & A & F).
    exists w', (Ok tt), mk, flat, evss, []. split; [exact R|].
    split; [|split; [exact Hmk | split; [exact F | now left]]].
    rewrite app_nil_r. eapply advances_trans; eauto.
  - destruct (chain_advances step (fun x evs r => done_as x evs r)
                step_advances _ _ _ C) as (evss & A & F).
    destruct (step_advances x w1) as (w2' & last & r & E & A' & D).
    rewrite B in E. injection E as <- <-.
    exists w2, (Raise e), mk, pre, evss, last. split; [exact R|].
    split; [|split; [exact Hmk | split; [exact F |]]].
    + eapply advances_trans; [exact A0|].
      eapply advances_trans; eauto.
    + right. exists x, post, e. now split.
Qed.

End RunSummary.

(** ** What the events of a file and of a run look like *)

Lemma saved_paths_In (evs : list event) (p : string) :
  In p (saved_paths evs) <-> exists im, In (EvSave p im) evs.
Proof.
  unfold saved_paths. rewrite in_flat_map. split.
  - intros (e & He & Hp). destruct e as [q|q|q im]; try destruct Hp.
    + subst. eauto.
    + destruct H.
  - intros (im & H). exists (EvSave p im). split; [exact H | now left].
Qed.

Lemma made_dirs_In (evs : list event) (p : string) :
  In p (made_dirs evs) <-> In (EvMkdir p) evs.
Proof.
  unfold made_dirs. rewrite in_flat_map. split.
  - intros (e & He & Hp). destruct e as [q|q|q im]; try destruct Hp.
    + now subst.
    + destruct H.
  - intros H. exists (EvMkdir p). split; [exact H | now left].
Qed.

Lemma opened_paths_In (evs : list event) (p : string) :
  In p (opened_paths evs) <-> In (EvOpen p) evs.
Proof.
  unfold opened_paths. rewrite in_flat_map. split.
  - intros (e & He & Hp). destruct e as [q|q|q im]; try destruct Hp.
    + now subst.
    + destruct H.
  - intros H. exists (EvOpen p). split; [exact H | now left].
Qed.

Lemma Forall2_concat_In {A B} (R : A -> list B -> Prop) (xs : list A)
    (yss : list (list B)) (y : B) :
  Forall2 R xs yss -> In y (concat yss) ->
  exists x ys, In x xs /\ R x ys /\ In y ys.
Proof.
  induction 1 as [|x ys xs yss HR F IH]; simpl; [easy|].
  intros Hin. apply in_app_or in Hin as [Hin | Hin].
  - exists x, ys. auto.
  - destruct (IH Hin) as (x' & ys' & Hx & HR' & Hy). exists x', ys'. auto.
Qed.

Lemma Forall2_In_l {A B} (R : A -> list B -> Prop) (xs : list A)
    (yss : list (list B)) (x : A) :
  Forall2 R xs yss -> In x xs ->
  exists ys, R x ys /\ forall y, In y ys -> In y (concat yss).
Proof.
  induction 1 as [|x' ys xs yss HR F IH]; simpl; [easy|].
  intros [-> | Hin].
  - exists ys. split; [exact HR|]. intros y Hy. apply in_or_app. now left.
  - destruct (IH Hin) as (ys' & HR' & Hy). exists ys'. split; [exact HR'|].
    intros y Hy'. apply in_or_app. right. now apply Hy.
Qed.

Section EventFacts.
Import pystr pystr_facts os_path os_path_facts.
Variable resample : PIL.Image -> nat -> nat -> list Z.
Variable data_augmentation : nat -> np.ndarray -> np.ndarray.
Variable output_dir : string.
Variable augmentation_factor : nat.

Abbreviation file_events' :=
  (file_events resample data_augmentation output_dir augmentation_factor).

(** Each event of a file is the opening of the file, the creation of its
    label directory, or a save into that directory under the original name or
    an [aug_i_] name. *)
Lemma file_event_kinds (subdir : string) (entry : string * File) (d : nat)
    (evs : list event) (r : result unit) (e : event) :
  file_events' subdir entry d evs r -> In e evs ->
  is_image_name (fst entry) = true
  /\ (e = EvOpen (join subdir [fst entry])
      \/ e = EvMkdir (join output_dir [basename subdir])
      \/ exists n im,
           e = EvSave (join (join output_dir [basename subdir]) [n]) im
           /\ (n = fst entry \/ exists i, n = aug_name i (fst entry))).
Proof.
  unfold file_events. intros FE Hin.
  destruct (is_image_name (fst entry)).
  2:{ destruct FE as [-> _]. destruct Hin. }
  split; [reflexivity|].
  destruct (snd entry) as [| |img].
  { destruct FE as [-> _]. destruct Hin as [<- | []]. now left. }
  { destruct FE as [-> _]. destruct Hin as [<- | []]. now left. }
  destruct FE as (mk & Hmk & -> & _).
  destruct Hin as [<- | Hin]; [now left|].
  apply in_app_or in Hin as [Hin | Hin].
  { destruct Hmk as [-> | ->]; [destruct Hin|].
    destruct Hin as [<- | []]. right. now left. }
  right. right.
  apply run_saves_In in Hin as (p & a & im & -> & Hplan & _).
  destruct Hplan as [Hplan | Hplan].
  - injection Hplan as <- _. exists (fst entry), im. split; [reflexivity | now left].
  - apply aug_plan_In in Hplan as (k & _ & -> & _).
    eexists _, im. split; [reflexivity|]. right. now exists (0 + k)%nat.
Qed.

Lemma file_events_opened (subdir : string) (entry : string * File) (d : nat)
    (evs : list event) (r : result unit) :
  file_events' subdir entry d evs r ->
  opened_paths evs = source_images [(subdir, entry)].
Proof.
  unfold file_events, source_images. cbn [flat_map fst snd].
  rewrite app_nil_r. intros FE.
  destruct (is_image_name (fst entry)).
  2:{ now destruct FE as [-> _]. }
  destruct (snd entry) as [| |img].
  { now destruct FE as [-> _]. }
  { now destruct FE as [-> _]. }
  destruct FE as (mk & Hmk & -> & _).
  change (EvOpen ?p :: ?l) with ([EvOpen p] ++ l).
  rewrite !opened_paths_app.
  destruct (run_saves_no_dirs
              (planned_saves data_augmentation
                 (join output_dir [basename subdir]) (fst entry)
                 (normalize resample img) augmentation_factor d)) as [_ ->].
  destruct Hmk as [-> | ->]; reflexivity.
Qed.

(** A file that passes the filter and is processed without an exception has
    been opened and saved under its own name in its label directory. *)
Lemma file_events_ok (subdir : string) (entry : string * File) (d : nat)
    (evs : list event) :
  file_events' subdir entry d evs (Ok tt) ->
  is_image_name (fst entry) = true ->
  In (EvOpen (join subdir [fst entry])) evs
  /\ exists im,
       In (EvSave (join (join output_dir [basename subdir]) [fst entry]) im) evs.
Proof.
  unfold file_events. intros FE H. rewrite H in FE.
  destruct (snd entry) as [| |img].
  { destruct FE as [_ FE]. discriminate. }
  { destruct FE as [_ FE]. discriminate. }
  destruct FE as (mk & Hmk & -> & Hr).
  split; [now left|].
  unfold planned_saves in *. cbn [run_saves] in *.
  destruct (save_result _ (normalize resample img)) as [im|e]; [|discriminate].
  exists im. right. apply in_or_app. right. now left.
Qed.

(** A file whose processing raises passes the filter and has been opened. *)
Lemma file_events_raise (subdir : string) (entry : string * File) (d : nat)
    (evs : list event) (e : exn) :
  file_events' subdir entry d evs (Raise e) ->
  is_image_name (fst entry) = true
  /\ In (EvOpen (join subdir [fst entry])) evs.
Proof.
  unfold file_events. intros FE.
  destruct (is_image_name (fst entry)); [|destruct FE as [_ FE]; discriminate].
  split; [reflexivity|].
  destruct (snd entry) as [| |img].
  - destruct FE as [-> _]. now left.
  - destruct FE as [-> _]. now left.
  - destruct FE as (mk & _ & -> & _). now left.
Qed.

End EventFacts.

Section RunEffects.
Import pystr pystr_facts os_path os_path_facts.
Variable resample : PIL.Image -> nat -> nat -> list Z.
Variable data_augmentation : nat -> np.ndarray -> np.ndarray.
Variable dataset : Tree.
Variables dataset_dir output_dir : string.
Variable augmentation_factor : nat.

Abbreviation flat' := (flat_files (walk dataset_dir dataset)).

Lemma opened_concat (done : list (string * (string * File)))
    (evss : list (list event)) :
  Forall2 (fun x evs =>
             exists d, file_events resample data_augmentation output_dir
                         augmentation_factor (fst x) (snd x) d evs (Ok tt))
          done evss ->
  opened_paths (concat evss) = source_images done.
Proof.
  induction 1 as [|x evs done evss [d FE] F IH]; [reflexivity|].
  cbn [concat]. rewrite opened_paths_app, IH.
  change (x :: done) with ([x] ++ done). rewrite source_images_app.
  f_equal. destruct x as [subdir entry].
  exact (file_events_opened _ _ _ _ _ _ _ _ _ FE).
Qed.

(** Where the events of a run come from, which files it opens and what it
    leaves on disk. *)
Lemma run_effects (w : World) :
  exists w' r evs,
    augment_and_save_images resample data_augmentation dataset dataset_dir
      output_dir augmentation_factor w = (w', r)
    /\ advances w w' evs
    /\ (forall e, In e evs ->
          e = EvMkdir output_dir
          \/ exists subdir entry,
               In (subdir, entry) flat' /\ is_image_name (fst entry) = true
               /\ (e = EvOpen (join subdir [fst entry])
                   \/ e = EvMkdir (join output_dir [basename subdir])
                   \/ exists n im,
                        e = EvSave (join (join output_dir [basename subdir]) [n]) im
                        /\ (n = fst entry \/ exists i, n = aug_name i (fst entry))))
    /\ (exists rest, source_images flat' = opened_paths evs ++ rest
                     /\ (r = Ok tt -> rest = []))
    /\ (r = Ok tt ->
        forall subdir entry,
          In (subdir, entry) flat' -> is_image_name (fst entry) = true ->
          In (EvOpen (join subdir [fst entry])) evs
          /\ exists im,
               In (EvSave (join (join output_dir [basename subdir]) [fst entry]) im)
                  evs).
Proof.
  destruct (run_summary resample data_augmentation dataset dataset_dir
              output_dir augmentation_factor w)
    as (w' & r & mk & done & evss & last & E & A & Hmk & F & Hend).
  exists w', r, (mk ++ concat evss ++ last).
  split; [exact E|]. split; [exact A|].
  assert (Hdone : forall x, In x done -> In x flat').
  { destruct Hend as [(_ & -> & _) | (x & post & e & -> & _ & _)]; [auto|].
    intros y Hy. apply in_or_app. now left. }
  split; [|split].
  - intros e Hin. apply in_app_or in Hin as [Hin | Hin].
    { destruct Hmk as [-> | ->]; [destruct Hin|].
      destruct Hin as [<- | []]. now left. }
    right. apply in_app_or in Hin as [Hin | Hin].
    + destruct (Forall2_concat_In _ _ _ _ F Hin) as ([subdir entry] & evs & Hx & [d FE] & He).
      exists subdir, entry. split; [now apply Hdone|].
      exact (file_event_kinds _ _ _ _ _ _ _ _ _ _ FE He).
    + destruct Hend as [(_ & _ & ->) | ([subdir entry] & post & e' & Hf & _ & [d FE])];
        [destruct Hin|].
      exists subdir, entry. split.
      * rewrite Hf. apply in_or_app. right. now left.
      * exact (file_event_kinds _ _ _ _ _ _ _ _ _ _ FE Hin).
  - rewrite !opened_paths_app, (opened_concat _ _ F).
    replace (opened_paths mk) with (@nil string)
      by (destruct Hmk as [-> | ->]; reflexivity).
    cbn [app].
    destruct Hend as [(_ & -> & ->) | ([subdir entry] & post & e' & Hf & -> & [d FE])].
    + exists []. now rewrite !app_nil_r.
    + exists (source_images post). split; [|discriminate].
      rewrite Hf. change ((subdir, entry) :: post) with ([(subdir, entry)] ++ post).
      rewrite !source_images_app, <- app_assoc. f_equal. f_equal.
      symmetry. exact (file_events_opened _ _ _ _ _ _ _ _ _ FE).
  - intros Hr subdir entry Hin Him.
    destruct Hend as [(_ & -> & ->) | (x & post & e' & _ & -> & _)]; [|discriminate].
    destruct (Forall2_In_l _ _ _ _ F Hin) as (evs & [d FE] & Hsub).
    destruct (file_events_ok _ _ _ _ _ _ _ _ FE Him) as (Ho & im & Hs).
    split.
    + apply in_or_app. right. apply in_or_app. left. now apply Hsub.
    + exists im. apply in_or_app. right. apply in_or_app. left. now apply Hsub.
Qed.

End RunEffects.

(** ** Claims about the whole run *)

Section RunClaims.
Import pystr pystr_facts os_path os_path_facts.
Variable resample : PIL.Image -> nat -> nat -> list Z.
Variable data_augmentation : nat -> np.ndarray -> np.ndarray.

(** C8: when a file raises, the run ends there with that exception: the
    files after it in walk order change nothing, the calls made after the
    files before it are those of the failing file alone, and what was saved
    before is still there. *)
Theorem exception_aborts_run (dataset : Tree) (dataset_dir output_dir : string)
    (augmentation_factor : nat) (pre post : list (string * (string * File)))
    (x : string * (string * File)) (w w1 w2 : World) (e : exn) :
  let step := fun sf : string * (string * File) =>
    process_file resample data_augmentation output_dir augmentation_factor
      (fst sf) (snd sf) in
  flat_files (walk dataset_dir dataset) = pre ++ x :: post ->
  chain step pre (fst (create_dir output_dir w)) w1 ->
  step x w1 = (w2, Raise e) ->
  augment_and_save_images resample data_augmentation dataset dataset_dir
    output_dir augmentation_factor w = (w2, Raise e)
  /\ (create_dir output_dir ;;; for_each (pre ++ [x]) step) w = (w2, Raise e)
  /\ (exists evs,
        advances w1 w2 evs
        /\ exists d, file_events resample data_augmentation output_dir
                       augmentation_factor (fst x) (snd x) d evs (Raise e))
  /\ (forall p, is_Some (saved w1 !! p) -> is_Some (saved w2 !! p)).
Proof.
  intros step Hflat C B.
  assert (B' : process_file resample data_augmentation output_dir
                 augmentation_factor (fst x) (snd x) w1 = (w2, Raise e))
    by exact B.
  destruct (create_dir_advances output_dir w) as (w0 & mk & E0 & _ & _ & _).
  rewrite E0 in C. cbn [fst] in C.
  pose proof (chain_for_each _ _ _ _ C) as Hpre.
  assert (Hrun : forall post', (create_dir output_dir ;;;
                                for_each (pre ++ x :: post') step) w
                               = (w2, Raise e)).
  { intros post'. unfold bind at 1. rewrite E0, for_each_app.
    unfold bind at 1. rewrite Hpre. cbn [for_each]. unfold bind. now rewrite B. }
  split; [|split; [|split]].
  - rewrite run_unfold, Hflat. apply Hrun.
  - apply (Hrun []).
  - destruct (step_advances resample data_augmentation output_dir
                augmentation_factor x w1) as (w2' & evs & r & E & A & D).
    rewrite B' in E. injection E as <- <-.
    exists evs. now split.
  - intros p H.
    destruct (step_advances resample data_augmentation output_dir
                augmentation_factor x w1) as (w2' & evs & r & E & A & _).
    rewrite B' in E. injection E as <- <-.
    destruct A as (_ & -> & _). now apply replay_keeps.
Qed.

Lemma at_path_ok (t : Tree) (names : list string) (t' : Tree) :
  at_path t names t' -> tree_ok t = true ->
  List.Forall (fun n => name_ok n = true) names /\ tree_ok t' = true.
Proof.
  induction 1 as [t | fs ds n sub names t' Hin Hat IH]; intros Hok.
  - split; [constructor | exact Hok].
  - cbn [tree_ok] in Hok. apply andb_true_iff in Hok as [_ Hd].
    rewrite forallb_forall in Hd. specialize (Hd _ Hin). cbn [fst snd] in Hd.
    apply andb_true_iff in Hd as [Hn Hs].
    destruct (IH Hs) as [F Hok']. split; [now constructor | exact Hok'].
Qed.

(** The label of the directory reached through [names]: the last name, or
    the basename of the top directory when there is none. *)
Lemma basename_at (top : string) (names : list string) :
  List.Forall (fun n => name_ok n = true) names ->
  basename (join top names) = List.last names (basename top).
Proof.
  intros F. destruct names as [|n0 names] using rev_ind; [reflexivity|].
  apply List.Forall_app in F as [_ F]. inversion F as [|? ? Hn _]; subst.
  rewrite List.last_last. now apply basename_nested.
Qed.

(** C10: every directory of the tree is walked, at any depth, and the
    entries are processed in walk order: all of them when the run completes,
    and up to the first one that raises otherwise, which has been opened.
    Each processed file the filter accepts is opened and saved in the output
    directory named after the last component of its own directory: the
    basename of the source root for files directly in it, the directory's own
    name otherwise, whatever lies above.  Directories with the same name
    therefore share one label directory, where the save that comes last in
    the trace is the one that stays. *)
Theorem label_is_parent_basename (dataset : Tree)
    (dataset_dir output_dir : string) (augmentation_factor : nat) (w : World) :
  tree_ok dataset = true ->
  exists w' r evs done rest,
    augment_and_save_images resample data_augmentation dataset dataset_dir
      output_dir augmentation_factor w = (w', r)
    /\ advances w w' evs
    /\ flat_files (walk dataset_dir dataset) = done ++ rest
    /\ (r = Ok tt -> rest = [])
    /\ (forall e, r = Raise e ->
          exists x post,
            rest = x :: post /\ is_image_name (fst (snd x)) = true
            /\ In (EvOpen (join (fst x) [fst (snd x)])) evs)
    /\ (forall names fs ds file content,
          at_path dataset names (Dir fs ds) -> In (file, content) fs ->
          In (join dataset_dir names, (file, content))
             (flat_files (walk dataset_dir dataset)))
    /\ (forall names fs ds file content,
          at_path dataset names (Dir fs ds) -> In (file, content) fs ->
          is_image_name file = true ->
          In (join dataset_dir names, (file, content)) done ->
          let label := List.last names (basename dataset_dir) in
          In (EvOpen (join (join dataset_dir names) [file])) evs
          /\ exists im, In (EvSave (join (join output_dir [label]) [file]) im) evs)
    /\ (forall p im, In (EvSave p im) evs ->
          exists subdir entry n,
            In (subdir, entry) (flat_files (walk dataset_dir dataset))
            /\ is_image_name (fst entry) = true
            /\ p = join (join output_dir [basename subdir]) [n]
            /\ (n = fst entry \/ exists i, n = aug_name i (fst entry)))
    /\ (forall e1 e2 p im,
          evs = e1 ++ EvSave p im :: e2 -> ~ In p (saved_paths e2) ->
          saved w' !! p = Some im).
Proof.
  intros Hok.
  destruct (run_summary resample data_augmentation dataset dataset_dir
              output_dir augmentation_factor w)
    as (w' & r & mk & done & evss & last & E & A & Hmk & F & Hend).
  assert (Hwalked : forall names fs ds file content,
            at_path dataset names (Dir fs ds) -> In (file, content) fs ->
            In (join dataset_dir names, (file, content))
               (flat_files (walk dataset_dir dataset))).
  { intros names fs ds file content Hat Hin.
    pose proof (walk_reaches _ _ _ _ Hat dataset_dir) as Hw.
    exact (flat_files_In _ _ _ _ _ Hw Hin). }
  assert (Hsplit : exists rest,
            flat_files (walk dataset_dir dataset) = done ++ rest
            /\ (r = Ok tt -> rest = [])
            /\ (forall e, r = Raise e ->
                  exists x post,
                    rest = x :: post /\ is_image_name (fst (snd x)) = true
                    /\ In (EvOpen (join (fst x) [fst (snd x)])) last)).
  { destruct Hend as [(-> & -> & _) | (x & post & e & Hflat & -> & [d FE])].
    - exists []. split; [now rewrite app_nil_r|]. split; [reflexivity|].
      discriminate.
    - exists (x :: post). split; [exact Hflat|]. split; [discriminate|].
      intros e' _. exists x, post. split; [reflexivity|].
      exact (file_events_raise _ _ _ _ _ _ _ _ _ FE). }
  destruct Hsplit as (rest & Hflat & Hrest & Hraise).
  exists w', r, (mk ++ concat evss ++ last), done, rest.
  split; [exact E|]. split; [exact A|]. split; [exact Hflat|].
  split; [exact Hrest|]. split; [|split; [exact Hwalked|split; [|split]]].
  - intros e He. destruct (Hraise e He) as (x & post & Hx & Him & Ho).
    exists x, post. split; [exact Hx|]. split; [exact Him|].
    apply in_or_app. right. apply in_or_app. now right.
  - intros names fs ds file content Hat Hin Him Hdone label.
    destruct (at_path_ok _ _ _ Hat Hok) as [Hnames _].
    destruct (Forall2_In_l _ _ _ _ F Hdone) as (evs & [d FE] & Hsub).
    destruct (file_events_ok _ _ _ _ _ _ _ _ FE Him) as (Ho & im & Hs).
    cbn [fst snd] in Ho, Hs. split.
    + apply in_or_app. right. apply in_or_app. left. now apply Hsub.
    + exists im. subst label. rewrite <- basename_at by exact Hnames.
      apply in_or_app. right. apply in_or_app. left. now apply Hsub.
  - destruct (run_effects resample data_augmentation dataset dataset_dir
                output_dir augmentation_factor w)
      as (w2 & r2 & evs2 & E2 & A2 & Hev & _).
    rewrite E in E2. injection E2 as <- <-.
    assert (Heq : evs2 = mk ++ concat evss ++ last).
    { destruct A as (T1 & _), A2 as (T2 & _). rewrite T1 in T2.
      now apply app_inv_head in T2. }
    subst evs2.
    intros p im Hin. destruct (Hev _ Hin) as [H | (subdir & entry & Hf & Him & H)];
      [discriminate|].
    destruct H as [H | [H | (n & im' & H & Hn)]]; try discriminate.
    injection H as -> _. exists subdir, entry, n. auto.
  - intros e1 e2 p im Hevs Hlast. destruct A as (_ & -> & _).
    rewrite Hevs. now apply replay_last.
Qed.

End RunClaims.

(** ** The source tree and the output tree *)

Section Separation.
Import pystr pystr_facts os_path os_path_facts.

Lemma slashed_of_within (a p : string) :
  (p = a \/ exists r, p = slashed a +:+ r) ->
  exists x, slashed p = slashed a +:+ x.
Proof.
  intros [-> | [r ->]].
  - exists "". now rewrite append_nil_r.
  - unfold slashed at 1.
    destruct (String.eqb (slashed a +:+ r) "" || endswith (slashed a +:+ r) "/").
    + now exists r.
    + exists (r +:+ "/"). now rewrite append_assoc.
Qed.

(** Nothing is at or below both of two separate directories. *)
Lemma separate_within (a b p : string) :
  separate a b = true ->
  (p = a \/ exists r, p = slashed a +:+ r) ->
  (p = b \/ exists r, p = slashed b +:+ r) -> False.
Proof.
  unfold separate. rewrite andb_true_iff, !negb_true_iff. intros [H1 H2] Ha Hb.
  apply slashed_of_within in Ha as [x Hx]. apply slashed_of_within in Hb as [y Hy].
  rewrite Hx in Hy. apply prefix_comparable in Hy as [H | H]; congruence.
Qed.

Lemma under_within (a p : string) :
  under a p -> p = a \/ exists r, p = slashed a +:+ r.
Proof. intros (r & _ & ->). right. now exists r. Qed.

Lemma startswith_append_same (p x y : string) :
  startswith (p +:+ x) (p +:+ y) = startswith x y.
Proof.
  induction p as [|a p IH]; [reflexivity|].
  simpl. now rewrite Ascii.eqb_refl, IH.
Qed.

(** The two directories of the script are separate, wherever it is stored. *)
Lemma script_dirs_separate (P : string) :
  separate (P +:+ "/data/base_data") (P +:+ "/data/data_augmente_data") = true.
Proof.
  assert (S : forall n, n <> "" -> contains sep n = false ->
            slashed (P +:+ "/data/" +:+ n) = P +:+ "/data/" +:+ n +:+ "/").
  { intros n N C. rewrite slashed_clean.
    - now rewrite !append_assoc.
    - destruct P; discriminate.
    - rewrite <- append_assoc. now apply endswith_append_clean. }
  unfold separate.
  change (P +:+ "/data/base_data") with (P +:+ "/data/" +:+ "base_data").
  change (P +:+ "/data/data_augmente_data")
    with (P +:+ "/data/" +:+ "data_augmente_data").
  rewrite !S by (try discriminate; reflexivity).
  now rewrite !startswith_append_same.
Qed.

End Separation.

Section SourceClaim.
Import pystr pystr_facts os_path os_path_facts.
Variable resample : PIL.Image -> nat -> nat -> list Z.
Variable data_augmentation : nat -> np.ndarray -> np.ndarray.

(** The frame property for any two separate directories. *)
Lemma separate_run_frame (dataset : Tree) (dataset_dir output_dir : string)
    (augmentation_factor : nat) (w : World) :
  separate output_dir dataset_dir = true ->
  tree_ok dataset = true -> tree_distinct dataset = true ->
  exists w' r evs,
    augment_and_save_images resample data_augmentation dataset dataset_dir
      output_dir augmentation_factor w = (w', r)
    /\ advances w w' evs
    /\ (forall p, In p (saved_paths evs) ->
          under output_dir p /\ ~ under dataset_dir p)
    /\ (forall p, In p (made_dirs evs) ->
          (p = output_dir \/ exists rest, p = slashed output_dir +:+ rest)
          /\ ~ under dataset_dir p /\ p <> dataset_dir)
    /\ (forall p, under dataset_dir p -> saved w' !! p = saved w !! p)
    /\ (forall p, In p (opened_paths evs) -> under dataset_dir p)
    /\ List.NoDup (opened_paths evs)
    /\ (r = Ok tt ->
        opened_paths evs = source_images (flat_files (walk dataset_dir dataset))).
Proof.
  intros Hsep Hok Hdis.
  destruct (run_effects resample data_augmentation dataset dataset_dir
              output_dir augmentation_factor w)
    as (w' & r & evs & E & A & Hev & (rest & Hopen & Hrest) & _).
  exists w', r, evs. split; [exact E|]. split; [exact A|].
  pose proof (walk_names_ok dataset dataset_dir Hok) as Hnames.
  rewrite List.Forall_forall in Hnames.
  assert (Hsaved : forall p, In p (saved_paths evs) -> under output_dir p).
  { intros p Hin. apply saved_paths_In in Hin as [im Hin].
    destruct (Hev _ Hin) as [H | (subdir & entry & Hf & _ & H)]; [discriminate|].
    destruct H as [H | [H | (n & im' & H & Hn)]]; try discriminate.
    injection H as -> _. apply saved_under_output.
    specialize (Hnames _ Hf). cbn [fst snd] in Hnames.
    destruct Hn as [-> | [i ->]]; [exact Hnames | now apply aug_name_ok]. }
  assert (Hnot : forall p, under output_dir p -> ~ under dataset_dir p).
  { intros p Hu Hu'. apply (separate_within _ _ p Hsep); now apply under_within. }
  split; [|split; [|split; [|split; [|split]]]].
  - intros p Hin. split; [now apply Hsaved | now apply Hnot, Hsaved].
  - intros p Hin. apply made_dirs_In in Hin.
    assert (W : p = output_dir \/ exists rest, p = slashed output_dir +:+ rest).
    { destruct (Hev _ Hin) as [H | (subdir & entry & _ & _ & H)].
      - injection H as ->. now left.
      - destruct H as [H | [H | (n & im' & H & _)]]; try discriminate.
        injection H as ->. right. eexists. apply label_dir_form. }
    split; [exact W|]. split.
    + intros Hu. apply (separate_within _ _ p Hsep W). now apply under_within.
    + intros ->. apply (separate_within _ _ dataset_dir Hsep W). now left.
  - intros p Hu. destruct A as (_ & -> & _). apply replay_other.
    intros Hin. now apply (Hnot p (Hsaved p Hin)).
  - intros p Hin. apply (source_images_under dataset dataset_dir p Hok).
    rewrite Hopen. apply in_or_app. now left.
  - pose proof (source_images_NoDup dataset dataset_dir Hok Hdis) as N.
    rewrite Hopen in N. now apply NoDup_app_remove_r in N.
  - intros Hr. rewrite Hopen, (Hrest Hr). now rewrite app_nil_r.
Qed.

(** C7: in a run of the script, stored as [P/d/f], every save and every
    directory creation is at or below the output directory and never in the
    source tree; what is stored below the source directory is the same after
    the run as before; only image files of the source tree are opened, none
    of them twice, and all of them when the run completes. *)
Theorem source_tree_untouched (P d f : string) (dataset : Tree) (w : World) :
  endswith P "/" = false -> d <> "" ->
  contains sep d = false -> contains sep f = false ->
  tree_ok dataset = true -> tree_distinct dataset = true ->
  let script_file := P +:+ "/" +:+ d +:+ "/" +:+ f in
  let src := data_dir script_file in
  let out := output_dir script_file in
  exists w' r evs,
    main resample data_augmentation script_file dataset w = (w', r)
    /\ advances w w' evs
    /\ (forall p, In p (saved_paths evs) -> under out p /\ ~ under src p)
    /\ (forall p, In p (made_dirs evs) ->
          (p = out \/ exists rest, p = slashed out +:+ rest)
          /\ ~ under src p /\ p <> src)
    /\ (forall p, under src p -> saved w' !! p = saved w !! p)
    /\ (forall p, In p (opened_paths evs) -> under src p)
    /\ List.NoDup (opened_paths evs)
    /\ (r = Ok tt ->
        opened_paths evs = source_images (flat_files (walk src dataset))).
Proof.
  intros HP Hd Hcd Hcf Hok Hdis script_file src out.
  pose proof (data_dir_spelled P d f HP Hd Hcd Hcf) as Hsrc.
  pose proof (output_dir_spelled P d f HP Hd Hcd Hcf) as Hout.
  fold script_file in Hsrc, Hout. fold src in Hsrc. fold out in Hout.
  unfold main. fold src. fold out.
  apply separate_run_frame; [|exact Hok|exact Hdis].
  rewrite Hsrc, Hout. unfold separate. rewrite andb_comm.
  apply script_dirs_separate.
Qed.

End SourceClaim.

(** ** The theorems at the sample inputs *)

Section Witnesses.
Import np PIL Sample.

Lemma nearest_length (im : Image) (w h : nat) :
  length (nearest im w h) = (h * w * bands (mode im))%nat.
Proof.
  unfold nearest.
  assert (P : forall r c, length (pixel_at im r c) = bands (mode im)).
  { intros r c. unfold pixel_at. rewrite length_firstn, length_app, repeat_length.
    lia. }
  assert (F : forall A (g : A -> list Z) (l : list A) (b : nat),
            (forall x, length (g x) = b) ->
            length (flat_map g l) = (length l * b)%nat).
  { intros A g l b Hg. induction l as [|x l IH]; [reflexivity|].
    cbn [flat_map]. rewrite length_app, Hg, IH. simpl. lia. }
  rewrite (F _ _ (seq 0 h) (w * bands (mode im))%nat).
  - rewrite length_seq. lia.
  - intros r. rewrite (F _ _ (seq 0 w) (bands (mode im))).
    + now rewrite length_seq.
    + intros c. apply P.
Qed.

Lemma contrast_shape (n : nat) (a : ndarray) : shape (contrast n a) = shape a.
Proof. reflexivity. Qed.

(** The gray and the RGBA sample under nearest-neighbour resampling. *)
Lemma channel_coercion_witness :
  (forall r c k, (k < 3)%nat ->
     get3 (normalize nearest gray) r c k
     = get2 (array (resize nearest gray IMAGE_SIZE IMAGE_SIZE)) r c)
  /\ shape (normalize nearest rgba) = [IMAGE_SIZE; IMAGE_SIZE; 3%nat].
Proof.
  split.
  - apply (proj1 (channel_coercion nearest gray eq_refl nearest_length)).
    reflexivity.
  - apply (proj1 (proj2 (channel_coercion nearest rgba eq_refl nearest_length))).
    reflexivity.
Defined.

(** An image that already has the target size and mode. *)
Lemma normalize_idempotent_witness :
  normalize nearest rgb256 = array rgb256
  /\ fromarray (normalize nearest rgb256) = Ok rgb256.
Proof.
  destruct (normalize_idempotent nearest rgb256 eq_refl eq_refl eq_refl)
    as (H1 & _ & _ & H2).
  split; [exact H1 | exact H2].
Defined.

(** The script at its place in the repository, over the sample tree. *)
Lemma source_tree_untouched_witness :
  exists w' r evs,
    main nearest contrast script_file tree empty_world = (w', r)
    /\ advances empty_world w' evs
    /\ (forall p, In p (saved_paths evs) ->
          under (output_dir script_file) p /\ ~ under (data_dir script_file) p)
    /\ List.NoDup (opened_paths evs).
Proof.
  destruct (source_tree_untouched nearest contrast
              "/home/user/tumor/training" "data_augmente" "data_augmente.py"
              tree empty_world eq_refl ltac:(discriminate) eq_refl eq_refl
              eq_refl eq_refl)
    as (w' & r & evs & E & A & Hs & _ & _ & _ & Hn & _).
  exists w', r, evs. split; [exact E|]. split; [exact A|].
  split; [exact Hs | exact Hn].
Defined.

(** The corrupt [glioma/bad.png] of the broken tree ends the run. *)
Lemma exception_aborts_run_witness :
  exists w2,
    main nearest contrast script_file broken_tree empty_world
    = (w2, Raise UnidentifiedImageError).
Proof.
  set (src := data_dir script_file).
  set (out := output_dir script_file).
  set (w0 := fst (create_dir out empty_world)).
  destruct (process_file_returns nearest contrast out AUGMENTATION_FACTOR
              src "top" ".png" gray w0
              (or_intror (or_intror (or_introl eq_refl))) eq_refl eq_refl eq_refl
              ltac:(discriminate) contrast_shape) as (w1 & E1).
  destruct (process_file_undecodable nearest contrast out AUGMENTATION_FACTOR
              (os_path.join src ["glioma"]) "bad.png" w1 eq_refl) as (w2 & E2 & _).
  exists w2.
  change ("top" +:+ ".png") with "top.png" in E1.
  pose (C := chain_cons
          (fun sf : string * (string * File) =>
             process_file nearest contrast out AUGMENTATION_FACTOR
               (fst sf) (snd sf))
          (src, ("top.png", Picture gray)) [] w0 w1 w1 E1 (chain_nil _ w1)).
  exact (proj1 (exception_aborts_run nearest contrast broken_tree src out
                  AUGMENTATION_FACTOR
                  [(src, ("top.png", Picture gray))]
                  [(os_path.join src ["glioma"], ("img1.jpg", Picture gray))]
                  (os_path.join src ["glioma"], ("bad.png", Undecodable))
                  empty_world w1 w2 UnidentifiedImageError eq_refl C E2)).
Defined.

End Witnesses.

(** * The calls of a run in detail *)

(** ** [create_dir] (lines 38-46) *)

Lemma os_path_exists_eq (p : string) (w : World) :
  os_path_exists p w = (w, Ok (path_exists p w)).
Proof. reflexivity. Qed.

(** What [create_dir] does, by whether the path exists. *)
Lemma create_dir_detail (p : string) (w : World) :
  create_dir p w
  = (if path_exists p w then w
     else {| saved := saved w; dirs := {[p]} ∪ dirs w; draws := draws w;
             trace := trace w ++ [EvMkdir p] |},
     Ok tt).
Proof.
  unfold create_dir, bind. rewrite os_path_exists_eq.
  now destruct (path_exists p w).
Qed.

(** ** One picture in detail (lines 61-97) *)

Section PictureDetail.
Import pystr os_path.
Variable resample : PIL.Image -> nat -> nat -> list Z.
Variable data_augmentation : nat -> np.ndarray -> np.ndarray.

(** The loop of lines 87-97 with its use of the random generator: one draw
    per iteration started. *)
Lemma aug_loop_detail (label_dir file : string) (img_array : np.ndarray)
    (n i : nat) (w : World) :
  let plan := aug_plan data_augmentation label_dir file img_array n i (draws w) in
  exists w',
    for_each (seq i n) (fun i =>
      augmented_img <- augment data_augmentation img_array ;;
      augmented_img_pil <- Image_fromarray augmented_img ;;
      Image_save augmented_img_pil (join label_dir [aug_name i file])) w
    = (w', snd (run_saves plan))
    /\ advances w w' (fst (run_saves plan))
    /\ (draws w <= draws w' <= draws w + n)%nat
    /\ (snd (run_saves plan) = Ok tt -> draws w' = (draws w + n)%nat).
Proof.
  revert i w. induction n as [|n IH]; intros i w plan; subst plan.
  - exists w. split; [reflexivity|]. split; [apply advances_refl|].
    split; [lia | intros _; lia].
  - simpl seq. simpl for_each. simpl aug_plan. simpl run_saves.
    unfold bind at 1. unfold bind at 1. unfold augment at 1.
    set (w0 := {| saved := saved w; dirs := dirs w; draws := S (draws w);
                  trace := trace w |}).
    destruct (attempt_advances (augmented data_augmentation (draws w) img_array)
                (join label_dir [aug_name i file]) w0)
      as (w1 & E1 & A1 & D1).
    rewrite E1.
    assert (A0 : forall evs, advances w0 w1 evs -> advances w w1 evs)
      by (intros evs H; exact H).
    assert (D0 : draws w1 = S (draws w)) by (rewrite D1; reflexivity).
    destruct (save_result _ _) as [im|e].
    + destruct (IH (S i) w1) as (w2 & E2 & A2 & B2 & O2).
      rewrite D0 in E2, A2, B2, O2. cbv zeta in E2, A2, O2. cbn [fst snd].
      exists w2. split; [exact E2|]. split.
      * apply (advances_trans w w1 w2 [EvSave _ im]); [now apply A0 | exact A2].
      * split; [lia|]. intros H. specialize (O2 H). lia.
    + exists w1. split; [reflexivity|]. split; [now apply A0|].
      cbn [snd]. split; [lia | discriminate].
Qed.

(** A picture under an accepted name: the file is opened, the label
    directory is created exactly when it does not exist, then the planned
    saves are made up to the first that raises. *)
Lemma process_file_picture (output_dir : string) (augmentation_factor : nat)
    (subdir file : string) (img : PIL.Image) (w : World) :
  is_image_name file = true ->
  let label_dir := join output_dir [basename subdir] in
  let plan := planned_saves data_augmentation label_dir file
                (normalize resample img) augmentation_factor (draws w) in
  exists w',
    process_file resample data_augmentation output_dir augmentation_factor
      subdir (file, Picture img) w = (w', snd (run_saves plan))
    /\ advances w w'
         (EvOpen (join subdir [file])
            :: (if path_exists label_dir w then [] else [EvMkdir label_dir])
            ++ fst (run_saves plan))
    /\ (draws w <= draws w' <= draws w + augmentation_factor)%nat
    /\ (snd (run_saves plan) = Ok tt ->
        draws w' = (draws w + augmentation_factor)%nat)
    /\ (saved_paths (fst (run_saves plan)) = [] -> draws w' = draws w).
Proof.
  intros Him label_dir plan.
  unfold process_file. cbn [fst snd].
  unfold is_image_name in Him. rewrite Him.
  unfold bind at 1. unfold Image_open, bind at 1, log.
  set (w0 := {| saved := saved w; dirs := dirs w; draws := draws w;
                trace := trace w ++ [EvOpen (join subdir [file])] |}).
  assert (A0 : advances w w0 [EvOpen (join subdir [file])]).
  { unfold advances; simpl. repeat split. set_solver. }
  unfold ret at 1. unfold bind at 1. fold label_dir.
  rewrite create_dir_detail.
  change (path_exists label_dir w0) with (path_exists label_dir w).
  set (mk := if path_exists label_dir w then [] else [EvMkdir label_dir]).
  set (w1 := if path_exists label_dir w then w0
             else {| saved := saved w0; dirs := {[label_dir]} ∪ dirs w0;
                     draws := draws w0; trace := trace w0 ++ [EvMkdir label_dir] |}).
  assert (A1 : advances w0 w1 mk).
  { subst w1 mk. destruct (path_exists label_dir w); [apply advances_refl|].
    unfold advances; simpl. repeat split. set_solver. }
  assert (D1 : draws w1 = draws w)
    by (subst w1; now destruct (path_exists label_dir w)).
  assert (A01 : advances w w1 (EvOpen (join subdir [file]) :: mk))
    by apply (advances_trans w w0 w1 [EvOpen _] mk A0 A1).
  set (arr := normalize resample img) in *.
  subst plan. unfold planned_saves. cbn [run_saves].
  unfold bind at 1. unfold Image_fromarray.
  destruct (PIL.fromarray arr) as [im0|e] eqn:F.
  - unfold ret at 1. unfold bind at 1.
    destruct (Image_save_result im0 arr (join label_dir [file]) w1 F)
      as (w2 & E2 & A2 & D2).
    rewrite E2.
    destruct (save_result (join label_dir [file]) arr) as [im|e].
    + destruct (aug_loop_detail label_dir file arr augmentation_factor 0 w2)
        as (w3 & E3 & A3 & B3 & O3).
      rewrite D2, D1 in E3, A3, B3, O3. cbv zeta in E3, A3, O3.
      exists w3. cbn [fst snd]. split; [exact E3|]. split.
      * replace (EvOpen (join subdir [file])
                   :: mk ++ EvSave (join label_dir [file]) im
                   :: fst (run_saves (aug_plan data_augmentation label_dir file
                                        arr augmentation_factor 0 (draws w))))
          with ((EvOpen (join subdir [file]) :: mk)
                  ++ [EvSave (join label_dir [file]) im]
                  ++ fst (run_saves (aug_plan data_augmentation label_dir file
                                       arr augmentation_factor 0 (draws w))))
          by reflexivity.
        rewrite app_assoc.
        apply (advances_trans w w2 w3 _ _
                 (advances_trans w w1 w2 _ _ A01 A2) A3).
      * split; [exact B3|]. split; [exact O3 | discriminate].
    + exists w2. cbn [fst snd]. split; [reflexivity|]. split.
      * rewrite app_nil_r.
        pose proof (advances_trans w w1 w2 _ _ A01 A2) as H.
        now rewrite app_nil_r in H.
      * rewrite D2, D1. split; [lia|]. split; [discriminate | reflexivity].
  - exists w1. unfold raise, save_result. rewrite F. cbn [fst snd].
    split; [reflexivity|]. split; [now rewrite app_nil_r|].
    rewrite D1. split; [lia|]. split; [discriminate | reflexivity].
Qed.

End PictureDetail.

(** ** Extensions as [os.path.splitext] sees them *)

Section ExtensionFacts.
Import pystr pystr_facts os_path os_path_facts.

Lemma splitext_join (d n : string) :
  contains sep n = false -> splitext_ext (join d [n]) = splitext_ext n.
Proof.
  intros C. unfold splitext_ext.
  rewrite (basename_join d n C). unfold basename.
  now rewrite (rcut_clean sep n C).
Qed.

Lemma all_dots_clean (s : string) : all_char "."%char s = true -> contains sep s = false.
Proof.
  induction s as [|a s IH]; [reflexivity|]. simpl.
  rewrite andb_true_iff. intros [E H]. apply Ascii.eqb_eq in E as ->.
  now rewrite (IH H).
Qed.

(** The extension of a name that ends in one of the accepted suffixes: the
    suffix, unless everything before it is dots. *)
Lemma splitext_accepted (stem suf : string) :
  In suf [".jpg"; ".jpeg"; ".png"] ->
  contains sep (stem +:+ suf) = false ->
  splitext_ext (stem +:+ suf) = if all_char "."%char stem then "" else suf.
Proof.
  intros Hs Hc. unfold splitext_ext, basename.
  rewrite (rcut_clean sep _ Hc). cbn [snd].
  assert (R : forall e, contains "."%char e = false ->
            match rcut "."%char (stem +:+ String "."%char e) with
            | (EmptyString, _) => EmptyString
            | (h, t) => if all_char "."%char (drop_last h) then EmptyString
                        else String "."%char t
            end = if all_char "."%char stem then "" else String "."%char e).
  { intros e He. rewrite rcut_append by exact He.
    destruct (stem +:+ String "."%char "") as [|h0 h] eqn:Eh.
    - destruct stem; discriminate.
    - now rewrite <- Eh, drop_last_append. }
  destruct Hs as [<- | [<- | [<- | []]]].
  - change (stem +:+ ".jpg") with (stem +:+ String "."%char "jpg"). now rewrite R.
  - change (stem +:+ ".jpeg") with (stem +:+ String "."%char "jpeg"). now rewrite R.
  - change (stem +:+ ".png") with (stem +:+ String "."%char "png"). now rewrite R.
Qed.

Lemma accepted_suffix (file : string) :
  is_image_name file = true ->
  exists stem suf, file = stem +:+ suf /\ In suf [".jpg"; ".jpeg"; ".png"].
Proof.
  intros H. apply is_image_name_spec in H as (stem & [-> | [-> | ->]]);
    eexists stem, _; (split; [reflexivity|]); simpl; auto.
Qed.

(** A listing name the filter accepts and in which [splitext] finds an
    extension has something other than dots before its suffix. *)
Lemma accepted_with_extension (file : string) :
  is_image_name file = true -> name_ok file = true ->
  splitext_ext file <> "" ->
  exists stem suf,
    file = stem +:+ suf /\ In suf [".jpg"; ".jpeg"; ".png"]
    /\ all_char "."%char stem = false.
Proof.
  intros Him Hn He. apply name_ok_spec in Hn as [_ C].
  destruct (accepted_suffix file Him) as (stem & suf & -> & Hs).
  exists stem, suf. split; [reflexivity|]. split; [exact Hs|].
  rewrite (splitext_accepted stem suf Hs C) in He.
  now destruct (all_char "."%char stem).
Qed.

End ExtensionFacts.

(** ** Properties of one directory entry *)

Lemma saved_images_app (e1 e2 : list event) :
  saved_images (e1 ++ e2) = saved_images e1 ++ saved_images e2.
Proof. unfold saved_images. apply flat_map_app. Qed.

Lemma run_saves_images (plan : list (string * np.ndarray)) :
  snd (run_saves plan) = Ok tt ->
  map PIL.pixels (saved_images (fst (run_saves plan)))
  = map (fun pa => np.data (snd pa)) plan.
Proof.
  induction plan as [|[p a] plan IH]; [reflexivity|].
  cbn [run_saves]. destruct (save_result p a) as [im|e] eqn:S; [|discriminate].
  cbn [fst snd]. intros H. cbn [saved_images flat_map app map].
  fold (saved_images (fst (run_saves plan))). rewrite (IH H). f_equal.
  apply PIL_facts.save_result_fromarray in S.
  now apply PIL_facts.fromarray_pixels in S.
Qed.

Lemma aug_plan_arrays (data_augmentation : nat -> np.ndarray -> np.ndarray)
    (label_dir file : string) (arr : np.ndarray) (n i d : nat) :
  map snd (aug_plan data_augmentation label_dir file arr n i d)
  = map (fun j => augmented data_augmentation j arr) (seq d n).
Proof.
  revert i d. induction n as [|n IH]; intros i d; [reflexivity|].
  cbn [aug_plan map seq snd]. now rewrite IH.
Qed.

Section EntryProperties.
Import pystr pystr_facts os_path os_path_facts np PIL PIL_facts.
Variable resample : Image -> nat -> nat -> list Z.
Variable data_augmentation : nat -> ndarray -> ndarray.

(** The file saved under the original name holds the normalized picture as
    it is, dark values included; when the file is processed without an
    exception, copy number [i] is the augmentation of that same normalized
    picture for a draw of its own (the draws follow one another, none is
    used twice), and the file has used [augmentation_factor] draws. *)
Theorem copies_come_from_the_original (output_dir : string)
    (augmentation_factor : nat) (subdir file : string) (img : Image)
    (w : World) :
  is_image_name file = true ->
  exists w' r evs,
    process_file resample data_augmentation output_dir augmentation_factor
      subdir (file, Picture img) w = (w', r)
    /\ advances w w' evs
    /\ (forall im, head (saved_images evs) = Some im ->
          pixels im = data (normalize resample img))
    /\ (r = Ok tt ->
        map pixels (saved_images evs)
        = data (normalize resample img)
            :: map (fun j => data (augmented data_augmentation j
                                     (normalize resample img)))
                   (seq (draws w) augmentation_factor)
        /\ draws w' = (draws w + augmentation_factor)%nat).
Proof.
  intros Him.
  destruct (process_file_picture resample data_augmentation output_dir
              augmentation_factor subdir file img w Him)
    as (w' & E & A & _ & Hd & _).
  set (label_dir := join output_dir [basename subdir]) in *.
  set (plan := planned_saves data_augmentation label_dir file
                 (normalize resample img) augmentation_factor (draws w)) in *.
  exists w', (snd (run_saves plan)). eexists.
  split; [exact E|]. split; [exact A|].
  assert (Himg : forall l, saved_images
                   (EvOpen (join subdir [file])
                      :: (if path_exists label_dir w then []
                          else [EvMkdir label_dir]) ++ l)
                 = saved_images l).
  { intros l. change (EvOpen ?p :: ?x) with ([EvOpen p] ++ x).
    rewrite !saved_images_app. now destruct (path_exists label_dir w). }
  rewrite Himg. split.
  - intros im. subst plan. unfold planned_saves. cbn [run_saves].
    destruct (save_result (join label_dir [file]) (normalize resample img))
      as [im0|e] eqn:S; [|discriminate].
    cbn [fst saved_images flat_map app head]. intros H. injection H as <-.
    apply save_result_fromarray in S. now apply fromarray_pixels in S.
  - intros Hr. split; [|now apply Hd].
    rewrite (run_saves_images plan Hr). subst plan. unfold planned_saves.
    cbn [map snd]. f_equal.
    rewrite <- (map_map snd data), aug_plan_arrays. now rewrite map_map.
Qed.

(** A one-band picture whose band is not 8-bit (a 1-bit mask, mode "1";
    32-bit integers, mode "I"; floats, mode "F"): line 74 stacks it into a
    three-channel array of the same element type, for which
    [Image.fromarray] raises [TypeError].  By then the file has been opened
    and its label directory created if it was missing; nothing is saved and
    no draw is used. *)
Theorem wide_pixels_raise_type_error (output_dir : string)
    (augmentation_factor : nat) (subdir file : string) (img : Image)
    (w : World) :
  is_image_name file = true ->
  In (mode img) [M_1; M_I; M_F] ->
  let label_dir := join output_dir [basename subdir] in
  exists w',
    process_file resample data_augmentation output_dir augmentation_factor
      subdir (file, Picture img) w = (w', Raise TypeError)
    /\ advances w w'
         (EvOpen (join subdir [file])
            :: (if path_exists label_dir w then [] else [EvMkdir label_dir]))
    /\ draws w' = draws w.
Proof.
  intros Him Ht label_dir.
  destruct (process_file_picture resample data_augmentation output_dir
              augmentation_factor subdir file img w Him)
    as (w' & E & A & _ & _ & Hd).
  fold label_dir in E, A, Hd.
  assert (S : save_result (join label_dir [file]) (normalize resample img)
              = Raise TypeError).
  { unfold save_result, fromarray.
    rewrite normalize_shape, normalize_dtype. cbn [skipn].
    destruct (mode img); try reflexivity;
      exfalso; simpl in Ht; intuition discriminate. }
  unfold planned_saves in E, A, Hd. cbn [run_saves] in E, A, Hd.
  rewrite S in E, A, Hd. cbn [fst snd] in E, A, Hd.
  rewrite app_nil_r in A.
  exists w'. split; [exact E|]. split; [exact A | now apply Hd].
Qed.

(** A gray+alpha picture under a JPEG name: the two-channel array becomes an
    "LA" image, which the JPEG encoder refuses with [OSError]; nothing is
    saved. *)
Theorem two_band_jpeg_raises (output_dir : string)
    (augmentation_factor : nat) (subdir stem suf : string) (img : Image)
    (w : World) :
  In suf [".jpg"; ".jpeg"] ->
  name_ok (stem +:+ suf) = true ->
  all_char "."%char stem = false ->
  mode img = M_LA ->
  let label_dir := join output_dir [basename subdir] in
  exists w',
    process_file resample data_augmentation output_dir augmentation_factor
      subdir (stem +:+ suf, Picture img) w = (w', Raise OSError)
    /\ advances w w'
         (EvOpen (join subdir [stem +:+ suf])
            :: (if path_exists label_dir w then [] else [EvMkdir label_dir]))
    /\ draws w' = draws w.
Proof.
  intros Hs Hn Hd Hm label_dir. apply name_ok_spec in Hn as [_ Hc].
  assert (Hs' : In suf [".jpg"; ".jpeg"; ".png"])
    by (destruct Hs as [<- | [<- | []]]; simpl; auto).
  assert (Him : is_image_name (stem +:+ suf) = true).
  { apply is_image_name_spec. exists stem.
    destruct Hs as [<- | [<- | []]]; auto. }
  destruct (process_file_picture resample data_augmentation output_dir
              augmentation_factor subdir (stem +:+ suf) img w Him)
    as (w' & E & A & _ & _ & Hdr).
  fold label_dir in E, A, Hdr.
  assert (S : save_result (join label_dir [stem +:+ suf])
                (normalize resample img) = Raise OSError).
  { unfold save_result.
    rewrite (fromarray_channels _ IMAGE_SIZE IMAGE_SIZE 2).
    - rewrite (save_format _ stem suf Hs' Hc Hd). cbn [mode Nat.eqb].
      destruct Hs as [<- | [<- | []]]; reflexivity.
    - rewrite normalize_shape, Hm. reflexivity.
    - rewrite normalize_dtype, Hm. reflexivity.
    - now left. }
  unfold planned_saves in E, A, Hdr. cbn [run_saves] in E, A, Hdr.
  rewrite S in E, A, Hdr. cbn [fst snd] in E, A, Hdr.
  rewrite app_nil_r in A.
  exists w'. split; [exact E|]. split; [exact A | now apply Hdr].
Qed.

(** A name made of dots and an accepted suffix (".png", "..jpg") passes the
    filter of line 61, but [os.path.splitext] finds no extension in it, so
    the save of line 84 raises [ValueError] for a picture with 8-bit bands;
    nothing is saved. *)
Theorem dot_name_raises_value_error (output_dir : string)
    (augmentation_factor : nat) (subdir stem suf : string) (img : Image)
    (w : World) :
  In suf [".jpg"; ".jpeg"; ".png"] ->
  all_char "."%char stem = true ->
  typestr (mode img) = uint8 ->
  let label_dir := join output_dir [basename subdir] in
  is_image_name (stem +:+ suf) = true
  /\ exists w',
       process_file resample data_augmentation output_dir augmentation_factor
         subdir (stem +:+ suf, Picture img) w = (w', Raise ValueError)
       /\ advances w w'
            (EvOpen (join subdir [stem +:+ suf])
               :: (if path_exists label_dir w then [] else [EvMkdir label_dir]))
       /\ draws w' = draws w.
Proof.
  intros Hs Hd Ht label_dir.
  assert (Hc : contains sep (stem +:+ suf) = false).
  { rewrite contains_append, (all_dots_clean stem Hd).
    destruct Hs as [<- | [<- | [<- | []]]]; reflexivity. }
  assert (Him : is_image_name (stem +:+ suf) = true).
  { apply is_image_name_spec. exists stem.
    destruct Hs as [<- | [<- | [<- | []]]]; auto. }
  split; [exact Him|].
  destruct (process_file_picture resample data_augmentation output_dir
              augmentation_factor subdir (stem +:+ suf) img w Him)
    as (w' & E & A & _ & _ & Hdr).
  fold label_dir in E, A, Hdr.
  assert (S : save_result (join label_dir [stem +:+ suf])
                (normalize resample img) = Raise ValueError).
  { unfold save_result.
    rewrite (fromarray_channels _ IMAGE_SIZE IMAGE_SIZE
               (channels_after (mode img))).
    - rewrite (splitext_join _ _ Hc), (splitext_accepted stem suf Hs Hc), Hd.
      reflexivity.
    - apply normalize_shape.
    - now rewrite normalize_dtype.
    - destruct (mode img); auto. }
  unfold planned_saves in E, A, Hdr. cbn [run_saves] in E, A, Hdr.
  rewrite S in E, A, Hdr. cbn [fst snd] in E, A, Hdr.
  rewrite app_nil_r in A.
  exists w'. split; [exact E|]. split; [exact A | now apply Hdr].
Qed.

(** A CMYK picture takes the branch of line 77: its first three bands are
    kept as they are and written as if they were red, green and blue. *)
Theorem cmyk_bands_kept (img : Image) :
  wf_image img ->
  (forall im w h, length (resample im w h) = (h * w * bands (mode im))%nat) ->
  mode img = M_CMYK ->
  let resized := array (resize resample img IMAGE_SIZE IMAGE_SIZE) in
  shape (normalize resample img) = [IMAGE_SIZE; IMAGE_SIZE; 3%nat]
  /\ dtype_of (normalize resample img) = uint8
  /\ fromarray_mode [3%nat] (dtype_of (normalize resample img)) = Some M_RGB
  /\ forall r c k, (r < IMAGE_SIZE)%nat -> (c < IMAGE_SIZE)%nat -> (k < 3)%nat ->
       get3 (normalize resample img) r c k = get3 resized r c k.
Proof.
  intros Hwf Hres HM resized.
  pose proof (resize_mode resample img IMAGE_SIZE IMAGE_SIZE) as Hm.
  pose proof (resize_width resample img IMAGE_SIZE IMAGE_SIZE) as Hw.
  pose proof (resize_height resample img IMAGE_SIZE IMAGE_SIZE) as Hh.
  assert (Hlen : wf_image (resize resample img IMAGE_SIZE IMAGE_SIZE)).
  { unfold resize. destruct (_ && _); [exact Hwf|]. unfold wf_image.
    cbn [mode width height pixels]. apply Hres. }
  unfold wf_image in Hlen. rewrite Hm, Hw, Hh in Hlen.
  subst resized. unfold normalize.
  destruct (resize resample img IMAGE_SIZE IMAGE_SIZE) as [m wd ht px].
  cbn [mode width height pixels] in Hm, Hw, Hh, Hlen. subst m wd ht.
  rewrite HM in *.
  split; [reflexivity|]. split; [reflexivity|]. split; [reflexivity|].
  intros r c k Hr Hc Hk.
  transitivity (nth ((r * IMAGE_SIZE + c) * 3 + k)
                  (flat_map (firstn 3)
                     (chunks_of (IMAGE_SIZE * IMAGE_SIZE) 4 px)) 0%Z);
    [reflexivity|].
  transitivity (nth ((r * IMAGE_SIZE + c) * 4 + k) px 0%Z); [|reflexivity].
  apply np_facts.nth_first3_chunks; [| exact Hk |].
  - nia.
  - rewrite Hlen. cbn [bands]. lia.
Qed.

End EntryProperties.

(** ** The run as a whole (lines 48-97) *)

Lemma for_each_ok {A} (body : A -> M unit) (xs : list A) :
  (forall x, In x xs -> forall w, exists w', body x w = (w', Ok tt)) ->
  forall w, exists w', for_each xs body w = (w', Ok tt).
Proof.
  induction xs as [|x xs IH]; intros H w.
  - now exists w.
  - cbn [for_each]. unfold bind.
    destruct (H x (or_introl eq_refl) w) as [w1 ->].
    apply IH. intros y Hy. apply H. now right.
Qed.

Lemma for_each_skip {A} (body : A -> M unit) (xs : list A) :
  (forall x, In x xs -> forall w, body x w = (w, Ok tt)) ->
  forall w, for_each xs body w = (w, Ok tt).
Proof.
  induction xs as [|x xs IH]; intros H w; [reflexivity|].
  cbn [for_each]. unfold bind. rewrite (H x (or_introl eq_refl) w).
  apply IH. intros y Hy. apply H. now right.
Qed.

Lemma source_images_nil (flat : list (string * (string * File))) :
  source_images flat = [] ->
  forall x, In x flat -> is_image_name (fst (snd x)) = false.
Proof.
  induction flat as [|y flat IH]; intros H x Hin; [destruct Hin|].
  change (y :: flat) with ([y] ++ flat) in H.
  rewrite source_images_app in H. apply app_eq_nil in H as [H1 H2].
  destruct Hin as [<- | Hin]; [|now apply IH].
  unfold source_images in H1. cbn [flat_map] in H1.
  now destruct (is_image_name (fst (snd y))).
Qed.

Lemma expected_saves_length (output_dir : string) (augmentation_factor : nat)
    (flat : list (string * (string * File))) :
  length (flat_map (expected_saves output_dir augmentation_factor) flat)
  = ((augmentation_factor + 1) * length (source_images flat))%nat.
Proof.
  induction flat as [|x flat IH]; [cbn; lia|].
  cbn [flat_map]. rewrite length_app, IH.
  change (x :: flat) with ([x] ++ flat). rewrite source_images_app, length_app.
  unfold expected_saves, source_images. cbn [flat_map].
  destruct (is_image_name (fst (snd x))).
  - cbn [length app]. rewrite length_map. unfold range. rewrite length_seq. lia.
  - cbn [length app]. lia.
Qed.

Section RunProperties.
Import pystr pystr_facts os_path os_path_facts.
Variable resample : PIL.Image -> nat -> nat -> list Z.
Variable data_augmentation : nat -> np.ndarray -> np.ndarray.
Variable dataset : Tree.
Variables dataset_dir output_dir : string.
Variable augmentation_factor : nat.

Abbreviation walked := (flat_files (walk dataset_dir dataset)).
Abbreviation run :=
  (augment_and_save_images resample data_augmentation dataset dataset_dir
     output_dir augmentation_factor).
Abbreviation one_file :=
  (fun sf : string * (string * File) =>
     process_file resample data_augmentation output_dir augmentation_factor
       (fst sf) (snd sf)).

Lemma process_file_skips (subdir : string) (entry : string * File) (w : World) :
  is_image_name (fst entry) = false ->
  process_file resample data_augmentation output_dir augmentation_factor
    subdir entry w = (w, Ok tt).
Proof.
  intros Him. unfold process_file. unfold is_image_name in Him. now rewrite Him.
Qed.

(** The paths saved for one entry are a beginning of the expected ones, and
    all of them when the entry is processed without an exception. *)
Lemma file_events_saves (subdir : string) (entry : string * File) (d : nat)
    (evs : list event) (r : result unit) :
  file_events resample data_augmentation output_dir augmentation_factor
    subdir entry d evs r ->
  exists rest,
    expected_saves output_dir augmentation_factor (subdir, entry)
    = saved_paths evs ++ rest
    /\ (r = Ok tt -> rest = []).
Proof.
  unfold file_events, expected_saves. cbn [fst snd].
  destruct (is_image_name (fst entry)).
  2:{ intros [-> _]. exists []. now split. }
  destruct (snd entry) as [| |img].
  - intros [-> ->]. eexists. split; [reflexivity | discriminate].
  - intros [-> ->]. eexists. split; [reflexivity | discriminate].
  - intros (mk & Hmk & -> & ->).
    set (label_dir := join output_dir [basename subdir]).
    set (plan := planned_saves data_augmentation label_dir (fst entry)
                   (normalize resample img) augmentation_factor d).
    destruct (run_saves_paths plan) as (rest & Hp & Hr).
    exists rest. split; [|exact Hr].
    change (EvOpen (join subdir [fst entry]) :: mk ++ fst (run_saves plan))
      with ([EvOpen (join subdir [fst entry])] ++ mk ++ fst (run_saves plan)).
    rewrite !saved_paths_app.
    replace (saved_paths mk) with (@nil string)
      by (destruct Hmk as [-> | ->]; reflexivity).
    cbn [saved_paths flat_map app]. fold (saved_paths (fst (run_saves plan))).
    rewrite <- Hp. unfold plan, planned_saves. cbn [map fst].
    now rewrite aug_plan_paths.
Qed.

Lemma done_saves (done : list (string * (string * File)))
    (evss : list (list event)) :
  Forall2 (fun x evs =>
             exists d, file_events resample data_augmentation output_dir
                         augmentation_factor (fst x) (snd x) d evs (Ok tt))
          done evss ->
  saved_paths (concat evss)
  = flat_map (expected_saves output_dir augmentation_factor) done.
Proof.
  induction 1 as [|x evs done evss [d FE] F IH]; [reflexivity|].
  cbn [concat flat_map]. rewrite saved_paths_app, IH. f_equal.
  destruct x as [subdir entry]. cbn [fst snd] in FE.
  destruct (file_events_saves _ _ _ _ _ FE) as (rest & -> & Hr).
  rewrite (Hr eq_refl). now rewrite app_nil_r.
Qed.

(** A run that completes saves, in walk order, for every entry the filter
    accepts the original and then the copies [aug_0_], ..., one per index
    below the factor, and nothing else: [factor + 1] saves per accepted
    file. *)
Theorem saves_of_a_complete_run (w : World) :
  exists w' r evs,
    run w = (w', r)
    /\ advances w w' evs
    /\ (r = Ok tt ->
        saved_paths evs
        = flat_map (expected_saves output_dir augmentation_factor) walked
        /\ length (saved_paths evs)
           = ((augmentation_factor + 1) * length (source_images walked))%nat).
Proof.
  destruct (run_summary resample data_augmentation dataset dataset_dir
              output_dir augmentation_factor w)
    as (w' & r & mk & done & evss & last & E & A & Hmk & F & Hend).
  exists w', r, (mk ++ concat evss ++ last).
  split; [exact E|]. split; [exact A|]. intros Hr.
  destruct Hend as [(_ & -> & ->) | (x & post & e & _ & -> & _)]; [|discriminate].
  assert (S : saved_paths (mk ++ concat evss ++ [])
              = flat_map (expected_saves output_dir augmentation_factor) walked).
  { rewrite app_nil_r, saved_paths_app, (done_saves _ _ F).
    now destruct Hmk as [-> | ->]. }
  split; [exact S|]. rewrite S. apply expected_saves_length.
Qed.

(** A run never removes anything and writes only where the plan says: every
    save goes to [label_dir/file] or [label_dir/aug_i_file] with [i] below
    the factor, for an accepted entry of the walk; every other path keeps
    what it held (so the copies an earlier run with a larger factor left
    stay as they are), every file and directory that was there still is. *)
Theorem run_writes_only_planned_paths (w : World) :
  exists w' r evs,
    run w = (w', r)
    /\ advances w w' evs
    /\ (forall p, In p (saved_paths evs) ->
          exists sf, In sf walked
            /\ In p (expected_saves output_dir augmentation_factor sf))
    /\ (forall p,
          (forall sf, In sf walked ->
             ~ In p (expected_saves output_dir augmentation_factor sf)) ->
          saved w' !! p = saved w !! p)
    /\ (forall p, is_Some (saved w !! p) -> is_Some (saved w' !! p))
    /\ (forall p, p ∈ dirs w -> p ∈ dirs w').
Proof.
  destruct (run_summary resample data_augmentation dataset dataset_dir
              output_dir augmentation_factor w)
    as (w' & r & mk & done & evss & last & E & A & Hmk & F & Hend).
  exists w', r, (mk ++ concat evss ++ last).
  split; [exact E|]. split; [exact A|].
  assert (Hdone : forall x, In x done -> In x walked).
  { destruct Hend as [(_ & -> & _) | (x & post & e & -> & _ & _)]; [auto|].
    intros y Hy. apply in_or_app. now left. }
  assert (P : forall p, In p (saved_paths (mk ++ concat evss ++ last)) ->
            exists sf, In sf walked
              /\ In p (expected_saves output_dir augmentation_factor sf)).
  { intros p Hin. rewrite !saved_paths_app in Hin.
    apply in_app_or in Hin as [Hin | Hin].
    { destruct Hmk as [-> | ->]; destruct Hin. }
    apply in_app_or in Hin as [Hin | Hin].
    - apply saved_paths_In in Hin as [im Hin].
      destruct (Forall2_concat_In _ _ _ _ F Hin)
        as ([subdir entry] & evs & Hx & [d FE] & He).
      exists (subdir, entry). split; [now apply Hdone|].
      cbn [fst snd] in FE.
      destruct (file_events_saves _ _ _ _ _ FE) as (rest & -> & _).
      apply in_or_app. left. apply saved_paths_In. now exists im.
    - destruct Hend as [(_ & _ & ->) | ([subdir entry] & post & e' & Hf & _ & [d FE])];
        [destruct Hin|].
      exists (subdir, entry). split.
      + rewrite Hf. apply in_or_app. right. now left.
      + cbn [fst snd] in FE.
        destruct (file_events_saves _ _ _ _ _ FE) as (rest & -> & _).
        apply in_or_app. now left. }
  split; [exact P|]. destruct A as (_ & S & D). split; [|split].
  - intros p Hp. rewrite S. apply replay_other. intros Hin.
    destruct (P p Hin) as (sf & Hsf & Hex). exact (Hp sf Hsf Hex).
  - intros p Hp. rewrite S. now apply replay_keeps.
  - intros p Hp. rewrite D. set_solver.
Qed.

(** Directories are created only for files: besides the output directory
    itself, a label directory is created only when the walk holds a file the
    filter accepts in a directory of that name.  Directories of the source
    tree without such a file are not mirrored. *)
Theorem label_dirs_only_for_images (w : World) :
  exists w' r evs,
    run w = (w', r)
    /\ advances w w' evs
    /\ (forall p, In p (made_dirs evs) ->
          p = output_dir
          \/ exists subdir entry,
               In (subdir, entry) walked
               /\ is_image_name (fst entry) = true
               /\ p = join output_dir [basename subdir]).
Proof.
  destruct (run_effects resample data_augmentation dataset dataset_dir
              output_dir augmentation_factor w)
    as (w' & r & evs & E & A & K & _).
  exists w', r, evs. split; [exact E|]. split; [exact A|].
  intros p Hin. apply made_dirs_In in Hin.
  destruct (K _ Hin) as [H | (subdir & entry & Hf & Him & H)].
  - left. congruence.
  - right. exists subdir, entry. split; [exact Hf|]. split; [exact Him|].
    destruct H as [H | [H | (n & im & H & _)]]; try discriminate. congruence.
Qed.

(** When no name in the tree passes the filter, the run does what
    [create_dir output_dir] does and nothing more: no file is opened, no
    augmentation drawn, nothing saved, and it does not raise. *)
Theorem run_without_images (w : World) :
  source_images walked = [] -> run w = create_dir output_dir w.
Proof.
  intros H. rewrite run_unfold. unfold bind.
  rewrite create_dir_detail.
  apply for_each_skip. intros x Hx w1.
  apply process_file_skips. exact (source_images_nil _ H x Hx).
Qed.

Lemma one_file_draws (x : string * (string * File)) (w w1 : World) :
  one_file x w = (w1, Ok tt) ->
  draws w1
  = (draws w + if is_image_name (fst (snd x)) then augmentation_factor else 0)%nat.
Proof.
  destruct x as [subdir [file content]]. cbn [fst snd]. intros H.
  destruct (is_image_name file) eqn:Him.
  - destruct content as [| |img].
    + destruct (process_file_undecodable resample data_augmentation output_dir
                  augmentation_factor subdir file w Him) as (w' & E & _).
      rewrite E in H. discriminate.
    + destruct (process_file_truncated resample data_augmentation output_dir
                  augmentation_factor subdir file w Him) as (w' & E & _).
      rewrite E in H. discriminate.
    + destruct (process_file_picture resample data_augmentation output_dir
                  augmentation_factor subdir file img w Him)
        as (w' & E & _ & _ & D & _).
      rewrite E in H. injection H as <- Hr. exact (D Hr).
  - rewrite process_file_skips in H by exact Him. injection H as <-. lia.
Qed.

Lemma chain_draws (xs : list (string * (string * File))) (w w' : World) :
  chain one_file xs w w' ->
  draws w' = (draws w + augmentation_factor * length (source_images xs))%nat.
Proof.
  induction 1 as [w | x xs w wa wb B C IH]; [cbn; lia|].
  rewrite IH, (one_file_draws _ _ _ B).
  change (x :: xs) with ([x] ++ xs). rewrite source_images_app, length_app.
  replace (length (source_images [x]))
    with (if is_image_name (fst (snd x)) then 1 else 0)%nat
    by (unfold source_images; cbn [flat_map];
        now destruct (is_image_name (fst (snd x)))).
  destruct (is_image_name (fst (snd x))); nia.
Qed.

(** A run that completes has called the augmentation layers exactly
    [factor] times for every accepted file, and not at all for the others:
    the original images are saved without passing through the layers. *)
Theorem draws_of_a_complete_run (w w' : World) :
  run w = (w', Ok tt) ->
  draws w'
  = (draws w + augmentation_factor * length (source_images walked))%nat.
Proof.
  rewrite run_unfold. unfold bind. rewrite create_dir_detail.
  set (w0 := if path_exists output_dir w then w else _).
  assert (D0 : draws w0 = draws w)
    by (subst w0; now destruct (path_exists output_dir w)).
  intros H.
  destruct (for_each_cases one_file walked w0)
    as [(w1 & R & C) | (pre & x & post & w1 & w2 & e & Hflat & C & B & R)].
  - rewrite R in H. injection H as <-.
    now rewrite (chain_draws _ _ _ C), D0.
  - rewrite R in H. discriminate.
Qed.

Lemma png_suffix (stem suf : string) :
  In suf [".jpg"; ".jpeg"; ".png"] ->
  endswith (stem +:+ suf) ".png" = true -> suf = ".png".
Proof.
  intros [<- | [<- | [<- | []]]] H; [| |reflexivity].
  - now rewrite endswith_false_append in H.
  - change (stem +:+ ".jpeg") with (stem +:+ "." +:+ "jpeg") in H.
    rewrite <- append_assoc in H.
    apply endswith_spec in H as [t H].
    apply append_inj_suffix in H as [_ H]; [discriminate | reflexivity].
Qed.

Lemma eight_bit_spec (m : PIL.Mode) :
  eight_bit m = true -> PIL.typestr m = np.uint8.
Proof. now destruct m. Qed.

Lemma mode_eqb_LA (m : PIL.Mode) :
  m = PIL.M_LA -> PIL.mode_eqb m PIL.M_LA = true.
Proof. now intros ->. Qed.

(** An entry that is processable is processed without an exception. *)
Lemma one_file_returns (x : string * (string * File)) (w : World) :
  processable (snd x) = true ->
  (forall n a, np.shape (data_augmentation n a) = np.shape a) ->
  exists w', one_file x w = (w', Ok tt).
Proof.
  destruct x as [subdir [file content]]. cbn [fst snd]. intros Hall Hshape.
  unfold processable in Hall. cbn [fst snd] in Hall.
  destruct (is_image_name file) eqn:Him.
  2:{ exists w. now apply process_file_skips. }
  apply andb_true_iff in Hall as [Hall Hc].
  apply andb_true_iff in Hall as [Hn He].
  apply negb_true_iff, String.eqb_neq in He.
  destruct content as [| |img]; [discriminate | discriminate |].
  apply andb_true_iff in Hc as [H8 Hla].
  destruct (accepted_with_extension file Him Hn He) as (stem & suf & -> & Hs & Hd).
  apply process_file_returns; try assumption.
  - now apply eight_bit_spec.
  - intros Hm. rewrite (mode_eqb_LA _ Hm) in Hla. cbn [negb orb] in Hla.
    now apply (png_suffix stem).
Qed.

End RunProperties.

(** ** Calls the operating system carries out *)

Lemma path_exists_spec (p : string) (w : World) :
  path_exists p w = true <-> p ∈ dirs w \/ is_Some (saved w !! p).
Proof.
  unfold path_exists. rewrite orb_true_iff, !bool_decide_eq_true. reflexivity.
Qed.

Lemma advances_inj (w w' : World) (e1 e2 : list event) :
  advances w w' e1 -> advances w w' e2 -> e1 = e2.
Proof.
  intros (T1 & _) (T2 & _). rewrite T1 in T2. now apply app_inv_head in T2.
Qed.

Lemma dom_replay (evs : list event) (m : gmap string PIL.Image) :
  dom (replay evs m) = list_to_set (saved_paths evs) ∪ dom m.
Proof.
  revert m. induction evs as [|e evs IH]; intros m.
  - cbn. set_solver.
  - unfold replay. cbn [fold_left]. fold (replay evs (apply_event m e)).
    rewrite IH. destruct e as [q | q | q im]; cbn [apply_event].
    + reflexivity.
    + reflexivity.
    + change (saved_paths (EvSave q im :: evs)) with (q :: saved_paths evs).
      rewrite dom_insert_L. set_solver.
Qed.

Lemma feasible_app (e1 e2 : list event) (D F : gset string) :
  feasible D F (e1 ++ e2)
  <-> feasible D F e1
      /\ feasible (list_to_set (made_dirs e1) ∪ D)
                  (list_to_set (saved_paths e1) ∪ F) e2.
Proof.
  revert D F. induction e1 as [|e e1 IH]; intros D F.
  - cbn [app made_dirs saved_paths flat_map list_to_set feasible].
    rewrite !(left_id_L ∅ (∪)). tauto.
  - destruct e as [q | q | q im]; cbn [app feasible]; rewrite IH.
    + reflexivity.
    + change (made_dirs (EvMkdir q :: e1)) with (q :: made_dirs e1).
      change (saved_paths (EvMkdir q :: e1)) with (saved_paths e1).
      replace (list_to_set (q :: made_dirs e1) ∪ D)
        with (list_to_set (made_dirs e1) ∪ ({[q]} ∪ D) : gset string)
        by set_solver.
      tauto.
    + change (made_dirs (EvSave q im :: e1)) with (made_dirs e1).
      change (saved_paths (EvSave q im :: e1)) with (q :: saved_paths e1).
      replace (list_to_set (q :: saved_paths e1) ∪ F)
        with (list_to_set (saved_paths e1) ∪ ({[q]} ∪ F) : gset string)
        by set_solver.
      tauto.
Qed.

(** Saves into directories that are there, at paths that are no directories,
    are carried out whatever files exist. *)
Lemma feasible_saves (D F : gset string) (evs : list event) :
  (forall e, In e evs ->
     exists p im, e = EvSave p im /\ child_of D p /\ p ∉ D) ->
  feasible D F evs.
Proof.
  revert F. induction evs as [|e evs IH]; intros F H; [exact I|].
  destruct (H e (or_introl eq_refl)) as (p & im & -> & C & N).
  cbn [feasible]. split; [exact C|]. split; [exact N|].
  apply IH. intros e' He'. apply H. now right.
Qed.

(** In a feasible trace no directory is created twice, and none at a path
    that was taken at the start. *)
Lemma feasible_made (evs : list event) (D F : gset string) :
  feasible D F evs ->
  List.NoDup (made_dirs evs)
  /\ forall p, In p (made_dirs evs) -> (p ∉ D) /\ (p ∉ F).
Proof.
  revert D F. induction evs as [|e evs IH]; intros D F H.
  - split; [constructor | intros p []].
  - destruct e as [q | q | q im]; cbn [feasible] in H.
    + exact (IH _ _ H).
    + destruct H as (_ & ND & NF & H). destruct (IH _ _ H) as [N Hm].
      change (made_dirs (EvMkdir q :: evs)) with (q :: made_dirs evs). split.
      * constructor; [|exact N]. intros Hin.
        destruct (Hm q Hin) as [Hq _]. set_solver.
      * intros p [<- | Hin]; [now split|].
        destruct (Hm p Hin) as [Hp Hf]. split; [set_solver | exact Hf].
    + destruct H as (_ & _ & H). destruct (IH _ _ H) as [N Hm].
      change (made_dirs (EvSave q im :: evs)) with (made_dirs evs).
      split; [exact N|]. intros p Hin.
      destruct (Hm p Hin) as [Hp Hf]. split; [exact Hp | set_solver].
Qed.

Lemma child_of_mono (D D' : gset string) (p : string) :
  D ⊆ D' -> child_of D p -> child_of D' p.
Proof.
  intros Hsub (d & n & -> & Hn & Hd). exists d, n.
  split; [reflexivity|]. split; [exact Hn | set_solver].
Qed.

(** Calls the operating system carries out leave a tidy disk tidy. *)
Lemma feasible_tidy_paths (evs : list event) (D F : gset string) :
  tidy_paths D F -> feasible D F evs ->
  tidy_paths (list_to_set (made_dirs evs) ∪ D)
             (list_to_set (saved_paths evs) ∪ F).
Proof.
  revert D F. induction evs as [|e evs IH]; intros D F T H.
  - cbn [made_dirs saved_paths flat_map list_to_set].
    now rewrite !(left_id_L ∅ (∪)).
  - destruct e as [q | q | q im]; cbn [feasible] in H.
    + exact (IH _ _ T H).
    + destruct H as (C & ND & NF & H). destruct T as [T1 T2].
      change (made_dirs (EvMkdir q :: evs)) with (q :: made_dirs evs).
      change (saved_paths (EvMkdir q :: evs)) with (saved_paths evs).
      replace (list_to_set (q :: made_dirs evs) ∪ D)
        with (list_to_set (made_dirs evs) ∪ ({[q]} ∪ D) : gset string)
        by set_solver.
      apply IH; [|exact H]. split.
      * intros p Hp.
        assert (Hc : p = q \/ (p ∈ D \/ p ∈ F)) by set_solver.
        destruct Hc as [-> | Hc].
        { right. apply (child_of_mono D); [set_solver | exact C]. }
        destruct (T1 p Hc) as [-> | Hch]; [now left|].
        right. apply (child_of_mono D); [set_solver | exact Hch].
      * intros p Hp. assert (Hc : p = q \/ p ∈ D) by set_solver.
        destruct Hc as [-> | Hc]; [exact NF | now apply T2].
    + destruct H as (C & ND & H). destruct T as [T1 T2].
      change (made_dirs (EvSave q im :: evs)) with (made_dirs evs).
      change (saved_paths (EvSave q im :: evs)) with (q :: saved_paths evs).
      replace (list_to_set (q :: saved_paths evs) ∪ F)
        with (list_to_set (saved_paths evs) ∪ ({[q]} ∪ F) : gset string)
        by set_solver.
      apply IH; [|exact H]. split.
      * intros p Hp.
        assert (Hc : p = q \/ (p ∈ D \/ p ∈ F)) by set_solver.
        destruct Hc as [-> | Hc]; [now right | now apply T1].
      * intros p Hp Hin.
        assert (Hc : p = q \/ p ∈ F) by set_solver.
        destruct Hc as [-> | Hc]; [contradiction | exact (T2 p Hp Hc)].
Qed.

Lemma feasible_tidy (w w' : World) (evs : list event) :
  tidy w -> advances w w' evs ->
  feasible (dirs w) (dom (saved w)) evs -> tidy w'.
Proof.
  intros T (_ & S & D) F. unfold tidy. rewrite D, S, dom_replay.
  now apply feasible_tidy_paths.
Qed.

Section PathShapes.
Import pystr pystr_facts os_path os_path_facts.

Lemma length_slashed (p : string) :
  (String.length p <= String.length (slashed p))%nat.
Proof.
  unfold slashed. destruct (String.eqb p "" || endswith p "/"); [lia|].
  rewrite length_append. lia.
Qed.

Lemma join_longer (d n : string) :
  contains sep n = false -> n <> "" ->
  (String.length d < String.length (join d [n]))%nat.
Proof.
  intros C N. rewrite (join_name d n C), length_append.
  pose proof (length_slashed d). destruct n; [easy|]. simpl. lia.
Qed.

Lemma entry_name_spec (n : string) :
  entry_name n = true ->
  name_ok n = true /\ n <> "" /\ contains sep n = false.
Proof.
  unfold entry_name. rewrite !andb_true_iff. intros [[H _] _].
  split; [exact H|]. now apply name_ok_spec.
Qed.

Lemma accepted_entry_name (file : string) :
  is_image_name file = true -> name_ok file = true -> entry_name file = true.
Proof.
  intros Him Hn. unfold entry_name. rewrite Hn. cbn [andb].
  destruct (String.eqb_spec file ".") as [-> | _]; [discriminate Him|].
  destruct (String.eqb_spec file "..") as [-> | _]; [discriminate Him|].
  reflexivity.
Qed.

Lemma aug_entry_name (i : nat) (file : string) :
  name_ok file = true -> entry_name (aug_name i file) = true.
Proof.
  intros H. unfold entry_name. rewrite (aug_name_ok i file H). reflexivity.
Qed.

(** A label directory is never the place of a file in a label directory. *)
Lemma label_not_target (out b b0 n : string) :
  contains sep b = false -> name_ok b0 = true -> contains sep n = false ->
  join out [b] <> join (join out [b0]) [n].
Proof.
  intros Cb Hb0 Cn E.
  rewrite (join_name out b Cb), (join_name _ n Cn),
    (slashed_join_name out b0 Hb0) in E.
  rewrite !append_assoc in E. apply append_inj_l in E.
  rewrite E, !contains_append in Cb. simpl in Cb.
  now rewrite orb_true_r in Cb.
Qed.

(** Nor is the output directory. *)
Lemma out_not_target (out b n : string) :
  entry_name b = true -> contains sep n = false -> n <> "" ->
  out <> join (join out [b]) [n].
Proof.
  intros Hb Cn Nn E. apply entry_name_spec in Hb as (_ & Nb & Cb).
  pose proof (join_longer out b Cb Nb).
  pose proof (join_longer (join out [b]) n Cn Nn).
  apply (f_equal String.length) in E. lia.
Qed.

End PathShapes.

(** ** [create_dir] (lines 38-46) on a disk *)

Lemma create_dir_feasible (p : string) (w : World) :
  creatable w p ->
  exists w1 mk,
    create_dir p w = (w1, Ok tt)
    /\ advances w w1 mk
    /\ feasible (dirs w) (dom (saved w)) mk
    /\ p ∈ dirs w1
    /\ saved w1 = saved w
    /\ (mk = [] /\ w1 = w /\ p ∈ dirs w
        \/ mk = [EvMkdir p] /\ dirs w1 = {[p]} ∪ dirs w /\ p ∉ dirs w).
Proof.
  intros [Hfile Hdir]. rewrite create_dir_detail.
  destruct (path_exists p w) eqn:Ex.
  - apply path_exists_spec in Ex as [Hin | Hsome];
      [|rewrite Hfile in Hsome; now destruct Hsome].
    exists w, []. split; [reflexivity|]. split; [apply advances_refl|].
    split; [exact I|]. split; [exact Hin|]. split; [reflexivity|]. now left.
  - assert (Hout : p ∉ dirs w).
    { intros Hin. assert (T : path_exists p w = true)
        by (apply path_exists_spec; now left). congruence. }
    destruct Hdir as [Hin | Hchild]; [contradiction|].
    eexists. exists [EvMkdir p]. split; [reflexivity|].
    split; [unfold advances; cbn; repeat split; set_solver|].
    split.
    { cbn [feasible]. split; [exact Hchild|]. split; [exact Hout|].
      split; [now apply not_elem_of_dom | exact I]. }
    cbn [dirs saved]. split; [set_solver|]. split; [reflexivity|]. now right.
Qed.


(** ** One entry on a disk (lines 61-97) *)

Section Feasibility.
Import pystr pystr_facts os_path os_path_facts.
Variable resample : PIL.Image -> nat -> nat -> list Z.
Variable data_augmentation : nat -> np.ndarray -> np.ndarray.
Variable output_dir : string.
Variable augmentation_factor : nat.

Abbreviation targets subdir entry :=
  (expected_saves output_dir augmentation_factor (subdir, entry)).

Lemma expected_saves_In (subdir : string) (entry : string * File) (p : string) :
  In p (targets subdir entry) <->
  is_image_name (fst entry) = true
  /\ (p = join (join output_dir [basename subdir]) [fst entry]
      \/ exists k, (k < augmentation_factor)%nat
           /\ p = join (join output_dir [basename subdir])
                    [aug_name k (fst entry)]).
Proof.
  unfold expected_saves. cbn [fst snd].
  destruct (is_image_name (fst entry)).
  - cbn [In]. rewrite in_map_iff. unfold range. split.
    + intros [<- | (k & <- & Hk)]; (split; [reflexivity|]); [now left|].
      right. exists k. apply in_seq in Hk. split; [lia | reflexivity].
    + intros [_ [-> | (k & Hk & ->)]]; [now left|].
      right. exists k. split; [reflexivity|]. apply in_seq. lia.
  - cbn [In]. split; [easy | now intros [? _]].
Qed.

(** A target is a proper entry of its label directory. *)
Lemma target_entry (subdir : string) (entry : string * File) (p : string) :
  name_ok (fst entry) = true -> In p (targets subdir entry) ->
  exists n, p = join (join output_dir [basename subdir]) [n]
            /\ entry_name n = true.
Proof.
  intros Hn Hin. apply expected_saves_In in Hin as [Him [-> | (k & _ & ->)]].
  - exists (fst entry). split; [reflexivity | now apply accepted_entry_name].
  - exists (aug_name k (fst entry)). split; [reflexivity | now apply aug_entry_name].
Qed.

(** What one entry creates and writes. *)
Lemma one_file_footprint (subdir : string) (entry : string * File) (w : World) :
  exists w' r evs,
    process_file resample data_augmentation output_dir augmentation_factor
      subdir entry w = (w', r)
    /\ advances w w' evs
    /\ (forall p, In p (made_dirs evs) ->
          is_image_name (fst entry) = true
          /\ p = join output_dir [basename subdir])
    /\ (forall p, In p (saved_paths evs) -> In p (targets subdir entry)).
Proof.
  destruct (process_file_advances resample data_augmentation output_dir
              augmentation_factor subdir entry w)
    as (w' & evs & r & E & A & FE).
  exists w', r, evs. split; [exact E|]. split; [exact A|]. split.
  - intros p Hin. apply made_dirs_In in Hin.
    destruct (file_event_kinds _ _ _ _ _ _ _ _ _ _ FE Hin)
      as [Him [H | [H | (n & im & H & _)]]]; try discriminate.
    split; [exact Him | congruence].
  - intros p Hin.
    destruct (file_events_saves _ _ _ _ _ _ _ _ _ FE) as (rest & -> & _).
    apply in_or_app. now left.
Qed.

(** The calls for an accepted entry are carried out when its label directory
    is usable. *)
Lemma process_file_feasible (subdir file : string) (content : File) (w : World) :
  is_image_name file = true -> name_ok file = true ->
  usable w (join output_dir [basename subdir]) (targets subdir (file, content)) ->
  exists w' r evs,
    process_file resample data_augmentation output_dir augmentation_factor
      subdir (file, content) w = (w', r)
    /\ advances w w' evs
    /\ feasible (dirs w) (dom (saved w)) evs.
Proof.
  intros Him Hn [[Hfile Hdir] Hfree].
  set (label_dir := join output_dir [basename subdir]) in *.
  destruct content as [| |img].
  { destruct (process_file_undecodable resample data_augmentation output_dir
                augmentation_factor subdir file w Him) as (w' & E & A).
    exists w'. eexists. eexists. split; [exact E|]. split; [exact A | exact I]. }
  { destruct (process_file_truncated resample data_augmentation output_dir
                augmentation_factor subdir file w Him) as (w' & E & A).
    exists w'. eexists. eexists. split; [exact E|]. split; [exact A | exact I]. }
  destruct (process_file_picture resample data_augmentation output_dir
              augmentation_factor subdir file img w Him)
    as (w' & E & A & _).
  fold label_dir in E, A.
  set (plan := planned_saves data_augmentation label_dir file
                 (normalize resample img) augmentation_factor (draws w)) in *.
  exists w'. eexists. eexists. split; [exact E|]. split; [exact A|].
  assert (Hs : forall e, In e (fst (run_saves plan)) ->
               exists p im, e = EvSave p im
                 /\ In p (targets subdir (file, Picture img))).
  { intros e He. apply run_saves_In in He as (p & a & im & -> & Hp & _).
    exists p, im. split; [reflexivity|]. apply expected_saves_In.
    split; [exact Him|]. cbn [fst]. destruct Hp as [Hp | Hp].
    - injection Hp as <- _. now left.
    - apply aug_plan_In in Hp as (k & Hk & -> & _). right. now exists k. }
  assert (Hlong : forall p, In p (targets subdir (file, Picture img)) ->
                  p <> label_dir).
  { intros p Hp Heq. destruct (target_entry subdir (file, Picture img) p Hn Hp) as (n & -> & Hen).
    apply entry_name_spec in Hen as (_ & Nn & Cn).
    pose proof (join_longer label_dir n Cn Nn) as L.
    fold label_dir in Heq. rewrite Heq in L. lia. }
  cbn [feasible].
  destruct (path_exists label_dir w) eqn:Ex.
  - apply path_exists_spec in Ex as [Hin | Hsome];
      [|rewrite Hfile in Hsome; now destruct Hsome].
    cbn [app]. apply feasible_saves. intros e He.
    destruct (Hs e He) as (p & im & -> & Hp).
    exists p, im. split; [reflexivity|]. split; [|now apply Hfree].
    destruct (target_entry subdir (file, Picture img) p Hn Hp) as (n & -> & Hen).
    now exists label_dir, n.
  - assert (Hout : label_dir ∉ dirs w).
    { intros Hin. assert (T : path_exists label_dir w = true)
        by (apply path_exists_spec; now left). congruence. }
    destruct Hdir as [Hin | Hchild]; [contradiction|].
    cbn [app feasible]. split; [exact Hchild|]. split; [exact Hout|].
    split; [now apply not_elem_of_dom|].
    apply feasible_saves. intros e He.
    destruct (Hs e He) as (p & im & -> & Hp).
    exists p, im. split; [reflexivity|]. split.
    + destruct (target_entry subdir (file, Picture img) p Hn Hp) as (n & -> & Hen).
      exists label_dir, n. split; [reflexivity|]. split; [exact Hen | set_solver].
    + pose proof (Hfree p Hp). pose proof (Hlong p Hp). set_solver.
Qed.

End Feasibility.

(** ** The files of one entry (lines 84-97) *)

Section EntryOnDisk.
Import pystr pystr_facts os_path os_path_facts np PIL PIL_facts.
Variable resample : Image -> nat -> nat -> list Z.
Variable data_augmentation : nat -> ndarray -> ndarray.


End EntryOnDisk.

(** ** The run on a disk (lines 48-97) *)

Lemma feasible_trans (w w1 : World) (e1 e2 : list event) :
  advances w w1 e1 ->
  feasible (dirs w) (dom (saved w)) e1 ->
  feasible (dirs w1) (dom (saved w1)) e2 ->
  feasible (dirs w) (dom (saved w)) (e1 ++ e2).
Proof.
  intros (_ & S & D) F1 F2. apply feasible_app. split; [exact F1|].
  now rewrite <- D, <- dom_replay, <- S.
Qed.

Lemma labelled_spec (sf : string * (string * File)) :
  labelled sf = true -> is_image_name (fst (snd sf)) = true ->
  entry_name (os_path.basename (fst sf)) = true /\ name_ok (fst (snd sf)) = true.
Proof.
  unfold labelled. intros H Him. rewrite Him in H.
  now apply andb_true_iff in H.
Qed.

Section RunFeasibility.
Import pystr pystr_facts os_path os_path_facts.
Variable resample : PIL.Image -> nat -> nat -> list Z.
Variable data_augmentation : nat -> np.ndarray -> np.ndarray.
Variable output_dir : string.
Variable augmentation_factor : nat.
Variable flat : list (string * (string * File)).
Hypothesis Hlab : forallb labelled flat = true.

Abbreviation one_entry :=
  (fun sf : string * (string * File) =>
     process_file resample data_augmentation output_dir augmentation_factor
       (fst sf) (snd sf)).

Lemma flat_labelled (sf : string * (string * File)) :
  In sf flat -> is_image_name (fst (snd sf)) = true ->
  entry_name (basename (fst sf)) = true /\ name_ok (fst (snd sf)) = true.
Proof.
  intros Hin. apply labelled_spec.
  rewrite forallb_forall in Hlab. now apply Hlab.
Qed.

(** Processing one entry leaves the label directories and targets of all
    entries unobstructed. *)
Lemma unblocked_step (sf0 : string * (string * File)) (w w' : World)
    (r : result unit) :
  In sf0 flat ->
  unblocked w output_dir augmentation_factor flat ->
  one_entry sf0 w = (w', r) ->
  unblocked w' output_dir augmentation_factor flat.
Proof.
  intros Hin0 [Hout Hclear] E.
  destruct (one_file_footprint resample data_augmentation output_dir
              augmentation_factor (fst sf0) (snd sf0) w)
    as (w2 & r2 & evs & E2 & A & Hmade & Hsaved).
  rewrite E in E2. injection E2 as <- <-.
  destruct A as (_ & S & D). split; [rewrite D; set_solver|].
  intros [subdir entry] Hsf Hacc. cbn [fst snd] in Hacc.
  destruct (Hclear _ Hsf Hacc) as [Hnone Hfree]. cbn [fst snd] in Hnone.
  destruct (flat_labelled _ Hsf Hacc) as [Hb Hn]. cbn [fst snd] in Hb, Hn.
  cbn [fst snd]. split.
  - rewrite S, replay_other; [exact Hnone|]. intros Hin.
    apply Hsaved, expected_saves_In in Hin as [Hacc0 Hcases].
    destruct (flat_labelled _ Hin0 Hacc0) as [Hb0 Hn0].
    apply entry_name_spec in Hb0 as (Hb0 & _ & _).
    pose proof Hn0 as Hc0. apply name_ok_spec in Hc0 as [_ Hc0].
    destruct Hcases as [Heq | (k & _ & Heq)];
      revert Heq; apply label_not_target;
      try exact Hb0; try apply rcut_snd_clean;
      [exact Hc0 | now apply aug_name_clean].
  - intros p Hp Hin. rewrite D in Hin.
    apply elem_of_union in Hin as [Hin | Hin]; [|exact (Hfree p Hp Hin)].
    apply elem_of_list_to_set, list_elem_of_In in Hin.
    destruct (Hmade p Hin) as [_ ->].
    destruct (target_entry output_dir augmentation_factor subdir entry _ Hn Hp)
      as (n & Heq & Hen).
    apply entry_name_spec in Hen as (_ & _ & Cn).
    apply entry_name_spec in Hb as (Hb & _ & _).
    revert Heq. apply label_not_target; [apply rcut_snd_clean | exact Hb | exact Cn].
Qed.

Lemma one_entry_feasible (x : string * (string * File)) (w : World) :
  In x flat ->
  unblocked w output_dir augmentation_factor flat ->
  exists w' r evs,
    one_entry x w = (w', r) /\ advances w w' evs
    /\ feasible (dirs w) (dom (saved w)) evs.
Proof.
  intros Hin [Hout Hclear]. destruct x as [subdir [file content]] eqn:Ex.
  cbn [fst snd]. destruct (is_image_name file) eqn:Him.
  - destruct (Hclear _ Hin Him) as [Hnone Hfree].
    destruct (flat_labelled _ Hin Him) as [Hb Hn]. cbn [fst snd] in *.
    apply process_file_feasible; [exact Him | exact Hn |].
    split; [split; [exact Hnone|] | exact Hfree].
    right. exists output_dir, (basename subdir). now split.
  - exists w, (Ok tt), []. split; [now apply process_file_skips|].
    split; [apply advances_refl | exact I].
Qed.

Lemma chain_feasible (xs : list (string * (string * File))) (w w' : World) :
  chain one_entry xs w w' ->
  (forall x, In x xs -> In x flat) ->
  unblocked w output_dir augmentation_factor flat ->
  exists evs,
    advances w w' evs /\ feasible (dirs w) (dom (saved w)) evs
    /\ unblocked w' output_dir augmentation_factor flat.
Proof.
  induction 1 as [w | x xs w wa wb B C IH]; intros Hsub U.
  - exists []. split; [apply advances_refl|]. now split.
  - assert (Hx : In x flat) by (apply Hsub; now left).
    destruct (one_entry_feasible x w Hx U) as (w1 & r & evs & E & A & F).
    rewrite B in E. injection E as <- <-.
    pose proof (unblocked_step x w wa (Ok tt) Hx U B) as U1.
    destruct (IH (fun y Hy => Hsub y (or_intror Hy)) U1) as (evs' & A' & F' & U').
    exists (evs ++ evs'). split; [eapply advances_trans; eauto|].
    split; [eapply feasible_trans; eauto | exact U'].
Qed.

(** The first call of the run, on a disk that is ready for it. *)
Lemma start_unblocked (w : World) :
  ready w output_dir augmentation_factor flat ->
  exists w0 mk,
    create_dir output_dir w = (w0, Ok tt)
    /\ advances w w0 mk
    /\ feasible (dirs w) (dom (saved w)) mk
    /\ unblocked w0 output_dir augmentation_factor flat.
Proof.
  intros (_ & Hc & Hclear).
  destruct (create_dir_feasible output_dir w Hc)
    as (w0 & mk & E0 & A0 & F0 & Hin0 & Hs0 & Hcase).
  exists w0, mk. split; [exact E0|]. split; [exact A0|]. split; [exact F0|].
  split; [exact Hin0|].
  intros [subdir entry] Hsf Hacc.
  destruct (Hclear _ Hsf Hacc) as [Hnone Hfree].
  destruct (flat_labelled _ Hsf Hacc) as [Hb Hn]. cbn [fst snd] in *.
  split; [now rewrite Hs0|]. intros p Hp Hin.
  destruct Hcase as [(_ & -> & _) | (_ & Hd & _)]; [exact (Hfree p Hp Hin)|].
  rewrite Hd in Hin.
  apply elem_of_union in Hin as [Hin | Hin]; [|exact (Hfree p Hp Hin)].
  apply elem_of_singleton in Hin. subst p.
  destruct (target_entry output_dir augmentation_factor subdir entry _ Hn Hp)
    as (n & Heq & Hen).
  apply entry_name_spec in Hen as (_ & Nn & Cn).
  revert Heq. now apply out_not_target.
Qed.

End RunFeasibility.

Section RunOnDisk.
Import pystr pystr_facts os_path os_path_facts.
Variable resample : PIL.Image -> nat -> nat -> list Z.
Variable data_augmentation : nat -> np.ndarray -> np.ndarray.
Variable dataset : Tree.
Variables dataset_dir output_dir : string.
Variable augmentation_factor : nat.

Abbreviation entries := (flat_files (walk dataset_dir dataset)).
Abbreviation the_run :=
  (augment_and_save_images resample data_augmentation dataset dataset_dir
     output_dir augmentation_factor).
Abbreviation entry_step :=
  (fun sf : string * (string * File) =>
     process_file resample data_augmentation output_dir augmentation_factor
       (fst sf) (snd sf)).



End RunOnDisk.

(** ** The properties on the sample inputs *)

Section MoreWitnesses.
Import np PIL Sample MoreSamples.

(** [glioma/img1.jpg] with a factor of 2: the original, then the copies for
    the draws 0 and 1. *)
Lemma copies_come_from_the_original_witness :
  exists w' evs,
    process_file nearest contrast "/out" 2 "/in/glioma"
      ("img1.jpg", Picture gray) empty_world = (w', Ok tt)
    /\ advances empty_world w' evs
    /\ map pixels (saved_images evs)
       = data (normalize nearest gray)
           :: map (fun j => data (augmented contrast j (normalize nearest gray)))
                  (seq (draws empty_world) 2)
    /\ draws w' = (draws empty_world + 2)%nat.
Proof.
  destruct (copies_come_from_the_original nearest contrast "/out" 2
              "/in/glioma" "img1.jpg" gray empty_world eq_refl)
    as (w' & r & evs & E & A & _ & H).
  destruct (process_file_returns nearest contrast "/out" 2 "/in/glioma"
              "img1" ".jpg" gray empty_world (or_introl eq_refl) eq_refl
              eq_refl eq_refl ltac:(discriminate) contrast_shape) as (w2 & E2).
  change ("img1" +:+ ".jpg") with "img1.jpg" in E2.
  assert (Hr : r = Ok tt) by congruence. subst r.
  exists w', evs. split; [exact E|]. split; [exact A|]. exact (H eq_refl).
Defined.

(** A 1-bit PNG mask. *)
Lemma wide_pixels_raise_type_error_witness :
  exists w',
    process_file nearest contrast "/out" 2 "/in/glioma"
      ("mask.png", Picture bilevel) empty_world = (w', Raise TypeError)
    /\ draws w' = draws empty_world.
Proof.
  destruct (wide_pixels_raise_type_error nearest contrast "/out" 2
              "/in/glioma" "mask.png" bilevel empty_world eq_refl
              (or_introl eq_refl))
    as (w' & E & _ & D).
  exists w'. split; [exact E | exact D].
Defined.

(** The gray+alpha sample under a JPEG name. *)
Lemma two_band_jpeg_raises_witness :
  exists w',
    process_file nearest contrast "/out" 2 "/in/glioma"
      ("mask" +:+ ".jpg", Picture gray_alpha) empty_world = (w', Raise OSError)
    /\ draws w' = draws empty_world.
Proof.
  destruct (two_band_jpeg_raises nearest contrast "/out" 2 "/in/glioma"
              "mask" ".jpg" gray_alpha empty_world (or_introl eq_refl)
              eq_refl eq_refl eq_refl)
    as (w' & E & _ & D).
  exists w'. split; [exact E | exact D].
Defined.

(** The hidden file [.png]. *)
Lemma dot_name_raises_value_error_witness :
  is_image_name ("" +:+ ".png") = true
  /\ exists w',
       process_file nearest contrast "/out" 2 "/in/glioma"
         ("" +:+ ".png", Picture gray) empty_world = (w', Raise ValueError)
       /\ draws w' = draws empty_world.
Proof.
  destruct (dot_name_raises_value_error nearest contrast "/out" 2 "/in/glioma"
              "" ".png" gray empty_world
              (or_intror (or_intror (or_introl eq_refl))) eq_refl eq_refl)
    as (Him & w' & E & _ & D).
  split; [exact Him|]. exists w'. split; [exact E | exact D].
Defined.

(** The CMYK sample: the third channel of the first pixel is its yellow
    band. *)
Lemma cmyk_bands_kept_witness :
  shape (normalize nearest cmyk) = [IMAGE_SIZE; IMAGE_SIZE; 3%nat]
  /\ get3 (normalize nearest cmyk) 0 0 2
     = get3 (array (resize nearest cmyk IMAGE_SIZE IMAGE_SIZE)) 0 0 2.
Proof.
  destruct (cmyk_bands_kept nearest cmyk eq_refl nearest_length eq_refl)
    as (S & _ & _ & G).
  split; [exact S|].
  apply G; unfold IMAGE_SIZE; lia.
Defined.

(** The RGBA sample under a JPEG name. *)
Lemma saved_images_are_rgb_witness :
  exists w' r evs,
    process_file nearest contrast "/out" 2 "/in/glioma/raw"
      ("scan.jpeg", Picture rgba) empty_world = (w', r)
    /\ advances empty_world w' evs
    /\ forall p im, In (EvSave p im) evs -> mode im = M_RGB.
Proof.
  destruct (saved_images_are_rgb nearest contrast "/out" 2 "/in/glioma/raw"
              "scan.jpeg" rgba empty_world ltac:(discriminate) contrast_shape)
    as (w' & r & evs & E & A & H).
  exists w', r, evs. split; [exact E|]. split; [exact A|].
  intros p im Hin. exact (proj1 (H p im Hin)).
Defined.

(** A tree without an accepted name, on a disk that holds the output of an
    earlier run. *)
Lemma run_without_images_witness :
  augment_and_save_images nearest contrast no_images "/in" "/out" 2 used_world
  = create_dir "/out" used_world.
Proof.
  apply (run_without_images nearest contrast no_images "/in" "/out" 2 used_world).
  reflexivity.
Defined.

(** The run over the sample tree completes. *)
Lemma sample_run_returns (w : World) :
  exists w',
    augment_and_save_images nearest contrast tree "/in" "/out" 2 w = (w', Ok tt).
Proof.
  rewrite run_unfold. unfold bind. rewrite create_dir_detail.
  apply for_each_ok. intros x Hin w1.
  apply (one_file_returns nearest contrast "/out" 2 x w1); [|exact contrast_shape].
  assert (H : forallb (fun sf : string * (string * File) => processable (snd sf))
                (flat_files (walk "/in" tree)) = true) by reflexivity.
  rewrite forallb_forall in H. exact (H x Hin).
Qed.

(** The sample tree has four accepted files. *)
Lemma draws_of_a_complete_run_witness :
  exists w',
    augment_and_save_images nearest contrast tree "/in" "/out" 2 empty_world
    = (w', Ok tt)
    /\ draws w' = 8%nat.
Proof.
  destruct (sample_run_returns empty_world) as (w' & E).
  exists w'. split; [exact E|].
  exact (draws_of_a_complete_run nearest contrast tree "/in" "/out" 2
           empty_world w' E).
Defined.

(** The twelve saves of the sample tree, in walk order; the two [glioma]
    directories write to the same three paths. *)
Lemma saves_of_a_complete_run_witness :
  exists w' evs,
    augment_and_save_images nearest contrast tree "/in" "/out" 2 empty_world
    = (w', Ok tt)
    /\ advances empty_world w' evs
    /\ saved_paths evs
       = ["/out/in/top.png"; "/out/in/aug_0_top.png"; "/out/in/aug_1_top.png";
          "/out/glioma/img1.jpg"; "/out/glioma/aug_0_img1.jpg";
          "/out/glioma/aug_1_img1.jpg";
          "/out/raw/scan.jpeg"; "/out/raw/aug_0_scan.jpeg";
          "/out/raw/aug_1_scan.jpeg";
          "/out/glioma/img1.jpg"; "/out/glioma/aug_0_img1.jpg";
          "/out/glioma/aug_1_img1.jpg"]
    /\ length (saved_paths evs) = 12%nat.
Proof.
  destruct (saves_of_a_complete_run nearest contrast tree "/in" "/out" 2
              empty_world) as (w' & r & evs & E & A & H).
  destruct (sample_run_returns empty_world) as (w2 & E2).
  assert (Hr : r = Ok tt) by congruence. subst r.
  exists w', evs. split; [exact E|]. split; [exact A|]. exact (H eq_refl).
Defined.

(** A file an earlier run left in a label directory is still there. *)
Lemma run_writes_only_planned_paths_witness :
  exists w' r evs,
    augment_and_save_images nearest contrast tree "/in" "/out" 2 used_world
    = (w', r)
    /\ advances used_world w' evs
    /\ saved w' !! "/out/glioma/old.png" = saved used_world !! "/out/glioma/old.png".
Proof.
  destruct (run_writes_only_planned_paths nearest contrast tree "/in" "/out" 2
              used_world) as (w' & r & evs & E & A & _ & K & _).
  exists w', r, evs. split; [exact E|]. split; [exact A|].
  apply K. intros sf Hin Hex. vm_compute in Hin.
  repeat (destruct Hin as [<- | Hin]; [vm_compute in Hex; intuition discriminate|]).
  exact Hin.
Defined.

(** A closed decidable fact about a sample, by evaluation. *)
Ltac by_decision :=
  match goal with
  | |- ?P => refine (bool_decide_unpack P _); vm_compute; exact I
  end.

(** The disks of the samples. *)
Lemma out_world_tidy : tidy out_world.
Proof.
  split.
  - intros p [Hp | Hp].
    + unfold out_world in Hp. cbn [dirs] in Hp.
      apply elem_of_union in Hp as [Hp | Hp];
        apply elem_of_singleton in Hp; subst p; [now left|].
      right. exists "/", "out". split; [reflexivity|].
      split; [reflexivity | by_decision].
    + unfold out_world in Hp. cbn [saved] in Hp.
      rewrite dom_empty_L in Hp. now apply elem_of_empty in Hp.
  - intros p _ Hp. unfold out_world in Hp. cbn [saved] in Hp.
    rewrite dom_empty_L in Hp. now apply elem_of_empty in Hp.
Qed.

Lemma out_world_usable (targets : list string) :
  (forall p, In p targets -> p <> "/" /\ p <> "/out") ->
  usable out_world "/out/glioma" targets.
Proof.
  intros H. split; [split|].
  - apply lookup_empty.
  - right. exists "/out", "glioma". split; [reflexivity|].
    split; [reflexivity | by_decision].
  - intros p Hp Hd. unfold out_world in Hd. cbn [dirs] in Hd.
    destruct (H p Hp) as [H1 H2].
    apply elem_of_union in Hd as [Hd | Hd];
      apply elem_of_singleton in Hd; contradiction.
Qed.

Lemma used_disk_tidy : tidy used_disk.
Proof.
  split.
  - intros p [Hp | Hp].
    + unfold used_disk in Hp. cbn [dirs] in Hp.
      apply elem_of_union in Hp as [Hp | Hp];
        [apply elem_of_union in Hp as [Hp | Hp]|];
        apply elem_of_singleton in Hp; subst p; [now left | |]; right.
      * exists "/", "out". split; [reflexivity|].
        split; [reflexivity | by_decision].
      * exists "/out", "glioma". split; [reflexivity|].
        split; [reflexivity | by_decision].
    + unfold used_disk in Hp. cbn [saved] in Hp.
      rewrite dom_singleton_L in Hp. apply elem_of_singleton in Hp. subst p.
      right. exists "/out/glioma", "old.png". split; [reflexivity|].
      split; [reflexivity | by_decision].
  - intros p Hp Hf. unfold used_disk in Hp, Hf. cbn [dirs saved] in Hp, Hf.
    rewrite dom_singleton_L in Hf. apply elem_of_singleton in Hf. subst p.
    revert Hp. by_decision.
Qed.

Lemma used_disk_ready :
  ready used_disk "/out" 2 (flat_files (walk "/in" tree)).
Proof.
  split; [exact used_disk_tidy|]. split; [split|].
  - now apply lookup_singleton_ne.
  - left. by_decision.
  - intros sf Hin Hacc. vm_compute in Hin.
    repeat (destruct Hin as [<- | Hin];
            [vm_compute in Hacc;
             first [discriminate Hacc
                   |split;
                    [vm_compute; reflexivity
                    |intros p Hp; vm_compute in Hp;
                     repeat (destruct Hp as [<- | Hp]; [by_decision|]);
                     destruct Hp]]|]).
    destruct Hin.
Qed.

(** The gray+alpha sample. *)
Lemma two_band_input_not_coerced_witness :
  normalize nearest gray_alpha
  = array (resize nearest gray_alpha IMAGE_SIZE IMAGE_SIZE)
  /\ shape (normalize nearest gray_alpha) = [IMAGE_SIZE; IMAGE_SIZE; 2%nat].
Proof.
  destruct (two_band_input_not_coerced nearest gray_alpha eq_refl)
    as (H1 & H2 & _).
  split; [exact H1 | exact H2].
Defined.



(** The sample tree: the run completes and a root file, a file two levels
    down and the second [glioma] directory are saved under their labels. *)
Lemma label_is_parent_basename_witness :
  exists w' evs,
    augment_and_save_images nearest contrast tree "/in" "/out" 2 out_world
    = (w', Ok tt)
    /\ advances out_world w' evs
    /\ exists im1 im2 im3,
         In (EvSave "/out/in/top.png" im1) evs
         /\ In (EvSave "/out/raw/scan.jpeg" im2) evs
         /\ In (EvSave "/out/glioma/img1.jpg" im3) evs.
Proof.
  destruct (label_is_parent_basename nearest contrast tree "/in" "/out" 2
              out_world eq_refl)
    as (w' & r & evs & done & rest & E & A & Hflat & Hrest & _ & Hwalked
        & Hdone & _).
  destruct (sample_run_returns out_world) as (w2 & E2).
  assert (Hr : r = Ok tt) by congruence. subst r.
  rewrite (Hrest eq_refl), app_nil_r in Hflat.
  exists w', evs. split; [exact E|]. split; [exact A|].
  assert (P2 : at_path tree ["glioma"; "raw"] (Dir [("scan.jpeg", Picture rgba)] [])).
  { unfold tree. eapply at_sub; [left; reflexivity|].
    eapply at_sub; [left; reflexivity|]. apply at_here. }
  assert (P3 : at_path tree ["batch2"; "glioma"] (Dir [("img1.jpg", Picture rgb)] [])).
  { unfold tree. eapply at_sub; [right; left; reflexivity|].
    eapply at_sub; [left; reflexivity|]. apply at_here. }
  pose proof (Hwalked [] _ _ "top.png" (Picture gray) (at_here tree)
                (or_introl eq_refl)) as M1.
  pose proof (Hwalked _ _ _ "scan.jpeg" (Picture rgba) P2 (or_introl eq_refl))
    as M2.
  pose proof (Hwalked _ _ _ "img1.jpg" (Picture rgb) P3 (or_introl eq_refl))
    as M3.
  rewrite Hflat in M1, M2, M3.
  destruct (Hdone [] _ _ "top.png" (Picture gray) (at_here tree)
              (or_introl eq_refl) eq_refl M1) as (_ & im1 & H1).
  destruct (Hdone _ _ _ "scan.jpeg" (Picture rgba) P2 (or_introl eq_refl)
              eq_refl M2) as (_ & im2 & H2).
  destruct (Hdone _ _ _ "img1.jpg" (Picture rgb) P3 (or_introl eq_refl)
              eq_refl M3) as (_ & im3 & H3).
  exists im1, im2, im3. split; [exact H1|]. split; [exact H2 | exact H3].
Defined.




End MoreWitnesses.
